(** * LevelDB table builder and arena: a shallow embedding

    The development follows two translation units of the repository:

    - [util/arena.cc]          (module [Arena])
    - [table/table_builder.cc] (module [TableBuilder])

    C++ assertions and undefined behaviour are the [None] outcomes of the
    option monad below; machine integers are [Z] with their wrap-around
    written out. *)

From Stdlib Require Import ZArith List String Ascii Bool Lia.
Import ListNotations.
Local Open Scope Z_scope.

(** ** A small failure monad for [assert] *)

Definition assert (b : bool) : option unit := if b then Some tt else None.

Notation "x <- c ;; k" :=
  (match c with Some x => k | None => None end)
  (at level 61, c at next level, right associativity).
Notation "c ;;; k" :=
  (match c with Some _ => k | None => None end)
  (at level 61, right associativity).

(** ** util/arena.cc *)

Module Arena.

Section Platform.

(** [sizeof(void* )]; [size_t] and [uintptr_t] have that many bytes. *)
Variable sizeof_ptr : Z.

Definition size_t_modulus : Z := 2 ^ (8 * sizeof_ptr).

(** Arithmetic on [size_t] is modulo [size_t_modulus]. *)
Definition wrap (x : Z) : Z := x mod size_t_modulus.

Definition kBlockSize : Z := 4096.

Record Arena := mkArena {
  alloc_ptr_ : Z;                (* char*, as an address; nullptr is 0 *)
  alloc_bytes_remaining_ : Z;    (* size_t *)
  blocks_ : list Z;              (* std::vector<char*> *)
  memory_usage_ : Z              (* std::atomic<size_t> *)
}.

(** [Arena::Arena()] *)
Definition Arena_new : Arena :=
  {| alloc_ptr_ := 0; alloc_bytes_remaining_ := 0;
     blocks_ := []; memory_usage_ := 0 |}.

(** [Arena::AllocateNewBlock].  [fresh] is the address [new char[block_bytes]]
    hands back; it belongs to the C++ runtime, not to the arena. *)
Definition AllocateNewBlock (fresh : Z) (a : Arena) (block_bytes : Z)
  : Z * Arena :=
  let result := fresh in
  (result,
   {| alloc_ptr_ := alloc_ptr_ a;
      alloc_bytes_remaining_ := alloc_bytes_remaining_ a;
      blocks_ := blocks_ a ++ [result];
      memory_usage_ := wrap (memory_usage_ a + wrap (block_bytes + sizeof_ptr)) |}).

(** [Arena::AllocateFallback] *)
Definition AllocateFallback (fresh : Z) (a : Arena) (bytes : Z) : Z * Arena :=
  if kBlockSize / 4 <? bytes then
    AllocateNewBlock fresh a bytes
  else
    let '(p, a1) := AllocateNewBlock fresh a kBlockSize in
    let a2 := {| alloc_ptr_ := p;
                 alloc_bytes_remaining_ := kBlockSize;
                 blocks_ := blocks_ a1;
                 memory_usage_ := memory_usage_ a1 |} in
    let result := alloc_ptr_ a2 in
    (result,
     {| alloc_ptr_ := alloc_ptr_ a2 + bytes;
        alloc_bytes_remaining_ := wrap (alloc_bytes_remaining_ a2 - bytes);
        blocks_ := blocks_ a2;
        memory_usage_ := memory_usage_ a2 |}).

(** [const int align = (sizeof(void* ) > 8) ? sizeof(void* ) : 8;] *)
Definition align : Z := if 8 <? sizeof_ptr then sizeof_ptr else 8.

Definition current_mod_of (a : Arena) : Z := Z.land (alloc_ptr_ a) (align - 1).

Definition slop_of (a : Arena) : Z :=
  let current_mod := current_mod_of a in
  if current_mod =? 0 then 0 else wrap (align - current_mod).

Definition needed_of (a : Arena) (bytes : Z) : Z := wrap (bytes + slop_of a).

(** [Arena::AllocateAligned].  [None] is the failure of the closing
    [assert]. *)
Definition AllocateAligned (fresh : Z) (a : Arena) (bytes : Z)
  : option (Z * Arena) :=
  let slop := slop_of a in
  let needed := needed_of a bytes in
  let '(result, a') :=
    if needed <=? alloc_bytes_remaining_ a then
      (alloc_ptr_ a + slop,
       {| alloc_ptr_ := alloc_ptr_ a + needed;
          alloc_bytes_remaining_ := wrap (alloc_bytes_remaining_ a - needed);
          blocks_ := blocks_ a;
          memory_usage_ := memory_usage_ a |})
    else AllocateFallback fresh a bytes in
  assert (Z.land result (align - 1) =? 0) ;;;
  Some (result, a').

End Platform.

End Arena.

(** ** table/table_builder.cc *)

Module TableBuilder.

(** *** Machine integers, byte strings *)

(** [uint64_t] arithmetic. *)
Definition wrap64 (x : Z) : Z := x mod 2 ^ 64.

Definition INT64_MAX : Z := 2 ^ 63 - 1.

(** [std::string::size()] and [Slice::size()]. *)
Definition size (s : string) : Z := Z.of_nat (String.length s).

Definition byte_of (x : Z) : ascii := ascii_of_N (Z.to_N (x mod 256)).

(** *** Collaborators declared outside [table_builder.cc] *)

(** Modelled from the spec: [leveldb::Status], declared in
    include/leveldb/status.h.  A status is either ok or an error of one of
    the kinds the spec lists, with its message. *)
Inductive Status :=
| Status_OK
| Status_NotFound (msg : string)
| Status_Corruption (msg : string)
| Status_NotSupported (msg : string)
| Status_InvalidArgument (msg : string)
| Status_IOError (msg : string).

Definition Status_ok (s : Status) : bool :=
  match s with Status_OK => true | _ => false end.

(** Modelled from the spec: the compression type codes, [0 = none] and
    [1 = snappy] (the enum lives in include/leveldb/options.h). *)
Inductive CompressionType := kNoCompression | kSnappyCompression.

Definition CompressionType_code (t : CompressionType) : Z :=
  match t with kNoCompression => 0 | kSnappyCompression => 1 end.

(** Modelled from the spec: the fields of [leveldb::Options] that the table
    builder reads.  [comparator] and [filter_policy] are pointers, kept as
    addresses; a null [filter_policy] is the address 0. *)
Record Options := mkOptions {
  comparator : Z;               (* const Comparator* *)
  block_size : Z;               (* size_t *)
  block_restart_interval : Z;   (* int *)
  compression : CompressionType;
  filter_policy : Z             (* const FilterPolicy* *)
}.

Definition nullptr : Z := 0.

Definition set_block_restart_interval (n : Z) (o : Options) : Options :=
  {| comparator := comparator o;
     block_size := block_size o;
     block_restart_interval := n;
     compression := compression o;
     filter_policy := filter_policy o |}.

(** Modelled from the spec: the comparator capability (section 6),
    [FindShortestSeparator] and [FindShortSuccessor] returning the new
    contents of the string they mutate. *)
Record Comparator := mkComparator {
  Compare : string -> string -> Z;
  FindShortestSeparator : string -> string -> string;
  FindShortSuccessor : string -> string
}.

(** Modelled from the spec: a block handle is a pair (offset, length) of
    64-bit unsigned integers (table/format.h). *)
Record BlockHandle := mkBlockHandle {
  handle_offset : Z;
  handle_size : Z
}.

(** The calls a sink receives. *)
Inductive FileCall :=
| CallAppend (data : string)
| CallFlush.

(** Modelled from the spec: [WritableFile], the output sink (section 6), an
    append-only byte sink with [Append] and [Flush], each returning a status.
    The sink keeps the log of the calls it received with their outcomes; the
    outcomes of the calls still to come are the sink's script (an exhausted
    script answers ok), so every behaviour of a real file is some script. *)
Record WritableFile := mkFile {
  file_log : list (FileCall * Status);
  file_script : list Status
}.

Definition File_call (c : FileCall) (f : WritableFile) : WritableFile * Status :=
  match file_script f with
  | [] => ({| file_log := file_log f ++ [(c, Status_OK)]; file_script := [] |},
           Status_OK)
  | st :: rest =>
      ({| file_log := file_log f ++ [(c, st)]; file_script := rest |}, st)
  end.

Definition File_Append (f : WritableFile) (data : string) : WritableFile * Status :=
  File_call (CallAppend data) f.

Definition File_Flush (f : WritableFile) : WritableFile * Status :=
  File_call CallFlush f.

(** The byte strings the sink accepted, oldest first. *)
Fixpoint appended (log : list (FileCall * Status)) : list string :=
  match log with
  | [] => []
  | (CallAppend data, Status_OK) :: rest => data :: appended rest
  | _ :: rest => appended rest
  end.

(** Total number of bytes the sink accepted. *)
Fixpoint total_size (pieces : list string) : Z :=
  match pieces with
  | [] => 0
  | p :: rest => size p + total_size rest
  end.

Definition bytes_appended (f : WritableFile) : Z :=
  total_size (appended (file_log f)).

(** Number of [Flush] requests the sink received. *)
Fixpoint flush_requests (log : list (FileCall * Status)) : nat :=
  match log with
  | [] => O
  | (CallFlush, _) :: rest => S (flush_requests rest)
  | _ :: rest => flush_requests rest
  end.

(** The calls a filter builder receives. *)
Inductive FilterCall :=
| CallStartBlock (block_offset : Z)
| CallAddKey (key : string)
| CallFinish.

(** Modelled from the spec: [FilterBlockBuilder], the filter builder
    (section 4.3), an external collaborator driven through [StartBlock],
    [AddKey] and [Finish].  It is represented by the policy it was built for
    and the calls it received; what [Finish] returns is a function of both
    (see [filter_Finish]). *)
Record FilterBlockBuilder := mkFilter {
  policy_ : Z;
  filter_calls : list FilterCall
}.

Definition FilterBlockBuilder_new (policy : Z) : FilterBlockBuilder :=
  {| policy_ := policy; filter_calls := [] |}.

Definition filter_call (c : FilterCall) (fb : FilterBlockBuilder) : FilterBlockBuilder :=
  {| policy_ := policy_ fb; filter_calls := filter_calls fb ++ [c] |}.

Definition StartBlock (block_offset : Z) := filter_call (CallStartBlock block_offset).
Definition AddKey (key : string) := filter_call (CallAddKey key).

(** A pointer to one of the two [Options] members of [Rep]. *)
Inductive OptionsRef := RefOptions | RefIndexBlockOptions.

(** Modelled from the spec: [BlockBuilder], the block accumulator
    (section 4.1).  It points to the options it was built with:
    [data_block(&options)], [index_block(&index_block_options)]; the pointer
    is kept as a reference into the [Rep], so that a builder picks up changed
    options.  [Add] encodes its entry at once, as a restart anchor or
    against the previous key according to the restart interval it reads
    through the pointer at that call; [CurrentSizeEstimate] and [Finish] work
    on what has been encoded.  So the accumulator is represented by the
    entries added since construction or the last [Reset], each with the
    options that were read when it was added. *)
Record BlockBuilder := mkBlock {
  options_ : OptionsRef;
  added : list (Options * (string * string))
}.

Definition BlockBuilder_new (o : OptionsRef) : BlockBuilder :=
  {| options_ := o; added := [] |}.

(** [BlockBuilder::Add]; [o] is what [options_] points to at the call. *)
Definition BlockBuilder_Add (o : Options) (b : BlockBuilder)
    (key value : string) : BlockBuilder :=
  {| options_ := options_ b; added := added b ++ [(o, (key, value))] |}.

Definition BlockBuilder_Reset (b : BlockBuilder) : BlockBuilder :=
  {| options_ := options_ b; added := [] |}.

Definition BlockBuilder_empty (b : BlockBuilder) : bool :=
  match added b with [] => true | _ => false end.

(** The entries an accumulator holds, as (key, value) pairs. *)
Definition entries (b : BlockBuilder) : list (string * string) :=
  List.map snd (added b).

(** What [table_builder.cc] calls and does not define, taken as parameters:
    the objects behind the comparator and filter-policy pointers, the block
    and filter serialisers, the codec, the checksum, the default handle, and
    the handle and footer encoders.  What a block accumulator returns from
    [Finish] and [CurrentSizeEstimate] is a function of the entries it was
    given and of the options each of them was added under.  The theorems hold
    for every such environment. *)
Class Env := mkEnv {
  comparator_at : Z -> Comparator;
  FilterPolicy_Name : Z -> string;
  filter_Finish : Z -> list FilterCall -> string;
  block_Finish : list (Options * (string * string)) -> string;
  block_CurrentSizeEstimate : list (Options * (string * string)) -> Z;
  Snappy_Compress : string -> option string;
  crc32c_Value : string -> Z;
  crc32c_Extend : Z -> string -> Z;
  BlockHandle_default : BlockHandle;
  BlockHandle_EncodeTo : BlockHandle -> string;
  Footer_EncodeTo : BlockHandle -> BlockHandle -> string
}.

(** Modelled from the spec: the trailer is exactly five bytes. *)
Definition kBlockTrailerSize : Z := 5.

(** Modelled from the spec: [crc32c::Mask],
    [((crc >> 15) | (crc << 17)) + 0xa282ead8] on 32-bit unsigned values. *)
Definition kMaskDelta : Z := 0xa282ead8.

Definition Mask (crc : Z) : Z :=
  (Z.lor (Z.shiftr crc 15) (Z.shiftl crc 17 mod 2 ^ 32) + kMaskDelta) mod 2 ^ 32.

(** Modelled from the spec: [EncodeFixed32], little-endian 32 bits. *)
Definition EncodeFixed32 (v : Z) : string :=
  String (byte_of v)
    (String (byte_of (Z.shiftr v 8))
       (String (byte_of (Z.shiftr v 16))
          (String (byte_of (Z.shiftr v 24)) EmptyString))).

(** *** [struct TableBuilder::Rep] *)

Record Rep := mkRep {
  options : Options;
  index_block_options : Options;
  file : WritableFile;
  offset : Z;                          (* uint64_t *)
  status : Status;
  data_block : BlockBuilder;
  index_block : BlockBuilder;
  last_key : string;
  num_entries : Z;                     (* int64_t *)
  closed : bool;
  filter_block : option FilterBlockBuilder;   (* nullptr is None *)
  pending_index_entry : bool;
  pending_handle : BlockHandle;
  compressed_output : string
}.

Definition set_options (x : Options) (r : Rep) : Rep :=
  mkRep x (index_block_options r) (file r) (offset r) (status r)
    (data_block r) (index_block r) (last_key r) (num_entries r) (closed r)
    (filter_block r) (pending_index_entry r) (pending_handle r)
    (compressed_output r).

Definition set_index_block_options (x : Options) (r : Rep) : Rep :=
  mkRep (options r) x (file r) (offset r) (status r)
    (data_block r) (index_block r) (last_key r) (num_entries r) (closed r)
    (filter_block r) (pending_index_entry r) (pending_handle r)
    (compressed_output r).

Definition set_file (x : WritableFile) (r : Rep) : Rep :=
  mkRep (options r) (index_block_options r) x (offset r) (status r)
    (data_block r) (index_block r) (last_key r) (num_entries r) (closed r)
    (filter_block r) (pending_index_entry r) (pending_handle r)
    (compressed_output r).

Definition set_offset (x : Z) (r : Rep) : Rep :=
  mkRep (options r) (index_block_options r) (file r) x (status r)
    (data_block r) (index_block r) (last_key r) (num_entries r) (closed r)
    (filter_block r) (pending_index_entry r) (pending_handle r)
    (compressed_output r).

Definition set_status (x : Status) (r : Rep) : Rep :=
  mkRep (options r) (index_block_options r) (file r) (offset r) x
    (data_block r) (index_block r) (last_key r) (num_entries r) (closed r)
    (filter_block r) (pending_index_entry r) (pending_handle r)
    (compressed_output r).

Definition set_data_block (x : BlockBuilder) (r : Rep) : Rep :=
  mkRep (options r) (index_block_options r) (file r) (offset r) (status r)
    x (index_block r) (last_key r) (num_entries r) (closed r)
    (filter_block r) (pending_index_entry r) (pending_handle r)
    (compressed_output r).

Definition set_index_block (x : BlockBuilder) (r : Rep) : Rep :=
  mkRep (options r) (index_block_options r) (file r) (offset r) (status r)
    (data_block r) x (last_key r) (num_entries r) (closed r)
    (filter_block r) (pending_index_entry r) (pending_handle r)
    (compressed_output r).

Definition set_last_key (x : string) (r : Rep) : Rep :=
  mkRep (options r) (index_block_options r) (file r) (offset r) (status r)
    (data_block r) (index_block r) x (num_entries r) (closed r)
    (filter_block r) (pending_index_entry r) (pending_handle r)
    (compressed_output r).

Definition set_num_entries (x : Z) (r : Rep) : Rep :=
  mkRep (options r) (index_block_options r) (file r) (offset r) (status r)
    (data_block r) (index_block r) (last_key r) x (closed r)
    (filter_block r) (pending_index_entry r) (pending_handle r)
    (compressed_output r).

Definition set_closed (x : bool) (r : Rep) : Rep :=
  mkRep (options r) (index_block_options r) (file r) (offset r) (status r)
    (data_block r) (index_block r) (last_key r) (num_entries r) x
    (filter_block r) (pending_index_entry r) (pending_handle r)
    (compressed_output r).

Definition set_filter_block (x : option FilterBlockBuilder) (r : Rep) : Rep :=
  mkRep (options r) (index_block_options r) (file r) (offset r) (status r)
    (data_block r) (index_block r) (last_key r) (num_entries r) (closed r)
    x (pending_index_entry r) (pending_handle r)
    (compressed_output r).

Definition set_pending_index_entry (x : bool) (r : Rep) : Rep :=
  mkRep (options r) (index_block_options r) (file r) (offset r) (status r)
    (data_block r) (index_block r) (last_key r) (num_entries r) (closed r)
    (filter_block r) x (pending_handle r)
    (compressed_output r).

Definition set_pending_handle (x : BlockHandle) (r : Rep) : Rep :=
  mkRep (options r) (index_block_options r) (file r) (offset r) (status r)
    (data_block r) (index_block r) (last_key r) (num_entries r) (closed r)
    (filter_block r) (pending_index_entry r) x
    (compressed_output r).

Definition set_compressed_output (x : string) (r : Rep) : Rep :=
  mkRep (options r) (index_block_options r) (file r) (offset r) (status r)
    (data_block r) (index_block r) (last_key r) (num_entries r) (closed r)
    (filter_block r) (pending_index_entry r) (pending_handle r)
    x.

(** The options a block builder points to. *)
Definition deref (r : Rep) (o : OptionsRef) : Options :=
  match o with
  | RefOptions => options r
  | RefIndexBlockOptions => index_block_options r
  end.

(** [TableBuilder::ok()] *)
Definition ok (r : Rep) : bool := Status_ok (status r).

(** [TableBuilder::status()] *)
Definition status_of (r : Rep) : Status := status r.

(** [TableBuilder::NumEntries()] : the [int64_t] counter read as [uint64_t]. *)
Definition NumEntries (r : Rep) : Z := wrap64 (num_entries r).

(** [TableBuilder::FileSize()] *)
Definition FileSize (r : Rep) : Z := offset r.

(** *** The member functions *)

Section Operations.

Context {E : Env}.

(** [Rep::Rep(opt, f)] *)
Definition Rep_new (opt : Options) (f : WritableFile) : Rep :=
  {| options := opt;
     index_block_options := set_block_restart_interval 1 opt;
     file := f;
     offset := 0;
     status := Status_OK;
     data_block := BlockBuilder_new RefOptions;
     index_block := BlockBuilder_new RefIndexBlockOptions;
     last_key := EmptyString;
     num_entries := 0;
     closed := false;
     filter_block :=
       if filter_policy opt =? nullptr then None
       else Some (FilterBlockBuilder_new (filter_policy opt));
     pending_index_entry := false;
     pending_handle := BlockHandle_default;
     compressed_output := EmptyString |}.

(** [TableBuilder::TableBuilder(options, file)] *)
Definition TableBuilder_new (opt : Options) (f : WritableFile) : Rep :=
  let r := Rep_new opt f in
  match filter_block r with
  | Some fb => set_filter_block (Some (StartBlock 0 fb)) r
  | None => r
  end.

(** [TableBuilder::ChangeOptions] *)
Definition ChangeOptions (r : Rep) (opts : Options) : Rep * Status :=
  if negb (comparator opts =? comparator (options r)) then
    (r, Status_InvalidArgument "changing comparator while building table")
  else
    let r := set_options opts r in
    let r := set_index_block_options opts r in
    let r := set_index_block_options
               (set_block_restart_interval 1 (index_block_options r)) r in
    (r, Status_OK).

(** The five bytes [WriteRawBlock] puts after a block. *)
Definition trailer_of (block_contents : string) (type : CompressionType) : string :=
  let trailer0 := byte_of (CompressionType_code type) in
  let crc := crc32c_Value block_contents in
  let crc := crc32c_Extend crc (String trailer0 EmptyString) in
  String trailer0 (EncodeFixed32 (Mask crc)).

(** [TableBuilder::WriteRawBlock]; the handle written through the pointer
    is returned. *)
Definition WriteRawBlock (r : Rep) (block_contents : string)
    (type : CompressionType) : Rep * BlockHandle :=
  let handle := {| handle_offset := offset r;
                   handle_size := size block_contents |} in
  let '(f, st) := File_Append (file r) block_contents in
  let r := set_status st (set_file f r) in
  if Status_ok (status r) then
    let trailer := trailer_of block_contents type in
    let '(f, st) := File_Append (file r) trailer in
    let r := set_status st (set_file f r) in
    if Status_ok (status r) then
      (set_offset (wrap64 (offset r + (size block_contents + kBlockTrailerSize))) r,
       handle)
    else (r, handle)
  else (r, handle).

(** The [switch] of [WriteBlock] on [r->options.compression]: given [raw]
    and the scratch buffer [r->compressed_output], the new scratch buffer,
    the payload and the type. *)
Definition select_contents (type : CompressionType) (raw : string)
    (compressed_output : string) : string * string * CompressionType :=
  match type with
  | kNoCompression => (compressed_output, raw, type)
  | kSnappyCompression =>
      match Snappy_Compress raw with
      | Some compressed =>
          if size compressed <? size raw - size raw / 8 then
            (compressed, compressed, type)
          else
            (compressed, raw, kNoCompression)
      | None => (compressed_output, raw, kNoCompression)
      end
  end.

(** [TableBuilder::WriteBlock]; the reset block and the handle written
    through the two pointers are returned. *)
Definition WriteBlock (r : Rep) (block : BlockBuilder)
  : option (Rep * BlockBuilder * BlockHandle) :=
  assert (ok r) ;;;
  let raw := block_Finish (added block) in
  let '(compressed, block_contents, type) :=
    select_contents (compression (options r)) raw (compressed_output r) in
  let r := set_compressed_output compressed r in
  let '(r, handle) := WriteRawBlock r block_contents type in
  let r := set_compressed_output EmptyString r in
  Some (r, BlockBuilder_Reset block, handle).

(** [Flush], behind [WriteBlock]: the pending flag and the sink's flush
    under [if (ok())], then the filter builder's [StartBlock]. *)
Definition Flush_tail (r : Rep) : Rep :=
  let r :=
    if ok r then
      let r := set_pending_index_entry true r in
      let '(f, st) := File_Flush (file r) in
      set_status st (set_file f r)
    else r in
  match filter_block r with
  | Some fb => set_filter_block (Some (StartBlock (offset r) fb)) r
  | None => r
  end.

(** [TableBuilder::Flush] *)
Definition Flush (r : Rep) : option Rep :=
  assert (negb (closed r)) ;;;
  if negb (ok r) then Some r else
  if BlockBuilder_empty (data_block r) then Some r else
  assert (negb (pending_index_entry r)) ;;;
  w <- WriteBlock r (data_block r) ;;
  let '(r, block, handle) := w in
  let r := set_pending_handle handle (set_data_block block r) in
  Some (Flush_tail r).

(** The first half of [Add]: the deferred index entry. *)
Definition emit_pending_index_entry (r : Rep) (key : string) : option Rep :=
  if pending_index_entry r then
    assert (BlockBuilder_empty (data_block r)) ;;;
    let c := comparator_at (comparator (options r)) in
    let r := set_last_key (FindShortestSeparator c (last_key r) key) r in
    let handle_encoding := BlockHandle_EncodeTo (pending_handle r) in
    let r := set_index_block
               (BlockBuilder_Add (deref r (options_ (index_block r)))
                  (index_block r) (last_key r) handle_encoding) r in
    Some (set_pending_index_entry false r)
  else Some r.

(** The second half of [Add], up to the size test: filter, last key,
    counter, data block.  Incrementing an [int64_t] at its maximum is
    undefined. *)
Definition append_record (r : Rep) (key value : string) : option Rep :=
  let r :=
    match filter_block r with
    | Some fb => set_filter_block (Some (AddKey key fb)) r
    | None => r
    end in
  let r := set_last_key key r in
  assert (num_entries r <? INT64_MAX) ;;;
  let r := set_num_entries (num_entries r + 1) r in
  Some (set_data_block
          (BlockBuilder_Add (deref r (options_ (data_block r)))
             (data_block r) key value) r).

(** [TableBuilder::Add] *)
Definition Add (r : Rep) (key value : string) : option Rep :=
  assert (negb (closed r)) ;;;
  if negb (ok r) then Some r else
  assert (if 0 <? num_entries r
          then 0 <? Compare (comparator_at (comparator (options r)))
                      key (last_key r)
          else true) ;;;
  r <- emit_pending_index_entry r key ;;
  r <- append_record r key value ;;
  let estimated_block_size :=
    block_CurrentSizeEstimate (added (data_block r)) in
  if block_size (options r) <=? estimated_block_size then Flush r
  else Some r.

(** [Finish], "Write filter block". *)
Definition write_filter_block (r : Rep) : Rep * BlockHandle :=
  let filter_block_handle := BlockHandle_default in
  match filter_block r with
  | Some fb =>
      if ok r then
        let contents := filter_Finish (policy_ fb) (filter_calls fb) in
        let r := set_filter_block (Some (filter_call CallFinish fb)) r in
        WriteRawBlock r contents kNoCompression
      else (r, filter_block_handle)
  | None => (r, filter_block_handle)
  end.

(** [Finish], "Write metaindex block".  [filter_policy->Name()] through a
    null pointer is undefined. *)
Definition write_metaindex_block (r : Rep) (filter_block_handle : BlockHandle)
  : option (Rep * BlockHandle) :=
  let metaindex_block_handle := BlockHandle_default in
  if ok r then
    let meta_index_block := BlockBuilder_new RefOptions in
    meta_index_block <-
      match filter_block r with
      | Some _ =>
          assert (negb (filter_policy (options r) =? nullptr)) ;;;
          let key := ("filter." ++ FilterPolicy_Name (filter_policy (options r)))%string in
          let handle_encoding := BlockHandle_EncodeTo filter_block_handle in
          Some (BlockBuilder_Add (deref r (options_ meta_index_block))
                  meta_index_block key handle_encoding)
      | None => Some meta_index_block
      end ;;
    w <- WriteBlock r meta_index_block ;;
    let '(r, _, handle) := w in
    Some (r, handle)
  else Some (r, metaindex_block_handle).

(** [Finish], "Write index block". *)
Definition write_index_block (r : Rep) : option (Rep * BlockHandle) :=
  let index_block_handle := BlockHandle_default in
  if ok r then
    let r :=
      if pending_index_entry r then
        let c := comparator_at (comparator (options r)) in
        let r := set_last_key (FindShortSuccessor c (last_key r)) r in
        let handle_encoding := BlockHandle_EncodeTo (pending_handle r) in
        let r := set_index_block
                   (BlockBuilder_Add (deref r (options_ (index_block r)))
                      (index_block r) (last_key r) handle_encoding) r in
        set_pending_index_entry false r
      else r in
    w <- WriteBlock r (index_block r) ;;
    let '(r, block, handle) := w in
    Some (set_index_block block r, handle)
  else Some (r, index_block_handle).

(** [Finish], "Write footer". *)
Definition write_footer (r : Rep)
    (metaindex_block_handle index_block_handle : BlockHandle) : Rep :=
  if ok r then
    let footer_encoding :=
      Footer_EncodeTo metaindex_block_handle index_block_handle in
    let '(f, st) := File_Append (file r) footer_encoding in
    let r := set_status st (set_file f r) in
    if Status_ok (status r) then
      set_offset (wrap64 (offset r + size footer_encoding)) r
    else r
  else r.

(** [TableBuilder::Finish] *)
Definition Finish (r : Rep) : option (Rep * Status) :=
  r <- Flush r ;;
  assert (negb (closed r)) ;;;
  let r := set_closed true r in
  let '(r, filter_block_handle) := write_filter_block r in
  m <- write_metaindex_block r filter_block_handle ;;
  let '(r, metaindex_block_handle) := m in
  i <- write_index_block r ;;
  let '(r, index_block_handle) := i in
  let r := write_footer r metaindex_block_handle index_block_handle in
  Some (r, status r).

(** [TableBuilder::Abandon] *)
Definition Abandon (r : Rep) : option Rep :=
  assert (negb (closed r)) ;;;
  Some (set_closed true r).

(** [TableBuilder::~TableBuilder]: the assertion that catches a forgotten
    [Finish]; the deletions that follow it free memory only. *)
Definition TableBuilder_delete (r : Rep) : option unit :=
  assert (closed r).

(** *** Call sequences *)

Inductive Op :=
| OpAdd (key value : string)
| OpFlush
| OpFinish
| OpAbandon
| OpChangeOptions (opts : Options).

Definition step (r : Rep) (op : Op) : option Rep :=
  match op with
  | OpAdd key value => Add r key value
  | OpFlush => Flush r
  | OpFinish => p <- Finish r ;; Some (fst p)
  | OpAbandon => Abandon r
  | OpChangeOptions opts => Some (fst (ChangeOptions r opts))
  end.

Fixpoint run (r : Rep) (ops : list Op) : option Rep :=
  match ops with
  | [] => Some r
  | op :: rest => r' <- step r op ;; run r' rest
  end.

End Operations.

End TableBuilder.

(** ** A reference environment

    One concrete choice for everything [table_builder.cc] borrows, used to
    run the builder on concrete inputs. *)

Module Reference.

Import TableBuilder.

(** Modelled from the spec: byte-lexicographic order (section 4.2), the
    three-way comparison of two byte strings. *)
Fixpoint bytewise_Compare (a b : string) : Z :=
  match a, b with
  | EmptyString, EmptyString => 0
  | EmptyString, String _ _ => -1
  | String _ _, EmptyString => 1
  | String x a', String y b' =>
      if (N_of_ascii x <? N_of_ascii y)%N then -1
      else if (N_of_ascii y <? N_of_ascii x)%N then 1
      else bytewise_Compare a' b'
  end.

Definition next_byte (x : ascii) : ascii := ascii_of_N (N_of_ascii x + 1).

(** Modelled from the spec: the short separator for byte-lexicographic order
    "increments the first byte where [last_key] and [key] diverge"; when that
    is not possible the start key is kept. *)
Fixpoint bytewise_FindShortestSeparator (start limit : string) : string :=
  match start, limit with
  | String x start', String y limit' =>
      if (N_of_ascii x =? N_of_ascii y)%N then
        String x (bytewise_FindShortestSeparator start' limit')
      else if ((N_of_ascii x <? 255) && (N_of_ascii x + 1 <? N_of_ascii y))%N then
        String (next_byte x) EmptyString
      else start
  | _, _ => start
  end.

(** Modelled from the spec: the short successor increments the first byte
    that is not [0xFF] and truncates after it; a run of [0xFF] is kept. *)
Fixpoint bytewise_FindShortSuccessor (key : string) : string :=
  match key with
  | EmptyString => EmptyString
  | String x rest =>
      if (N_of_ascii x =? 255)%N then String x (bytewise_FindShortSuccessor rest)
      else String (next_byte x) EmptyString
  end.

Definition BytewiseComparator : Comparator :=
  {| Compare := bytewise_Compare;
     FindShortestSeparator := bytewise_FindShortestSeparator;
     FindShortSuccessor := bytewise_FindShortSuccessor |}.

(** Modelled from the spec: a [varint] of at most [n] bytes, seven bits per
    byte, least significant group first. *)
Fixpoint PutVarint (n : nat) (v : Z) : string :=
  match n with
  | O => EmptyString
  | S n' =>
      if v <? 128 then String (byte_of v) EmptyString
      else String (byte_of (Z.lor (v mod 128) 128)) (PutVarint n' (v / 128))
  end.

Fixpoint shared_prefix (a b : string) : nat :=
  match a, b with
  | String x a', String y b' =>
      if (N_of_ascii x =? N_of_ascii y)%N then S (shared_prefix a' b') else O
  | _, _ => O
  end.

Fixpoint drop (n : nat) (s : string) : string :=
  match n, s with
  | S n', String _ s' => drop n' s'
  | _, _ => s
  end.

(** Modelled from the spec: the block accumulator's buffer (section 4.1).
    Each entry records [(shared_prefix_len, non_shared_len, value_len)], the
    non-shared key bytes and the value; an entry starts a new restart anchor
    when the entries since the last anchor have reached the restart interval
    of the options read at its [Add]. *)
Record BlockState := mkBlockState {
  buffer_ : string;
  restarts_ : list Z;
  counter_ : Z;
  last_key_ : string
}.

Definition block_add (b : BlockState) (e : Options * (string * string))
  : BlockState :=
  let '(o, (key, value)) := e in
  let restart := negb (counter_ b <? block_restart_interval o) in
  let shared := if restart then O else shared_prefix (last_key_ b) key in
  let non_shared := drop shared key in
  {| buffer_ :=
       (buffer_ b ++ PutVarint 5 (Z.of_nat shared) ++ PutVarint 5 (size non_shared)
        ++ PutVarint 5 (size value) ++ non_shared ++ value)%string;
     restarts_ := if restart then restarts_ b ++ [size (buffer_ b)] else restarts_ b;
     counter_ := (if restart then 0 else counter_ b) + 1;
     last_key_ := key |}.

Definition block_state (es : list (Options * (string * string))) : BlockState :=
  fold_left block_add es
    {| buffer_ := EmptyString; restarts_ := [0]; counter_ := 0;
       last_key_ := EmptyString |}.

Definition ref_block_Finish (es : list (Options * (string * string))) : string :=
  let b := block_state es in
  (buffer_ b
   ++ fold_right (fun x acc => EncodeFixed32 x ++ acc) EmptyString (restarts_ b)
   ++ EncodeFixed32 (Z.of_nat (List.length (restarts_ b))))%string.

Definition ref_block_CurrentSizeEstimate
    (es : list (Options * (string * string))) : Z :=
  let b := block_state es in
  size (buffer_ b) + Z.of_nat (List.length (restarts_ b)) * 4 + 4.

(** CRC-32C (Castagnoli), bit by bit. *)
Fixpoint crc_bits (n : nat) (crc : Z) : Z :=
  match n with
  | O => crc
  | S n' =>
      crc_bits n'
        (Z.lxor (Z.shiftr crc 1) (if Z.odd crc then 0x82F63B78 else 0))
  end.

Fixpoint crc_bytes (crc : Z) (data : string) : Z :=
  match data with
  | EmptyString => crc
  | String x rest =>
      crc_bytes (crc_bits 8 (Z.lxor crc (Z.of_N (N_of_ascii x)))) rest
  end.

Definition ref_crc32c_Extend (init_crc : Z) (data : string) : Z :=
  Z.lxor (crc_bytes (Z.lxor init_crc 0xffffffff) data) 0xffffffff.

(** A stand-in codec: runs of a repeated byte become (count, byte). *)
Fixpoint rle (prev : ascii) (count : Z) (s : string) : string :=
  match s with
  | EmptyString => String (byte_of count) (String prev EmptyString)
  | String x rest =>
      if ((N_of_ascii x =? N_of_ascii prev)%N && (count <? 255))%bool
      then rle prev (count + 1) rest
      else String (byte_of count) (String prev (rle x 1 rest))
  end.

Definition rle_compress (raw : string) : option string :=
  match raw with
  | EmptyString => Some EmptyString
  | String x rest => Some (rle x 1 rest)
  end.

(** Modelled from the spec: [handle := varint64 offset varint64 length]. *)
Definition ref_BlockHandle_EncodeTo (h : BlockHandle) : string :=
  (PutVarint 10 (handle_offset h) ++ PutVarint 10 (handle_size h))%string.

Fixpoint zeros (n : nat) : string :=
  match n with
  | O => EmptyString
  | S n' => String zero (zeros n')
  end.

(** Modelled from the spec: the footer is the two handles, zero padding up
    to a fixed body of 40 bytes, then the 8-byte magic number. *)
Definition kTableMagicNumber : Z := 0xdb4775248b80fb57.

Definition ref_Footer_EncodeTo (metaindex index : BlockHandle) : string :=
  let body := (ref_BlockHandle_EncodeTo metaindex
               ++ ref_BlockHandle_EncodeTo index)%string in
  (body ++ zeros (40 - String.length body)
   ++ EncodeFixed32 (kTableMagicNumber mod 2 ^ 32)
   ++ EncodeFixed32 (Z.shiftr kTableMagicNumber 32))%string.

(** A stand-in filter: the keys it was given, then the length of that
    prefix and the base byte; five bytes when no key was added. *)
Fixpoint filter_keys (calls : list FilterCall) : string :=
  match calls with
  | [] => EmptyString
  | CallAddKey key :: rest => (key ++ filter_keys rest)%string
  | _ :: rest => filter_keys rest
  end.

Definition ref_filter_Finish (policy : Z) (calls : list FilterCall) : string :=
  let keys := filter_keys calls in
  (keys ++ EncodeFixed32 (size keys) ++ String (byte_of 11) EmptyString)%string.

(** The environment; [snappy] selects the codec ([None]: built without it). *)
Definition ref_env (snappy : string -> option string) : Env :=
  {| comparator_at := fun _ => BytewiseComparator;
     FilterPolicy_Name := fun _ => "leveldb.BuiltinBloomFilter2"%string;
     filter_Finish := ref_filter_Finish;
     block_Finish := ref_block_Finish;
     block_CurrentSizeEstimate := ref_block_CurrentSizeEstimate;
     Snappy_Compress := snappy;
     crc32c_Value := ref_crc32c_Extend 0;
     crc32c_Extend := ref_crc32c_Extend;
     BlockHandle_default := {| handle_offset := 2 ^ 64 - 1; handle_size := 2 ^ 64 - 1 |};
     BlockHandle_EncodeTo := ref_BlockHandle_EncodeTo;
     Footer_EncodeTo := ref_Footer_EncodeTo |}.

Definition no_snappy : Env := ref_env (fun _ => None).
Definition with_codec : Env := ref_env rle_compress.

(** Options and sinks for concrete runs. *)
Definition plain_options : Options :=
  {| comparator := 1; block_size := 4096; block_restart_interval := 16;
     compression := kNoCompression; filter_policy := nullptr |}.

Definition filter_options : Options :=
  {| comparator := 1; block_size := 4096; block_restart_interval := 16;
     compression := kNoCompression; filter_policy := 2 |}.

Definition snappy_options : Options :=
  {| comparator := 1; block_size := 4096; block_restart_interval := 16;
     compression := kSnappyCompression; filter_policy := nullptr |}.


Definition small_block_options : Options :=
  {| comparator := 1; block_size := 100; block_restart_interval := 4;
     compression := kNoCompression; filter_policy := nullptr |}.

(** Blocks of 50 bytes, with every entry a restart anchor, and with an
    anchor every 16 entries. *)
Definition anchored_options : Options :=
  {| comparator := 1; block_size := 50; block_restart_interval := 1;
     compression := kNoCompression; filter_policy := nullptr |}.

Definition shared_options : Options :=
  {| comparator := 1; block_size := 50; block_restart_interval := 16;
     compression := kNoCompression; filter_policy := nullptr |}.

Definition scripted (outcomes : list Status) : WritableFile :=
  {| file_log := []; file_script := outcomes |}.

(** A value that compresses well. *)
Fixpoint repeat_byte (x : ascii) (n : nat) : string :=
  match n with
  | O => EmptyString
  | S n' => String x (repeat_byte x n')
  end.

(** What a run leaves: the sizes of the pieces the sink accepted, the
    offset, the keys staged in the index block, the last key, the count. *)
Definition summary (o : option Rep) :=
  option_map
    (fun r => (List.map size (appended (file_log (file r))), FileSize r,
               List.map fst (entries (index_block r)), last_key r,
               NumEntries r))
    o.

End Reference.

(** ** Vocabulary of the properties *)

Module Invariants.

Import TableBuilder.

Section Invariants.

Context {E : Env}.

(** What holds of every builder whatever calls it received.  [c0] is the
    comparator the builder was constructed with. *)
Record core_inv (c0 : Z) (r : Rep) : Prop := mk_core_inv {
  inv_comparator : comparator (options r) = c0;
  inv_interval : block_restart_interval (index_block_options r) = 1;
  inv_data_ref : options_ (data_block r) = RefOptions;
  inv_index_ref : options_ (index_block r) = RefIndexBlockOptions;
  inv_entries_nonneg : 0 <= num_entries r;
  inv_nonempty :
    BlockBuilder_empty (data_block r) = false ->
    0 < num_entries r /\ pending_index_entry r = false;
  inv_pending : pending_index_entry r = true -> 0 < num_entries r
}.

(** The comparator's side of the bargain in [Add]: for [start < limit] the
    separator lies in [start <= sep < limit]. *)
Definition separator_contract (c : Comparator) : Prop :=
  forall start limit,
    0 < Compare c limit start ->
    Compare c start (FindShortestSeparator c start limit) <= 0 /\
    Compare c (FindShortestSeparator c start limit) limit < 0.

(** Pieces of a file: blocks as (payload, trailer), in order. *)
Fixpoint pieces_of (blocks : list (string * string)) : list string :=
  match blocks with
  | [] => []
  | (payload, trailer) :: rest => payload :: trailer :: pieces_of rest
  end.

Fixpoint blocks_size (blocks : list (string * string)) : Z :=
  match blocks with
  | [] => 0
  | (payload, _) :: rest => size payload + kBlockTrailerSize + blocks_size rest
  end.

Definition footer_piece (footer : option string) : list string :=
  match footer with Some f => [f] | None => [] end.

(** Since the pieces [base] it held at construction, the sink accepted the
    complete [blocks], then the [footer] if any, then [orphan]: what was
    accepted on the way to a failure.  The offset counts the blocks and the
    footer. *)
Record accounted (base : list string) (r : Rep)
    (blocks : list (string * string)) (footer : option string)
    (orphan : list string) : Prop := mk_accounted {
  acc_pieces :
    appended (file_log (file r))
    = base ++ pieces_of blocks ++ footer_piece footer ++ orphan;
  acc_trailers :
    Forall (fun b => size (snd b) = kBlockTrailerSize) blocks;
  acc_offset :
    offset r = wrap64 (blocks_size blocks + total_size (footer_piece footer));
  acc_ok : ok r = true -> orphan = []
}.

(** Index entries staged but not yet emitted: none or one. *)
Definition pending_count (r : Rep) : nat :=
  if pending_index_entry r then 1%nat else 0%nat.

(** The file-level invariant.  While the builder is open no footer has been
    written, every complete block in the file is a data block, and the data
    blocks are the index entries emitted so far plus the pending one. *)
Definition file_inv (base : list string) (r : Rep) : Prop :=
  exists blocks footer orphan,
    accounted base r blocks footer orphan /\
    (closed r = false ->
     footer = None /\
     List.length blocks
     = (List.length (entries (index_block r)) + pending_count r)%nat).

(** No footer yet. *)
Definition blocks_only (base : list string) (r : Rep) : Prop :=
  exists blocks orphan, accounted base r blocks None orphan.

(** The three ways [WriteRawBlock r c t] can go, by what the sink answers:
    payload refused; payload accepted and trailer refused; both accepted, and
    only then does the offset advance. *)
Inductive raw_write (r : Rep) (c : string) (t : CompressionType) : Rep -> Prop :=
| raw_payload_refused f st :
    File_Append (file r) c = (f, st) ->
    Status_ok st = false ->
    raw_write r c t (set_status st (set_file f r))
| raw_trailer_refused f1 f2 st :
    File_Append (file r) c = (f1, Status_OK) ->
    File_Append f1 (trailer_of c t) = (f2, st) ->
    Status_ok st = false ->
    raw_write r c t (set_status st (set_file f2 r))
| raw_written f1 f2 :
    File_Append (file r) c = (f1, Status_OK) ->
    File_Append f1 (trailer_of c t) = (f2, Status_OK) ->
    raw_write r c t
      (set_offset (wrap64 (offset r + (size c + kBlockTrailerSize)))
         (set_status Status_OK (set_file f2 r))).

(** What [WriteBlock] hands to [WriteRawBlock]. *)
Definition payload_of (r : Rep) (block : BlockBuilder) : string * CompressionType :=
  let raw := block_Finish (added block) in
  let '(_, block_contents, type) :=
    select_contents (compression (options r)) raw (compressed_output r) in
  (block_contents, type).

(** [r'] agrees with [r] on everything [core_inv] reads, and on [closed]. *)
Definition same_core (r r' : Rep) : Prop :=
  options r' = options r /\
  index_block_options r' = index_block_options r /\
  data_block r' = data_block r /\
  index_block r' = index_block r /\
  num_entries r' = num_entries r /\
  pending_index_entry r' = pending_index_entry r /\
  closed r' = closed r.

(** The restart interval the index-block accumulator works with: that of
    the options it points to. *)
Definition index_restart_interval (r : Rep) : Z :=
  block_restart_interval (deref r (options_ (index_block r))).

(** The file of a table without records, piece by piece, as [Finish]
    writes it on a fresh builder when the sink accepts everything: the filter
    block of a filter that saw no key, if a policy is configured; the
    metaindex block, naming that filter block if there is one; the index
    block, without entries; the footer. *)
Definition empty_table (opt : Options) : list string :=
  let no_filter := filter_policy opt =? nullptr in
  let filter_contents := filter_Finish (filter_policy opt) [CallStartBlock 0] in
  let filter_handle :=
    {| handle_offset := 0; handle_size := size filter_contents |} in
  let filter_pieces :=
    if no_filter then []
    else [filter_contents; trailer_of filter_contents kNoCompression] in
  let meta_entries :=
    if no_filter then []
    else [(opt, (("filter." ++ FilterPolicy_Name (filter_policy opt))%string,
                 BlockHandle_EncodeTo filter_handle))] in
  let meta_offset :=
    if no_filter then 0
    else wrap64 (0 + (size filter_contents + kBlockTrailerSize)) in
  let '(_, meta, meta_type) :=
    select_contents (compression opt) (block_Finish meta_entries)
      EmptyString in
  let index_offset := wrap64 (meta_offset + (size meta + kBlockTrailerSize)) in
  let '(_, index, index_type) :=
    select_contents (compression opt) (block_Finish []) EmptyString in
  let footer :=
    Footer_EncodeTo
      {| handle_offset := meta_offset; handle_size := size meta |}
      {| handle_offset := index_offset; handle_size := size index |} in
  filter_pieces
  ++ [meta; trailer_of meta meta_type; index; trailer_of index index_type;
      footer].

(** The log entries of accepted [Append]s. *)
Definition accepted (pieces : list string) : list (FileCall * Status) :=
  List.map (fun p => (CallAppend p, Status_OK)) pieces.

(** [Add] and [Flush] calls only. *)
Definition is_Add_or_Flush (op : Op) : bool :=
  match op with
  | OpAdd _ _ | OpFlush => true
  | _ => false
  end.

(** *** Vocabulary of further properties *)

(** The keys of the [Add] calls of a call sequence, in order. *)
Fixpoint added_keys (ops : list Op) : list string :=
  match ops with
  | [] => []
  | OpAdd key _ :: rest => key :: added_keys rest
  | _ :: rest => added_keys rest
  end.

(** The keys a filter builder received through [AddKey], in order. *)
Fixpoint delivered_keys (calls : list FilterCall) : list string :=
  match calls with
  | [] => []
  | CallAddKey key :: rest => key :: delivered_keys rest
  | _ :: rest => delivered_keys rest
  end.

(** A filter builder as its user sees it: its policy and the keys it has. *)
Definition filter_view (r : Rep) : option (Z * list string) :=
  option_map (fun fb => (policy_ fb, delivered_keys (filter_calls fb)))
    (filter_block r).

(** [Finish] and [Abandon]. *)
Definition is_closing (op : Op) : bool :=
  match op with
  | OpFinish | OpAbandon => true
  | _ => false
  end.

(** [ChangeOptions]. *)
Definition is_ChangeOptions (op : Op) : bool :=
  match op with
  | OpChangeOptions _ => true
  | _ => false
  end.

(** What [r'] keeps of [r] when only blocks were written or the builder
    was closed. *)
Definition kept (r r' : Rep) : Prop :=
  num_entries r' = num_entries r /\
  filter_view r' = filter_view r /\
  options r' = options r /\
  index_block_options r' = index_block_options r.

(** The handles of consecutive blocks of a file that starts [start] bytes
    before the first of them: each block begins where the previous one's
    trailer ends. *)
Fixpoint block_handles (start : Z) (blocks : list (string * string))
  : list BlockHandle :=
  match blocks with
  | [] => []
  | (payload, _) :: rest =>
      {| handle_offset := wrap64 start; handle_size := size payload |}
      :: block_handles (start + (size payload + kBlockTrailerSize)) rest
  end.

(** The encoded handle waiting for its index entry, if any. *)
Definition pending_part (r : Rep) : list string :=
  if pending_index_entry r then [BlockHandle_EncodeTo (pending_handle r)]
  else [].

(** The payload and type [WriteBlock] selects, under the builder's options
    [o], for a block to which the entries [es] were added, each under the
    options it is paired with. *)
Definition block_payload (o : Options) (es : list (Options * (string * string)))
  : string * CompressionType :=
  let '(_, contents, type) :=
    select_contents (compression o) (block_Finish es) EmptyString in
  (contents, type).

(** The records of the [Add] calls of a call sequence, in order. *)
Fixpoint added_records (ops : list Op) : list (string * string) :=
  match ops with
  | [] => []
  | OpAdd key value :: rest => (key, value) :: added_records rest
  | _ :: rest => added_records rest
  end.

(** The options of a builder after [ChangeOptions opts], when they were
    [opt] before: [opts] if it keeps the comparator, [opt] otherwise. *)
Definition installed (opt opts : Options) : Options :=
  if comparator opts =? comparator opt then opts else opt.

(** The options in force after the calls [ops], on a builder whose options
    were [opt]. *)
Fixpoint options_after (opt : Options) (ops : list Op) : Options :=
  match ops with
  | [] => opt
  | OpChangeOptions opts :: rest => options_after (installed opt opts) rest
  | _ :: rest => options_after opt rest
  end.

(** The options that the [ChangeOptions] calls of [ops] put in force, in
    order: those of the calls that keep the comparator. *)
Fixpoint changed_options (opt : Options) (ops : list Op) : list Options :=
  match ops with
  | [] => []
  | OpChangeOptions opts :: rest =>
      (if comparator opts =? comparator opt then [opts] else [])
      ++ changed_options (installed opt opts) rest
  | _ :: rest => changed_options opt rest
  end.

(** The records of the [Add] calls of [ops], in order, each with the
    options in force at its call, on a builder whose options were [opt]. *)
Fixpoint added_entries (opt : Options) (ops : list Op)
  : list (Options * (string * string)) :=
  match ops with
  | [] => []
  | OpAdd key value :: rest => (opt, (key, value)) :: added_entries opt rest
  | OpChangeOptions opts :: rest => added_entries (installed opt opts) rest
  | _ :: rest => added_entries opt rest
  end.

(** Groups of entries as groups of records, without the options. *)
Definition records_of (groups : list (list (Options * (string * string))))
  : list (list (string * string)) :=
  List.map (List.map snd) groups.

(** Each key is above the one before it under [c]. *)
Fixpoint increasing (c : Comparator) (keys : list string) : Prop :=
  match keys with
  | [] => True
  | k1 :: rest =>
      match rest with
      | [] => True
      | k2 :: _ => 0 < Compare c k2 k1
      end /\ increasing c rest
  end.

(** The bytes of a file made of [pieces]. *)
Definition contents (pieces : list string) : string :=
  List.fold_right String.append EmptyString pieces.

(** The bytes a handle designates in [data]: [handle_size] bytes from
    position [handle_offset]. *)
Definition read_at (data : string) (h : BlockHandle) : string :=
  substring (Z.to_nat (handle_offset h)) (Z.to_nat (handle_size h)) data.

(** The block (payload, trailer) holds the entries [group], each paired
    with the options it was added under: there is at least one entry, the
    payload is what [WriteBlock] selects, under one of the options [os], for
    an accumulator that received these entries under these options, and the
    trailer is the one [WriteRawBlock] computes for that payload and its
    type. *)
Definition holds (os : list Options)
    (group : list (Options * (string * string)))
    (block : string * string) : Prop :=
  group <> [] /\
  exists o type,
    In o os /\
    block_payload o group = (fst block, type) /\
    snd block = trailer_of (fst block) type.

(** The calls a filter builder receives for the data blocks [blocks]
    holding the records [groups], the first of which begins at [start]: the
    keys of each block, then [StartBlock] with the offset at which the next
    block begins. *)
Fixpoint filter_trace (start : Z) (groups : list (list (string * string)))
    (blocks : list (string * string)) : list FilterCall :=
  match groups, blocks with
  | group :: groups', (payload, _) :: blocks' =>
      List.map CallAddKey (List.map fst group)
      ++ CallStartBlock (wrap64 (start + (size payload + kBlockTrailerSize)))
         :: filter_trace (start + (size payload + kBlockTrailerSize))
              groups' blocks'
  | _, _ => []
  end.

(** The comparator's side of the bargain in [Finish]: the successor is not
    below the key. *)
Definition successor_contract (c : Comparator) : Prop :=
  forall key, Compare c key (FindShortSuccessor c key) <= 0.

(** The index keys [keys] separate the blocks holding [groups], which are
    followed by the records [rest]: the key of a block is not below the
    block's last key, and is below the first key that comes after the
    block. *)
Fixpoint separates (c : Comparator) (keys : list string)
    (groups : list (list (string * string))) (rest : list (string * string))
  : Prop :=
  match keys, groups with
  | [], _ => True
  | k :: keys', group :: groups' =>
      Compare c (List.last (List.map fst group) EmptyString) k <= 0 /\
      match List.map fst (List.concat groups' ++ rest) with
      | next :: _ => Compare c k next < 0
      | [] => True
      end /\
      separates c keys' groups' rest
  | _ :: _, [] => False
  end.

(** What holds of a builder whose status is ok, given the options [os]
    that were in force so far and the entries [es] added so far, each with
    the options in force at its [Add]: the count, the order of the keys and,
    while it is open, the last key, the data blocks in the file, the entries
    they hold, the handles staged for the index, the calls the filter
    builder received, and the keys of the index entries. *)
Record table_inv (base : list string) (c0 : Z) (r : Rep)
    (os : list Options) (es : list (Options * (string * string))) : Prop :=
  mk_table_inv {
  tab_core : core_inv c0 r;
  tab_options : In (options r) os;
  tab_count : num_entries r = Z.of_nat (List.length es);
  tab_increasing :
    increasing (comparator_at c0) (List.map fst (List.map snd es));
  tab_open :
    closed r = false ->
    last_key r = List.last (List.map fst (List.map snd es)) EmptyString /\
    exists blocks groups,
      accounted base r blocks None [] /\
      Forall2 (holds os) groups blocks /\
      List.concat groups ++ added (data_block r) = es /\
      List.map snd (entries (index_block r)) ++ pending_part r
      = List.map BlockHandle_EncodeTo (block_handles 0 blocks) /\
      (forall fb,
        filter_block r = Some fb ->
        filter_calls fb
        = CallStartBlock 0
          :: filter_trace 0 (records_of groups) blocks
             ++ List.map CallAddKey (List.map fst (entries (data_block r)))) /\
      (pending_index_entry r = false -> added (data_block r) = [] ->
       groups = []) /\
      (separator_contract (comparator_at c0) ->
       separates (comparator_at c0)
         (List.map fst (entries (index_block r))) (records_of groups)
         (entries (data_block r)))
}.

(** Every call of a log was answered ok. *)
Definition all_ok (log : list (FileCall * Status)) : Prop :=
  Forall (fun e => snd e = Status_OK) log.

(** [st] is the answer to the last call of [log] and the calls before it
    were answered ok; without any call, [st] is ok. *)
Definition sink_trace (log : list (FileCall * Status)) (st : Status) : Prop :=
  log = [] /\ st = Status_OK \/
  exists earlier c, log = earlier ++ [(c, st)] /\ all_ok earlier.

(** Since the log [base] it had at construction, the sink's log is one
    whose last answer is the builder's status. *)
Definition sink_inv (base : list (FileCall * Status)) (r : Rep) : Prop :=
  exists log, file_log (file r) = base ++ log /\ sink_trace log (status r).

(** The calls the sink receives for data blocks: payload, trailer, flush,
    block after block, all answered ok. *)
Definition data_log (blocks : list (string * string))
  : list (FileCall * Status) :=
  List.flat_map
    (fun b => [(CallAppend (fst b), Status_OK);
               (CallAppend (snd b), Status_OK);
               (CallFlush, Status_OK)])
    blocks.

(** While the builder is open, the sink's log since construction is that
    of some data blocks. *)
Definition flush_inv (base : list (FileCall * Status)) (r : Rep) : Prop :=
  closed r = false ->
  exists blocks, file_log (file r) = base ++ data_log blocks.

(** The call sequence that adds [records], one [Add] each. *)
Definition adds (records : list (string * string)) : list Op :=
  List.map (fun kv => OpAdd (fst kv) (snd kv)) records.

(** An open builder whose status is ok, still under the options [opt] it
    was constructed with, on a sink that will accept whatever comes. *)
Definition healthy (opt : Options) (r : Rep) : Prop :=
  core_inv (comparator opt) r /\
  options r = opt /\
  closed r = false /\
  ok r = true /\
  file_script (file r) = [] /\
  (filter_view r <> None -> filter_policy opt <> nullptr).

(** *** What [Finish] writes behind the data blocks

    All of it is read off the state [r] that the closing [Flush] of
    [Finish] leaves. *)

(** The index entries once the pending one is emitted, under the key
    [FindShortSuccessor] gives. *)
Definition final_index_entries (r : Rep) : list (string * string) :=
  entries (index_block r) ++
  (if pending_index_entry r then
     [(FindShortSuccessor (comparator_at (comparator (options r))) (last_key r),
       BlockHandle_EncodeTo (pending_handle r))]
   else []).

Definition filter_contents_of (r : Rep) : option string :=
  option_map (fun fb => filter_Finish (policy_ fb) (filter_calls fb))
    (filter_block r).

Definition filter_pieces (r : Rep) : list string :=
  match filter_contents_of r with
  | Some c => [c; trailer_of c kNoCompression]
  | None => []
  end.

Definition filter_block_handle_of (r : Rep) : BlockHandle :=
  match filter_contents_of r with
  | Some c => {| handle_offset := offset r; handle_size := size c |}
  | None => BlockHandle_default
  end.

Definition metaindex_entries (r : Rep) : list (string * string) :=
  match filter_block r with
  | Some _ =>
      [(("filter." ++ FilterPolicy_Name (filter_policy (options r)))%string,
        BlockHandle_EncodeTo (filter_block_handle_of r))]
  | None => []
  end.

(** The metaindex block is built while [Finish] runs: its entry is added
    under the builder's options. *)
Definition metaindex_payload (r : Rep) : string * CompressionType :=
  block_payload (options r)
    (List.map (pair (options r)) (metaindex_entries r)).

Definition metaindex_offset (r : Rep) : Z :=
  match filter_contents_of r with
  | Some c => wrap64 (offset r + (size c + kBlockTrailerSize))
  | None => offset r
  end.

Definition metaindex_block_handle_of (r : Rep) : BlockHandle :=
  {| handle_offset := metaindex_offset r;
     handle_size := size (fst (metaindex_payload r)) |}.

(** The index block's entries with the options each was added under: the
    entries emitted by [Add], then the pending one, which [Finish] adds
    under the index block's options. *)
Definition final_index_added (r : Rep) : list (Options * (string * string)) :=
  added (index_block r) ++
  (if pending_index_entry r then
     [(index_block_options r,
       (FindShortSuccessor (comparator_at (comparator (options r))) (last_key r),
        BlockHandle_EncodeTo (pending_handle r)))]
   else []).

Definition index_payload (r : Rep) : string * CompressionType :=
  block_payload (options r) (final_index_added r).

(** Every entry was added under a restart interval of 1: each is its own
    restart anchor. *)
Definition anchored (es : list (Options * (string * string))) : Prop :=
  Forall (fun e => block_restart_interval (fst e) = 1) es.

Definition index_block_handle_of (r : Rep) : BlockHandle :=
  {| handle_offset :=
       wrap64 (metaindex_offset r
               + (size (fst (metaindex_payload r)) + kBlockTrailerSize));
     handle_size := size (fst (index_payload r)) |}.

Definition footer_of (r : Rep) : string :=
  Footer_EncodeTo (metaindex_block_handle_of r) (index_block_handle_of r).

(** The filter block if there is a filter builder, the metaindex block,
    the index block, the footer. *)
Definition closing_pieces (r : Rep) : list string :=
  filter_pieces r
  ++ [fst (metaindex_payload r);
      trailer_of (fst (metaindex_payload r)) (snd (metaindex_payload r));
      fst (index_payload r);
      trailer_of (fst (index_payload r)) (snd (index_payload r));
      footer_of r].

End Invariants.

End Invariants.

(** * Properties *)

(** ** Arena *)

Module ArenaProofs.

Import Arena.

(** A positive [a] with [a & (a - 1) = 0] is a power of two. *)
Lemma land_pred_zero_pow2 (a : Z) :
  0 < a -> Z.land a (a - 1) = 0 -> a = 2 ^ Z.log2 a.
Proof.
  intros Hpos Hland.
  destruct (Z.log2_spec a Hpos) as [Hlo Hhi].
  destruct (Z.eq_dec a (2 ^ Z.log2 a)) as [|Hne]; [assumption | exfalso].
  assert (Hbit1 : Z.testbit a (Z.log2 a) = true) by (apply Z.bit_log2; lia).
  assert (Hlog : Z.log2 (a - 1) = Z.log2 a).
  { apply Z.log2_unique; [apply Z.log2_nonneg | lia]. }
  assert (Hbit2 : Z.testbit (a - 1) (Z.log2 a) = true).
  { rewrite <- Hlog. apply Z.bit_log2.
    assert (0 < 2 ^ Z.log2 a) by (apply Z.pow_pos_nonneg; [lia | apply Z.log2_nonneg]).
    lia. }
  assert (Hbit : Z.testbit (Z.land a (a - 1)) (Z.log2 a) = true).
  { rewrite Z.land_spec, Hbit1, Hbit2. reflexivity. }
  rewrite Hland, Z.bits_0 in Hbit. discriminate.
Qed.

Section Alignment.

Variable sizeof_ptr : Z.

(** The [static_assert] of [AllocateAligned]: a build that compiles
    satisfies it. *)
Hypothesis static_assert_align : Z.land (align sizeof_ptr) (align sizeof_ptr - 1) = 0.

Hypothesis sizeof_ptr_pos : 0 < sizeof_ptr.

Lemma align_ge_8 : 8 <= (align sizeof_ptr).
Proof. unfold align. destruct (8 <? sizeof_ptr) eqn:E; lia. Qed.

Lemma land_align_mod (p : Z) : Z.land p (align sizeof_ptr - 1) = p mod (align sizeof_ptr).
Proof.
  pose proof align_ge_8 as Hge.
  pose proof (land_pred_zero_pow2 (align sizeof_ptr) ltac:(lia) static_assert_align) as Hpow.
  rewrite Hpow at 1 2.
  replace (2 ^ Z.log2 (align sizeof_ptr) - 1) with (Z.ones (Z.log2 (align sizeof_ptr)))
    by (rewrite Z.ones_equiv; lia).
  apply Z.land_ones, Z.log2_nonneg.
Qed.

Lemma align_lt_modulus : (align sizeof_ptr) < size_t_modulus sizeof_ptr.
Proof.
  unfold size_t_modulus, align.
  assert (H1 : 8 * sizeof_ptr < 2 ^ (8 * sizeof_ptr))
    by (apply Z.pow_gt_lin_r; lia).
  assert (H2 : 2 ^ 8 <= 2 ^ (8 * sizeof_ptr))
    by (apply Z.pow_le_mono_r; lia).
  change (2 ^ 8) with 256 in H2.
  destruct (8 <? sizeof_ptr); lia.
Qed.

Lemma slop_bounds (a : Arena) : 0 <= slop_of sizeof_ptr a < (align sizeof_ptr).
Proof.
  pose proof align_ge_8 as Hge.
  pose proof align_lt_modulus as Hlt.
  unfold slop_of, current_mod_of. rewrite land_align_mod.
  pose proof (Z.mod_pos_bound (alloc_ptr_ a) (align sizeof_ptr) ltac:(lia)) as Hb.
  destruct (alloc_ptr_ a mod (align sizeof_ptr) =? 0) eqn:E; [lia|].
  apply Z.eqb_neq in E. unfold wrap. rewrite Z.mod_small; lia.
Qed.

(** The slop skips exactly to the next multiple of [align]. *)
Lemma slop_aligns (a : Arena) :
  (alloc_ptr_ a + slop_of sizeof_ptr a) mod (align sizeof_ptr) = 0.
Proof.
  pose proof align_ge_8 as Hge.
  pose proof align_lt_modulus as Hlt.
  unfold slop_of, current_mod_of. rewrite land_align_mod.
  pose proof (Z.mod_pos_bound (alloc_ptr_ a) (align sizeof_ptr) ltac:(lia)) as Hb.
  destruct (alloc_ptr_ a mod (align sizeof_ptr) =? 0) eqn:E.
  - apply Z.eqb_eq in E. rewrite Z.add_0_r. exact E.
  - apply Z.eqb_neq in E. unfold wrap.
    rewrite (Z.mod_small (align sizeof_ptr - _)) by lia.
    rewrite (Z.div_mod (alloc_ptr_ a) (align sizeof_ptr)) at 1 by lia.
    replace (align sizeof_ptr * (alloc_ptr_ a / (align sizeof_ptr)) + alloc_ptr_ a mod (align sizeof_ptr)
             + (align sizeof_ptr - alloc_ptr_ a mod (align sizeof_ptr)))
      with ((alloc_ptr_ a / (align sizeof_ptr) + 1) * (align sizeof_ptr)) by ring.
    apply Z.mod_mul. lia.
Qed.

Lemma AllocateFallback_result (fresh : Z) (a : Arena) (bytes : Z) :
  fst (AllocateFallback sizeof_ptr fresh a bytes) = fresh.
Proof.
  unfold AllocateFallback, AllocateNewBlock.
  destruct (kBlockSize / 4 <? bytes); reflexivity.
Qed.

(** C10.  [AllocateAligned] returns, for every request size and every arena
    state, an address that is a multiple of [max(sizeof(void* ), 8)], so its
    closing assertion holds: on the fast path the address is the allocation
    pointer advanced by the slop, on the slow path it is the fresh block of
    [AllocateFallback], which the C++ runtime hands out aligned. *)
Theorem AllocateAligned_aligned (fresh : Z) (a : Arena) (bytes : Z) :
  fresh mod (align sizeof_ptr) = 0 ->
  exists result a',
    AllocateAligned sizeof_ptr fresh a bytes = Some (result, a') /\
    result mod (align sizeof_ptr) = 0 /\
    Z.land result (align sizeof_ptr - 1) = 0 /\
    (if needed_of sizeof_ptr a bytes <=? alloc_bytes_remaining_ a
     then result = alloc_ptr_ a + slop_of sizeof_ptr a /\
          alloc_ptr_ a' = alloc_ptr_ a + needed_of sizeof_ptr a bytes
     else result = fresh /\
          (result, a') = AllocateFallback sizeof_ptr fresh a bytes).
Proof.
  intros Hfresh. unfold AllocateAligned.
  destruct (needed_of sizeof_ptr a bytes <=? alloc_bytes_remaining_ a) eqn:Hfit.
  - pose proof (slop_aligns a) as Hal.
    assert (Hland : Z.land (alloc_ptr_ a + slop_of sizeof_ptr a) (align sizeof_ptr - 1) = 0)
      by (rewrite land_align_mod; exact Hal).
    rewrite Hland. simpl.
    eexists; eexists; repeat split; [exact Hal | exact Hland].
  - pose proof (AllocateFallback_result fresh a bytes) as Hres.
    destruct (AllocateFallback sizeof_ptr fresh a bytes) as [result a'] eqn:Hfb.
    simpl in Hres. subst result.
    assert (Hland : Z.land fresh (align sizeof_ptr - 1) = 0)
      by (rewrite land_align_mod; exact Hfresh).
    rewrite Hland. simpl.
    eexists; eexists; repeat split; assumption.
Qed.

End Alignment.

(** A 64-bit build, an allocation pointer three bytes past an aligned
    address, a request of ten bytes. *)
Lemma AllocateAligned_aligned_witness :
  exists result a',
    AllocateAligned 8 8192
      {| alloc_ptr_ := 4099; alloc_bytes_remaining_ := 100;
         blocks_ := [4096]; memory_usage_ := 4104 |} 10 = Some (result, a') /\
    result mod 8 = 0.
Proof.
  destruct (AllocateAligned_aligned 8 eq_refl eq_refl 8192
              {| alloc_ptr_ := 4099; alloc_bytes_remaining_ := 100;
                 blocks_ := [4096]; memory_usage_ := 4104 |} 10 eq_refl)
    as (result & a' & Hrun & Hmod & _).
  exists result, a'. split; [exact Hrun | exact Hmod].
Defined.

(** The first allocation of an arena has nothing to carve from and takes
    the fresh block; the next one is carved from it, after the slop. *)
Example first_allocations :
  forall a1 a2,
    AllocateAligned 8 8192 Arena_new 13 = Some (8192, a1) ->
    AllocateAligned 8 12288 a1 16 = Some (8192 + 16, a2) ->
    alloc_ptr_ a2 = 8192 + 32 /\ alloc_bytes_remaining_ a2 = 4096 - 32.
Proof.
  intros a1 a2 H1 H2. vm_compute in H1. injection H1 as <-.
  vm_compute in H2. injection H2 as <-. split; reflexivity.
Qed.

End ArenaProofs.

(** ** Table builder *)

Module TableBuilderProofs.

Import TableBuilder Invariants.

(** *** The sink *)

Lemma Status_ok_inv (st : Status) : Status_ok st = true -> st = Status_OK.
Proof. destruct st; simpl; intros H; [reflexivity | discriminate ..]. Qed.

Lemma File_call_log (c : FileCall) (f : WritableFile) :
  file_log (fst (File_call c f)) = file_log f ++ [(c, snd (File_call c f))].
Proof. unfold File_call. destruct (file_script f); reflexivity. Qed.

Lemma File_Append_log (f f' : WritableFile) (c : string) (st : Status) :
  File_Append f c = (f', st) -> file_log f' = file_log f ++ [(CallAppend c, st)].
Proof.
  intros H. pose proof (File_call_log (CallAppend c) f) as Hlog.
  unfold File_Append in H. rewrite H in Hlog. exact Hlog.
Qed.

Lemma File_Flush_log (f f' : WritableFile) (st : Status) :
  File_Flush f = (f', st) -> file_log f' = file_log f ++ [(CallFlush, st)].
Proof.
  intros H. pose proof (File_call_log CallFlush f) as Hlog.
  unfold File_Flush in H. rewrite H in Hlog. exact Hlog.
Qed.

Lemma appended_app (l1 l2 : list (FileCall * Status)) :
  appended (l1 ++ l2) = appended l1 ++ appended l2.
Proof.
  induction l1 as [|[c st] l1 IH]; simpl; [reflexivity|].
  destruct c; [destruct st|]; simpl; rewrite IH; reflexivity.
Qed.

Lemma File_Flush_appended (f f' : WritableFile) (st : Status) :
  File_Flush f = (f', st) -> appended (file_log f') = appended (file_log f).
Proof.
  intros H. rewrite (File_Flush_log _ _ _ H), appended_app. simpl.
  apply app_nil_r.
Qed.

Lemma total_size_app (l1 l2 : list string) :
  total_size (l1 ++ l2) = total_size l1 + total_size l2.
Proof. induction l1 as [|p l1 IH]; simpl; [reflexivity | rewrite IH; lia]. Qed.

Lemma flush_requests_app (l1 l2 : list (FileCall * Status)) :
  flush_requests (l1 ++ l2) = (flush_requests l1 + flush_requests l2)%nat.
Proof.
  induction l1 as [|[c st] l1 IH]; simpl; [reflexivity|].
  destruct c; simpl; rewrite IH; reflexivity.
Qed.

Lemma size_nonneg (s : string) : 0 <= size s.
Proof. unfold size. lia. Qed.

Lemma total_size_nonneg (l : list string) : 0 <= total_size l.
Proof.
  induction l as [|p l IH]; simpl; [lia | pose proof (size_nonneg p); lia].
Qed.

(** *** The entries of an accumulator *)

Lemma entries_Add (o : Options) (b : BlockBuilder) (key value : string) :
  entries (BlockBuilder_Add o b key value) = entries b ++ [(key, value)].
Proof. unfold entries. simpl. rewrite map_app. reflexivity. Qed.

Lemma entries_Reset (b : BlockBuilder) : entries (BlockBuilder_Reset b) = [].
Proof. reflexivity. Qed.

Lemma added_empty (b : BlockBuilder) :
  BlockBuilder_empty b = true -> added b = [].
Proof.
  unfold BlockBuilder_empty. destruct (added b); [reflexivity | discriminate].
Qed.

Lemma entries_empty (b : BlockBuilder) :
  BlockBuilder_empty b = true -> entries b = [].
Proof. intros H. unfold entries. rewrite (added_empty b H). reflexivity. Qed.

Section Builder.

Context {E : Env}.

(** *** Writing a block *)

Lemma trailer_of_size (c : string) (t : CompressionType) :
  size (trailer_of c t) = kBlockTrailerSize.
Proof. reflexivity. Qed.

Lemma WriteRawBlock_cases (r : Rep) (c : string) (t : CompressionType) :
  raw_write r c t (fst (WriteRawBlock r c t)) /\
  snd (WriteRawBlock r c t)
  = {| handle_offset := offset r; handle_size := size c |}.
Proof.
  unfold WriteRawBlock.
  destruct (File_Append (file r) c) as [f1 st1] eqn:H1. simpl.
  destruct (Status_ok st1) eqn:Hok1.
  - apply Status_ok_inv in Hok1. subst st1.
    destruct (File_Append f1 (trailer_of c t)) as [f2 st2] eqn:H2. simpl.
    destruct (Status_ok st2) eqn:Hok2; simpl; split; try reflexivity.
    + apply Status_ok_inv in Hok2. subst st2.
      exact (raw_written r c t f1 f2 H1 H2).
    + exact (raw_trailer_refused r c t f1 f2 st2 H1 H2 Hok2).
  - simpl. split; [|reflexivity].
    exact (raw_payload_refused r c t f1 st1 H1 Hok1).
Qed.

Lemma WriteBlock_cases (r : Rep) (block : BlockBuilder) :
  ok r = true ->
  exists r1,
    raw_write r (fst (payload_of r block)) (snd (payload_of r block)) r1 /\
    WriteBlock r block
    = Some (set_compressed_output EmptyString r1,
            BlockBuilder_Reset block,
            {| handle_offset := offset r;
               handle_size := size (fst (payload_of r block)) |}).
Proof.
  intros Hok. unfold WriteBlock, payload_of. rewrite Hok. simpl.
  destruct (select_contents _ _ _) as [[compressed contents] type]. simpl.
  destruct (WriteRawBlock_cases (set_compressed_output compressed r) contents type)
    as [Hraw Hh].
  destruct (WriteRawBlock _ contents type) as [r1 h]. simpl in Hraw, Hh. subst h.
  inversion Hraw as [f st Ha Hst Heq | f1 f2 st Ha1 Ha2 Hst Heq | f1 f2 Ha1 Ha2 Heq];
    simpl in *.
  - exists (set_status st (set_file f r)). split.
    + exact (raw_payload_refused r contents type f st Ha Hst).
    + reflexivity.
  - exists (set_status st (set_file f2 r)). split.
    + exact (raw_trailer_refused r contents type f1 f2 st Ha1 Ha2 Hst).
    + reflexivity.
  - eexists. split.
    + exact (raw_written r contents type f1 f2 Ha1 Ha2).
    + reflexivity.
Qed.

(** *** Field equations for record updates *)

Ltac fields :=
  unfold ok in *;
  cbn [options index_block_options file offset status data_block
  index_block last_key num_entries closed filter_block pending_index_entry
  pending_handle compressed_output
  set_options set_index_block_options set_file set_offset set_status
  set_data_block set_index_block set_last_key set_num_entries set_closed
  set_filter_block set_pending_index_entry set_pending_handle
  set_compressed_output deref
  BlockBuilder_Reset BlockBuilder_Add BlockBuilder_new BlockBuilder_empty
  options_ added] in *;
  rewrite ?entries_Add, ?entries_Reset in *.

Ltac finish :=
  try solve [ auto | discriminate | lia | congruence
            | intuition (auto; try discriminate; try congruence; try lia) ].

(** A raw write touches the sink, the status and the offset, nothing else. *)
Lemma raw_write_frame (r r1 : Rep) (c : string) (t : CompressionType) :
  raw_write r c t r1 ->
  r1 = set_offset (offset r1) (set_status (status r1) (set_file (file r1) r)).
Proof. intros H. inversion H; reflexivity. Qed.

(** *** [Flush] *)

Lemma Flush_idle (r : Rep) :
  closed r = false ->
  ok r = false \/ BlockBuilder_empty (data_block r) = true ->
  Flush r = Some r.
Proof.
  intros Hopen Hidle. unfold Flush. rewrite Hopen. simpl.
  destruct (ok r) eqn:Hok; simpl; [|reflexivity].
  destruct Hidle as [Hno | Hempty]; [discriminate | rewrite Hempty; reflexivity].
Qed.

Lemma Flush_writes (r : Rep) :
  closed r = false ->
  ok r = true ->
  BlockBuilder_empty (data_block r) = false ->
  pending_index_entry r = false ->
  exists r1,
    raw_write r (fst (payload_of r (data_block r)))
      (snd (payload_of r (data_block r))) r1 /\
    Flush r
    = Some (Flush_tail
              (set_pending_handle
                 {| handle_offset := offset r;
                    handle_size := size (fst (payload_of r (data_block r))) |}
                 (set_data_block (BlockBuilder_Reset (data_block r))
                    (set_compressed_output EmptyString r1)))).
Proof.
  intros Hopen Hok Hne Hpend.
  destruct (WriteBlock_cases r (data_block r) Hok) as (r1 & Hraw & Hwb).
  exists r1. split; [exact Hraw|].
  unfold Flush. rewrite Hopen, Hok, Hne, Hpend, Hwb. reflexivity.
Qed.

Lemma Flush_tail_frame (r : Rep) :
  Flush_tail r
  = set_filter_block (filter_block (Flush_tail r))
      (set_status (status (Flush_tail r))
         (set_file (file (Flush_tail r))
            (set_pending_index_entry (pending_index_entry (Flush_tail r)) r))).
Proof.
  unfold Flush_tail. destruct r as [o io f off st db ib lk n cl fb pe ph co].
  fields. destruct (Status_ok st); fields.
  - destruct (File_Flush f) as [f1 st1]. fields. destruct fb; reflexivity.
  - destruct fb; reflexivity.
Qed.

Lemma Flush_tail_filter (r : Rep) :
  filter_block (Flush_tail r)
  = option_map (StartBlock (offset r)) (filter_block r).
Proof.
  unfold Flush_tail. destruct r as [o io f off st db ib lk n cl fb pe ph co].
  fields. destruct (Status_ok st); fields.
  - destruct (File_Flush f) as [f1 st1]. fields. destruct fb; reflexivity.
  - destruct fb; reflexivity.
Qed.

Lemma Flush_tail_ok (r : Rep) :
  ok r = true ->
  pending_index_entry (Flush_tail r) = true /\
  (file (Flush_tail r), status (Flush_tail r)) = File_Flush (file r).
Proof.
  unfold Flush_tail. intros Hok. rewrite Hok. fields.
  destruct (File_Flush (file r)) as [f1 st1]. fields.
  destruct (filter_block r); split; reflexivity.
Qed.

Lemma Flush_tail_not_ok (r : Rep) :
  ok r = false ->
  pending_index_entry (Flush_tail r) = pending_index_entry r /\
  file (Flush_tail r) = file r /\ status (Flush_tail r) = status r.
Proof.
  unfold Flush_tail. intros Hok. rewrite Hok.
  destruct (filter_block r); repeat split.
Qed.

Lemma Flush_open (r r' : Rep) : Flush r = Some r' -> closed r = false.
Proof.
  unfold Flush. destruct (closed r); simpl; [discriminate | reflexivity].
Qed.

(** Either [Flush] returns at once, or it writes the data block. *)
Lemma Flush_cases (r r' : Rep) :
  (BlockBuilder_empty (data_block r) = false -> pending_index_entry r = false) ->
  Flush r = Some r' ->
  r' = r /\ (ok r = false \/ BlockBuilder_empty (data_block r) = true) \/
  ok r = true /\ BlockBuilder_empty (data_block r) = false /\
  exists r1,
    raw_write r (fst (payload_of r (data_block r)))
      (snd (payload_of r (data_block r))) r1 /\
    r' = Flush_tail
           (set_pending_handle
              {| handle_offset := offset r;
                 handle_size := size (fst (payload_of r (data_block r))) |}
              (set_data_block (BlockBuilder_Reset (data_block r))
                 (set_compressed_output EmptyString r1))).
Proof.
  intros Hinv Hrun. pose proof (Flush_open r r' Hrun) as Hopen.
  destruct (ok r) eqn:Hok.
  - destruct (BlockBuilder_empty (data_block r)) eqn:Hempty.
    + left. rewrite Flush_idle in Hrun by auto.
      injection Hrun as <-. auto.
    + right. repeat split.
      destruct (Flush_writes r Hopen Hok Hempty (Hinv eq_refl)) as (r1 & Hraw & Heq).
      exists r1. split; [exact Hraw|]. congruence.
  - left. rewrite Flush_idle in Hrun by auto. injection Hrun as <-. auto.
Qed.

Lemma core_inv_Flush (c0 : Z) (r r' : Rep) :
  core_inv c0 r -> Flush r = Some r' -> core_inv c0 r'.
Proof.
  intros [Hc Hi Hd Hx Hn Hne Hp] Hrun.
  destruct (Flush_cases r r' (fun H => proj2 (Hne H)) Hrun)
    as [[-> _] | (Hok & Hempty & r1 & Hraw & ->)].
  - constructor; assumption.
  - rewrite (raw_write_frame _ _ _ _ Hraw). unfold Flush_tail. fields.
    destruct (Status_ok (status r1)); fields.
    + destruct (File_Flush (file r1)) as [f st]. fields.
      destruct (filter_block r); constructor; fields; finish.
    + destruct (filter_block r); constructor; fields; finish.
Qed.

(** *** [Add] *)

Lemma core_inv_emit (c0 : Z) (r r' : Rep) (key : string) :
  core_inv c0 r -> emit_pending_index_entry r key = Some r' ->
  core_inv c0 r' /\ pending_index_entry r' = false /\
  num_entries r' = num_entries r /\ data_block r' = data_block r.
Proof.
  intros [Hc Hi Hd Hx Hn Hne Hp] Hrun. unfold emit_pending_index_entry in Hrun.
  destruct (pending_index_entry r) eqn:Hpe.
  - destruct (BlockBuilder_empty (data_block r)) eqn:Hempty; simpl in Hrun;
      [|discriminate].
    injection Hrun as <-. fields. repeat split; fields; finish.
  - injection Hrun as <-. repeat split; finish.
Qed.

Lemma BlockBuilder_Add_nonempty (o : Options) (b : BlockBuilder)
    (key value : string) :
  BlockBuilder_empty (BlockBuilder_Add o b key value) = false.
Proof.
  unfold BlockBuilder_empty, BlockBuilder_Add. simpl.
  destruct (added b); reflexivity.
Qed.

Lemma core_inv_append (c0 : Z) (r r' : Rep) (key value : string) :
  core_inv c0 r -> pending_index_entry r = false ->
  append_record r key value = Some r' ->
  core_inv c0 r' /\ pending_index_entry r' = false /\
  num_entries r' = num_entries r + 1 /\
  data_block r' = BlockBuilder_Add (options r) (data_block r) key value.
Proof.
  intros [Hc Hi Hd Hx Hn Hne Hp] Hpe Hrun. unfold append_record in Hrun.
  destruct (filter_block r) as [fb|]; fields;
    (destruct (num_entries r <? INT64_MAX) eqn:Hmax; simpl in Hrun;
     [|discriminate]);
    injection Hrun as <-; fields; rewrite Hd; fields;
    (repeat split; fields; finish).
Qed.

Lemma core_inv_Add (c0 : Z) (r r' : Rep) (key value : string) :
  core_inv c0 r -> Add r key value = Some r' -> core_inv c0 r'.
Proof.
  intros Hinv Hrun. unfold Add in Hrun.
  destruct (assert (negb (closed r))); [|discriminate].
  destruct (negb (ok r)); [injection Hrun as <-; exact Hinv|].
  destruct (assert _); [|discriminate].
  destruct (emit_pending_index_entry r key) as [r1|] eqn:Hemit; [|discriminate].
  destruct (core_inv_emit c0 r r1 key Hinv Hemit) as (Hinv1 & Hpe1 & _).
  destruct (append_record r1 key value) as [r2|] eqn:Happ; [|discriminate].
  destruct (core_inv_append c0 r1 r2 key value Hinv1 Hpe1 Happ) as (Hinv2 & _).
  destruct (_ <=? _); [|injection Hrun as <-; exact Hinv2].
  exact (core_inv_Flush c0 r2 r' Hinv2 Hrun).
Qed.

(** *** [Finish], phase by phase *)

Lemma core_inv_same (c0 : Z) (r r' : Rep) :
  same_core r r' -> core_inv c0 r -> core_inv c0 r'.
Proof.
  intros (Ho & Hio & Hd & Hx & Hn & Hp & _) [Hc Hi Hdr Hxr Hnn Hne Hpe].
  constructor; rewrite ?Ho, ?Hio, ?Hd, ?Hx, ?Hn, ?Hp; assumption.
Qed.

Lemma same_core_refl (r : Rep) : same_core r r.
Proof. repeat split. Qed.

Lemma same_core_trans (r1 r2 r3 : Rep) :
  same_core r1 r2 -> same_core r2 r3 -> same_core r1 r3.
Proof. unfold same_core. intuition congruence. Qed.

Lemma raw_write_same_core (r r1 : Rep) (c : string) (t : CompressionType) :
  raw_write r c t r1 -> same_core r r1.
Proof. intros H. inversion H; repeat split. Qed.

Lemma WriteBlock_same_core (r r' : Rep) (b b' : BlockBuilder) (h : BlockHandle) :
  WriteBlock r b = Some (r', b', h) ->
  same_core r r' /\ b' = BlockBuilder_Reset b.
Proof.
  intros Hrun.
  assert (Hok : ok r = true).
  { unfold WriteBlock in Hrun. destruct (ok r); [reflexivity | discriminate]. }
  destruct (WriteBlock_cases r b Hok) as (r1 & Hraw & Heq).
  rewrite Heq in Hrun. injection Hrun as <- <- _.
  split; [|reflexivity].
  destruct (raw_write_same_core _ _ _ _ Hraw) as (? & ? & ? & ? & ? & ? & ?).
  repeat split; fields; assumption.
Qed.

Lemma write_filter_block_same_core (r : Rep) :
  same_core r (fst (write_filter_block r)).
Proof.
  unfold write_filter_block.
  destruct (filter_block r) as [fb|]; [|apply same_core_refl].
  destruct (ok r); [|apply same_core_refl].
  match goal with |- context [WriteRawBlock ?x ?c ?t] =>
    destruct (WriteRawBlock_cases x c t) as [Hraw _];
    apply raw_write_same_core in Hraw end.
  destruct Hraw as (? & ? & ? & ? & ? & ? & ?).
  repeat split; fields; assumption.
Qed.

Lemma write_metaindex_block_same_core (r r' : Rep) (fh h : BlockHandle) :
  write_metaindex_block r fh = Some (r', h) -> same_core r r'.
Proof.
  unfold write_metaindex_block. intros Hrun.
  destruct (ok r); [|injection Hrun as <- _; apply same_core_refl].
  match type of Hrun with (match ?m with _ => _ end) = _ =>
    destruct m as [meta|]; [|discriminate] end.
  destruct (WriteBlock r meta) as [[[r1 b1] h1]|] eqn:Hwb; [|discriminate].
  injection Hrun as <- _.
  exact (proj1 (WriteBlock_same_core _ _ _ _ _ Hwb)).
Qed.

Lemma core_inv_write_index_block (c0 : Z) (r r' : Rep) (h : BlockHandle) :
  core_inv c0 r -> write_index_block r = Some (r', h) ->
  core_inv c0 r' /\ closed r' = closed r.
Proof.
  intros Hinv Hrun. unfold write_index_block in Hrun.
  destruct (ok r) eqn:Hok; [|injection Hrun as <- _; auto].
  match type of Hrun with (match WriteBlock ?x ?b with _ => _ end) = _ =>
    destruct (WriteBlock x b) as [[[r1 b1] h1]|] eqn:Hwb; [|discriminate];
    destruct (WriteBlock_same_core _ _ _ _ _ Hwb)
      as ((Ho & Hio & Hd & Hx & Hn & Hp & Hcl) & ->) end.
  injection Hrun as <- _.
  destruct Hinv as [Hc Hi Hdr Hxr Hnn Hne Hpe].
  destruct (pending_index_entry r) eqn:Hpend; fields;
    (split; [constructor|]; fields; rewrite ?Ho, ?Hio, ?Hd, ?Hx, ?Hn, ?Hp, ?Hcl;
     fields; finish).
Qed.

Lemma write_footer_same_core (r : Rep) (mh ih : BlockHandle) :
  same_core r (write_footer r mh ih).
Proof.
  unfold write_footer. destruct (ok r); [|apply same_core_refl].
  destruct (File_Append _ _) as [f st]. fields.
  destruct (Status_ok st); repeat split.
Qed.

Lemma core_inv_Finish (c0 : Z) (r r' : Rep) (st : Status) :
  core_inv c0 r -> Finish r = Some (r', st) ->
  core_inv c0 r' /\ closed r' = true /\ st = status r'.
Proof.
  intros Hinv Hrun. unfold Finish in Hrun.
  destruct (Flush r) as [r1|] eqn:Hflush; [|discriminate].
  pose proof (core_inv_Flush c0 r r1 Hinv Hflush) as Hinv1.
  destruct (assert (negb (closed r1))); [|discriminate].
  pose proof (write_filter_block_same_core (set_closed true r1)) as Hfb.
  destruct (write_filter_block (set_closed true r1)) as [r2 fh]. simpl in Hfb.
  destruct (write_metaindex_block r2 fh) as [[r3 mh]|] eqn:Hmeta; [|discriminate].
  pose proof (write_metaindex_block_same_core _ _ _ _ Hmeta) as Hm.
  destruct (write_index_block r3) as [[r4 ih]|] eqn:Hindex; [|discriminate].
  injection Hrun as <- <-.
  pose proof (same_core_trans _ _ _ Hfb Hm) as H13.
  assert (Hinv3 : core_inv c0 r3).
  { apply (core_inv_same c0 (set_closed true r1)); [exact H13|].
    destruct Hinv1. constructor; fields; assumption. }
  destruct (core_inv_write_index_block c0 r3 r4 ih Hinv3 Hindex) as [Hinv4 Hcl4].
  pose proof (write_footer_same_core r4 mh ih) as Hf.
  split; [exact (core_inv_same c0 _ _ Hf Hinv4)|].
  split; [|reflexivity].
  destruct Hf as (_ & _ & _ & _ & _ & _ & ->). rewrite Hcl4.
  destruct H13 as (_ & _ & _ & _ & _ & _ & ->). reflexivity.
Qed.

(** *** Every call *)

Lemma core_inv_new (opt : Options) (f : WritableFile) :
  core_inv (comparator opt) (TableBuilder_new opt f).
Proof.
  unfold TableBuilder_new, Rep_new. fields.
  destruct (filter_policy opt =? nullptr); constructor; fields; finish.
Qed.

Lemma core_inv_ChangeOptions (c0 : Z) (r : Rep) (opts : Options) :
  core_inv c0 r -> core_inv c0 (fst (ChangeOptions r opts)).
Proof.
  intros [Hc Hi Hd Hx Hn Hne Hp]. unfold ChangeOptions.
  destruct (comparator opts =? comparator (options r)) eqn:Hcmp; simpl.
  - apply Z.eqb_eq in Hcmp. constructor; fields; finish.
  - constructor; assumption.
Qed.

Lemma core_inv_step (c0 : Z) (r r' : Rep) (op : Op) :
  core_inv c0 r -> step r op = Some r' -> core_inv c0 r'.
Proof.
  intros Hinv Hrun. destruct op as [key value | | | | opts]; simpl in Hrun.
  - exact (core_inv_Add c0 r r' key value Hinv Hrun).
  - exact (core_inv_Flush c0 r r' Hinv Hrun).
  - destruct (Finish r) as [[r1 st]|] eqn:Hfin; [|discriminate].
    injection Hrun as <-. exact (proj1 (core_inv_Finish c0 r r1 st Hinv Hfin)).
  - unfold Abandon in Hrun. destruct (assert _); [|discriminate].
    injection Hrun as <-. destruct Hinv. constructor; fields; assumption.
  - injection Hrun as <-. exact (core_inv_ChangeOptions c0 r opts Hinv).
Qed.

Lemma core_inv_run (c0 : Z) (ops : list Op) :
  forall r r', core_inv c0 r -> run r ops = Some r' -> core_inv c0 r'.
Proof.
  induction ops as [|op ops IH]; simpl; intros r r' Hinv Hrun.
  - injection Hrun as <-. exact Hinv.
  - destruct (step r op) as [r1|] eqn:Hstep; [|discriminate].
    exact (IH r1 r' (core_inv_step c0 r r1 op Hinv Hstep) Hrun).
Qed.

Lemma core_inv_reachable (opt : Options) (f : WritableFile) (ops : list Op)
    (r : Rep) :
  run (TableBuilder_new opt f) ops = Some r -> core_inv (comparator opt) r.
Proof. apply core_inv_run, core_inv_new. Qed.

(** *** [ChangeOptions] *)

(** C9.  The index-block accumulator's restart interval is 1 in a freshly
    constructed builder, and is 1 again after every [ChangeOptions] that
    returns ok, whatever [block_restart_interval] the new options carry. *)
Theorem index_restart_interval_is_one :
  (forall opt f, index_restart_interval (TableBuilder_new opt f) = 1) /\
  (forall opt f ops r opts r',
     run (TableBuilder_new opt f) ops = Some r ->
     ChangeOptions r opts = (r', Status_OK) ->
     index_restart_interval r' = 1 /\
     index_block_options r' = set_block_restart_interval 1 opts).
Proof.
  split.
  - intros opt f. unfold index_restart_interval, TableBuilder_new, Rep_new.
    fields. destruct (filter_policy opt =? nullptr); reflexivity.
  - intros opt f ops r opts r' Hrun Hch.
    pose proof (core_inv_reachable opt f ops r Hrun) as [_ _ _ Hx _ _ _].
    unfold ChangeOptions in Hch.
    destruct (comparator opts =? comparator (options r)); simpl in Hch;
      [|discriminate].
    injection Hch as <-. unfold index_restart_interval. fields.
    rewrite Hx. split; reflexivity.
Qed.

(** *** Errors latch *)

Lemma Add_not_ok (r : Rep) (key value : string) :
  closed r = false -> ok r = false -> Add r key value = Some r.
Proof. intros Hopen Hok. unfold Add. rewrite Hopen, Hok. reflexivity. Qed.

Lemma write_filter_block_not_ok (r : Rep) :
  ok r = false -> write_filter_block r = (r, BlockHandle_default).
Proof.
  intros Hok. unfold write_filter_block. rewrite Hok.
  destruct (filter_block r); reflexivity.
Qed.

Lemma write_metaindex_block_not_ok (r : Rep) (fh : BlockHandle) :
  ok r = false -> write_metaindex_block r fh = Some (r, BlockHandle_default).
Proof. intros Hok. unfold write_metaindex_block. rewrite Hok. reflexivity. Qed.

Lemma write_index_block_not_ok (r : Rep) :
  ok r = false -> write_index_block r = Some (r, BlockHandle_default).
Proof. intros Hok. unfold write_index_block. rewrite Hok. reflexivity. Qed.

Lemma write_footer_not_ok (r : Rep) (mh ih : BlockHandle) :
  ok r = false -> write_footer r mh ih = r.
Proof. intros Hok. unfold write_footer. rewrite Hok. reflexivity. Qed.

(** Behind the closing [Flush], [Finish] on a state that is not ok only
    marks the builder closed. *)
Lemma Finish_phases_not_ok (r : Rep) :
  ok r = false ->
  (let '(r, filter_block_handle) := write_filter_block r in
   m <- write_metaindex_block r filter_block_handle ;;
   let '(r, metaindex_block_handle) := m in
   i <- write_index_block r ;;
   let '(r, index_block_handle) := i in
   let r := write_footer r metaindex_block_handle index_block_handle in
   Some (r, status r)) = Some (r, status r).
Proof.
  intros Hok.
  rewrite write_filter_block_not_ok by exact Hok.
  rewrite write_metaindex_block_not_ok by exact Hok.
  rewrite write_index_block_not_ok by exact Hok.
  rewrite write_footer_not_ok by exact Hok.
  reflexivity.
Qed.

Lemma Finish_not_ok (r : Rep) :
  closed r = false -> ok r = false ->
  Finish r = Some (set_closed true r, status r).
Proof.
  intros Hopen Hok. unfold Finish. rewrite Flush_idle by auto.
  rewrite Hopen. cbn [negb assert].
  exact (Finish_phases_not_ok (set_closed true r) Hok).
Qed.

(** C7.  When [WriteRawBlock] leaves the builder not ok, the last call the
    sink saw is the refused [Append] and its answer is the builder's status.
    In an open builder whose status is not ok, [Add] and [Flush] return at
    once with the state unchanged (entry count, last key, accumulators,
    offset, status, sink: the whole [Rep]), however often they are called,
    and [Finish] returns that very status, appending nothing. *)
Theorem error_latches (r : Rep) :
  (forall c t,
     let r1 := fst (WriteRawBlock r c t) in
     ok r1 = false ->
     exists earlier data,
       file_log (file r1) = earlier ++ [(CallAppend data, status r1)]) /\
  (closed r = false -> ok r = false ->
   (forall key value, Add r key value = Some r) /\
   Flush r = Some r /\
   (forall ops, forallb is_Add_or_Flush ops = true -> run r ops = Some r) /\
   exists r',
     Finish r = Some (r', status r) /\
     status r' = status r /\ file r' = file r /\ offset r' = offset r).
Proof.
  split.
  - intros c t r1. destruct (WriteRawBlock_cases r c t) as [Hraw _].
    fold r1 in Hraw. clearbody r1. intros Hbad.
    inversion Hraw as [f st Ha Hst Heq | f1 f2 st Ha1 Ha2 Hst Heq | f1 f2 Ha1 Ha2 Heq];
      subst r1; fields.
    + rewrite (File_Append_log _ _ _ _ Ha). eauto.
    + rewrite (File_Append_log _ _ _ _ Ha2). eauto.
    + discriminate.
  - intros Hopen Hok.
    assert (HF : Flush r = Some r) by (apply Flush_idle; auto).
    split; [intros; apply Add_not_ok; assumption|].
    split; [exact HF|]. split.
    + induction ops as [|op ops IH]; simpl; [reflexivity|].
      intros Hall. apply andb_prop in Hall as [Hop Hall].
      destruct op; simpl in Hop; try discriminate; simpl.
      * rewrite Add_not_ok by assumption. exact (IH Hall).
      * rewrite HF. exact (IH Hall).
    + exists (set_closed true r). rewrite Finish_not_ok by assumption.
      repeat split.
Qed.

(** *** Compression policy *)

Lemma raw_write_log (r r1 : Rep) (c : string) (t : CompressionType) :
  raw_write r c t r1 ->
  exists st1 rest,
    file_log (file r1) = file_log (file r) ++ (CallAppend c, st1) :: rest /\
    (Status_ok st1 = false -> rest = []) /\
    (Status_ok st1 = true ->
     exists st2, rest = [(CallAppend (trailer_of c t), st2)]).
Proof.
  intros H.
  inversion H as [f st Ha Hst Heq | f1 f2 st Ha1 Ha2 Hst Heq | f1 f2 Ha1 Ha2 Heq];
    fields.
  - exists st, []. rewrite (File_Append_log _ _ _ _ Ha).
    split; [reflexivity|]. split; [reflexivity | congruence].
  - exists Status_OK, [(CallAppend (trailer_of c t), st)].
    rewrite (File_Append_log _ _ _ _ Ha2), (File_Append_log _ _ _ _ Ha1).
    rewrite <- app_assoc. split; [reflexivity|].
    split; [discriminate | eauto].
  - exists Status_OK, [(CallAppend (trailer_of c t), Status_OK)].
    rewrite (File_Append_log _ _ _ _ Ha2), (File_Append_log _ _ _ _ Ha1).
    rewrite <- app_assoc. split; [reflexivity|].
    split; [discriminate | eauto].
Qed.

Lemma saving_threshold (c n : Z) : 0 <= n -> (c < n - n / 8 <-> 8 * c < 7 * n).
Proof.
  intros Hn. pose proof (Z.div_mod n 8 ltac:(lia)) as Hdm.
  pose proof (Z.mod_pos_bound n 8 ltac:(lia)) as Hb. lia.
Qed.

(** The payload does not depend on what the scratch buffer held. *)
Lemma payload_of_block_payload (r : Rep) (b : BlockBuilder) :
  payload_of r b = block_payload (options r) (added b).
Proof.
  unfold payload_of, block_payload, select_contents.
  destruct (compression (options r)); [reflexivity|].
  destruct (Snappy_Compress _); [destruct (_ <? _)|]; reflexivity.
Qed.

(** The two outcomes of the [switch] in [WriteBlock]. *)
Lemma block_payload_cases (o : Options) (es : list (Options * (string * string))) :
  let raw := block_Finish es in
  (compression o = kSnappyCompression /\
   exists c,
     Snappy_Compress raw = Some c /\ size c < size raw - size raw / 8 /\
     block_payload o es = (c, kSnappyCompression)) \/
  (~ (compression o = kSnappyCompression /\
      exists c, Snappy_Compress raw = Some c /\ size c < size raw - size raw / 8) /\
   block_payload o es = (raw, kNoCompression)).
Proof.
  intros raw. unfold block_payload, select_contents. fold raw.
  destruct (compression o) eqn:Hpolicy.
  - right. split; [intros [H _]; discriminate | reflexivity].
  - destruct (Snappy_Compress raw) as [c|] eqn:Hc.
    + destruct (size c <? size raw - size raw / 8) eqn:Hlt.
      * apply Z.ltb_lt in Hlt. left. split; [reflexivity|]. exists c. auto.
      * apply Z.ltb_ge in Hlt. right. split; [|reflexivity].
        intros [_ (c' & Hc' & Hlt')]. injection Hc' as <-. lia.
    + right. split; [|reflexivity]. intros [_ (c' & Hc' & _)]. discriminate.
Qed.

(** C5.  A block written through [WriteBlock] reaches the sink as its
    payload followed, when the payload is accepted, by a trailer whose first
    byte is the type.  [raw] being what the accumulator's [Finish] returns:
    when the policy is snappy and compression succeeds with a size strictly
    below [raw.len - raw.len / 8] (that is, [8 * size < 7 * raw.len]), the
    payload is the compressed form and the type is 1; in every other case
    (the none policy, a failed compression, a compressed form that is not
    small enough) the payload is [raw] and the type is 0.  So type 1 is
    emitted exactly when compression succeeded below the threshold, and
    never under the none policy. *)
Theorem WriteBlock_compression_policy (r r' : Rep) (block b' : BlockBuilder)
    (h : BlockHandle) :
  WriteBlock r block = Some (r', b', h) ->
  let raw := block_Finish (added block) in
  let saves :=
    compression (options r) = kSnappyCompression /\
    exists c, Snappy_Compress raw = Some c /\ size c < size raw - size raw / 8 in
  exists contents type st1 rest,
    file_log (file r') = file_log (file r) ++ (CallAppend contents, st1) :: rest /\
    (Status_ok st1 = false -> rest = []) /\
    (Status_ok st1 = true ->
     exists st2, rest = [(CallAppend (trailer_of contents type), st2)]) /\
    (exists crc,
       trailer_of contents type
       = String (byte_of (CompressionType_code type)) crc) /\
    (saves /\ type = kSnappyCompression /\ Snappy_Compress raw = Some contents \/
     ~ saves /\ type = kNoCompression /\ contents = raw) /\
    (type = kSnappyCompression <-> saves) /\
    (compression (options r) = kNoCompression ->
     type = kNoCompression /\ contents = raw) /\
    (forall c, size c < size raw - size raw / 8 <-> 8 * size c < 7 * size raw).
Proof.
  intros Hrun raw saves.
  assert (Hok : ok r = true).
  { unfold WriteBlock in Hrun. destruct (ok r); [reflexivity | discriminate]. }
  destruct (WriteBlock_cases r block Hok) as (r1 & Hraw & Heq).
  rewrite Heq in Hrun. injection Hrun as <- _ _.
  destruct (raw_write_log _ _ _ _ Hraw) as (st1 & rest & Hlog & Hnone & Hrest).
  rewrite payload_of_block_payload in Hlog, Hrest.
  exists (fst (block_payload (options r) (added block))),
         (snd (block_payload (options r) (added block))), st1, rest.
  fields. split; [exact Hlog|]. split; [exact Hnone|].
  split; [exact Hrest|]. split; [eexists; reflexivity|].
  assert (Hcases :
    saves /\ snd (block_payload (options r) (added block)) = kSnappyCompression /\
    Snappy_Compress raw = Some (fst (block_payload (options r) (added block))) \/
    ~ saves /\ snd (block_payload (options r) (added block)) = kNoCompression /\
    fst (block_payload (options r) (added block)) = raw).
  { destruct (block_payload_cases (options r) (added block))
      as [(Hpol & c & Hc & Hlt & ->) | (Hno & ->)].
    - left. split; [split; [exact Hpol | exists c; auto]|].
      split; [reflexivity | exact Hc].
    - right. split; [exact Hno|]. split; reflexivity. }
  split; [exact Hcases|]. split; [|split].
  - destruct Hcases as [(Hs & Ht & _) | (Hno & Ht & _)]; rewrite Ht.
    + split; auto.
    + split; [discriminate | intros Hs; contradiction].
  - intros Hpol.
    destruct Hcases as [([Hs _] & _) | (_ & Ht & Hc)]; [congruence | auto].
  - intros c. apply saving_threshold, size_nonneg.
Qed.

(** *** Accounting for the bytes in the file *)

Lemma accounted_same_io (base : list string) (r r' : Rep)
    (blocks : list (string * string)) (footer : option string)
    (orphan : list string) :
  file r' = file r -> offset r' = offset r -> status r' = status r ->
  accounted base r blocks footer orphan ->
  accounted base r' blocks footer orphan.
Proof.
  intros Hf Ho Hs [Hp Ht Hoff Hok].
  constructor; unfold ok in *; rewrite ?Hf, ?Ho, ?Hs; assumption.
Qed.

Lemma pieces_of_app (b1 b2 : list (string * string)) :
  pieces_of (b1 ++ b2) = pieces_of b1 ++ pieces_of b2.
Proof.
  induction b1 as [|[p t] b1 IH]; simpl; [reflexivity | rewrite IH; reflexivity].
Qed.

Lemma blocks_size_app (b1 b2 : list (string * string)) :
  blocks_size (b1 ++ b2) = blocks_size b1 + blocks_size b2.
Proof.
  induction b1 as [|[p t] b1 IH]; simpl; [reflexivity | rewrite IH; lia].
Qed.

Lemma appended_refused (c : FileCall) (st : Status) :
  Status_ok st = false -> appended [(c, st)] = [].
Proof. destruct c, st; simpl; intros H; try reflexivity; discriminate. Qed.

Lemma wrap64_add_l (a b : Z) : wrap64 (wrap64 a + b) = wrap64 (a + b).
Proof. unfold wrap64. apply Zplus_mod_idemp_l. Qed.

(** One raw write on top of an accounted, ok state. *)
Lemma accounted_raw_write (base : list string) (r r1 : Rep) (c : string)
    (t : CompressionType) (blocks : list (string * string)) (orphan : list string) :
  accounted base r blocks None orphan -> ok r = true ->
  raw_write r c t r1 ->
  ok r1 = true /\
  accounted base r1 (blocks ++ [(c, trailer_of c t)]) None [] \/
  ok r1 = false /\ exists orphan', accounted base r1 blocks None orphan'.
Proof.
  intros [Hp Ht Hoff Hempty] Hok Hraw.
  rewrite (Hempty Hok) in Hp. simpl in Hp. rewrite app_nil_r in Hp.
  inversion Hraw as [f st Ha Hst Heq | f1 f2 st Ha1 Ha2 Hst Heq | f1 f2 Ha1 Ha2 Heq].
  - right. fields. split; [exact Hst|]. exists [].
    constructor; fields; [|assumption|assumption|reflexivity].
    rewrite (File_Append_log _ _ _ _ Ha), appended_app, Hp.
    rewrite (appended_refused _ _ Hst). simpl. rewrite !app_nil_r. reflexivity.
  - right. fields. split; [exact Hst|]. exists [c].
    constructor; fields; [|assumption|assumption|congruence].
    rewrite (File_Append_log _ _ _ _ Ha2), (File_Append_log _ _ _ _ Ha1).
    rewrite !appended_app, Hp, (appended_refused _ _ Hst). simpl.
    rewrite !app_nil_r, <- !app_assoc. reflexivity.
  - left. fields. split; [reflexivity|].
    constructor; fields; [| | |reflexivity].
    + rewrite (File_Append_log _ _ _ _ Ha2), (File_Append_log _ _ _ _ Ha1).
      rewrite !appended_app, Hp, pieces_of_app. simpl.
      rewrite !app_nil_r, <- !app_assoc. reflexivity.
    + apply Forall_app. split; [assumption|].
      constructor; [apply trailer_of_size | constructor].
    + rewrite Hoff, blocks_size_app. simpl. rewrite wrap64_add_l.
      f_equal. lia.
Qed.

Lemma blocks_only_raw_write (base : list string) (r r1 : Rep) (c : string)
    (t : CompressionType) :
  blocks_only base r -> ok r = true -> raw_write r c t r1 -> blocks_only base r1.
Proof.
  intros (blocks & orphan & Hacc) Hok Hraw.
  destruct (accounted_raw_write base r r1 c t blocks orphan Hacc Hok Hraw)
    as [[_ H] | [_ [orphan' H]]]; eexists; eexists; exact H.
Qed.

Lemma blocks_only_same_io (base : list string) (r r' : Rep) :
  file r' = file r -> offset r' = offset r -> status r' = status r ->
  blocks_only base r -> blocks_only base r'.
Proof.
  intros Hf Ho Hs (blocks & orphan & Hacc).
  exists blocks, orphan. exact (accounted_same_io _ _ _ _ _ _ Hf Ho Hs Hacc).
Qed.

Lemma blocks_only_WriteBlock (base : list string) (r r' : Rep)
    (b b' : BlockBuilder) (h : BlockHandle) :
  blocks_only base r -> WriteBlock r b = Some (r', b', h) -> blocks_only base r'.
Proof.
  intros Hacc Hrun.
  assert (Hok : ok r = true).
  { unfold WriteBlock in Hrun. destruct (ok r); [reflexivity | discriminate]. }
  destruct (WriteBlock_cases r b Hok) as (r1 & Hraw & Heq).
  rewrite Heq in Hrun. injection Hrun as <- _ _.
  apply (blocks_only_same_io base r1); try reflexivity.
  exact (blocks_only_raw_write base r r1 _ _ Hacc Hok Hraw).
Qed.

Lemma file_inv_Flush (c0 : Z) (base : list string) (r r' : Rep) :
  core_inv c0 r -> file_inv base r -> Flush r = Some r' -> file_inv base r'.
Proof.
  intros Hinv Hfile Hrun.
  pose proof (Flush_open r r' Hrun) as Hopen.
  destruct (Flush_cases r r' (fun H => proj2 (inv_nonempty c0 r Hinv H)) Hrun)
    as [[-> _] | (Hok & Hne & r1 & Hraw & ->)]; [exact Hfile|].
  destruct Hfile as (blocks & footer & orphan & Hacc & Hcount).
  destruct (Hcount Hopen) as [-> Hlen].
  destruct (inv_nonempty c0 r Hinv Hne) as [_ Hpend].
  destruct (raw_write_same_core _ _ _ _ Hraw)
    as (_ & _ & _ & Hx & _ & Hp & Hcl).
  unfold pending_count in *. rewrite Hpend in Hlen.
  destruct (accounted_raw_write base r r1 _ _ blocks orphan Hacc Hok Hraw)
    as [[Hok1 [Hp1 Ht1 Ho1 He1]] | [Hok1 [orphan' [Hp1 Ht1 Ho1 He1]]]];
    unfold Flush_tail; fields; rewrite Hok1; fields.
  - destruct (File_Flush (file r1)) as [f st] eqn:Hflush. fields.
    exists (blocks ++ [(fst (payload_of r (data_block r)),
                        trailer_of (fst (payload_of r (data_block r)))
                          (snd (payload_of r (data_block r))))]), None, [].
    destruct (filter_block r1); fields;
      (split;
       [ constructor; fields; rewrite ?(File_Flush_appended _ _ _ Hflush); auto
       | intros _; split; [reflexivity|]; unfold pending_count; fields;
         rewrite Hx, length_app; simpl; lia ]).
  - exists blocks, None, orphan'.
    destruct (filter_block r1); fields;
      (split;
       [ constructor; fields; rewrite ?Hok1; auto; discriminate
       | intros _; split; [reflexivity|]; unfold pending_count; fields;
         rewrite Hx, Hp, Hpend; exact Hlen ]).
Qed.

Lemma file_inv_emit (base : list string) (r r' : Rep) (key : string) :
  file_inv base r -> emit_pending_index_entry r key = Some r' ->
  file_inv base r'.
Proof.
  intros (blocks & footer & orphan & Hacc & Hcount) Hrun.
  unfold emit_pending_index_entry in Hrun.
  destruct (pending_index_entry r) eqn:Hpe.
  - destruct (assert _); [|discriminate]. injection Hrun as <-.
    exists blocks, footer, orphan. split.
    + apply (accounted_same_io base r); auto.
    + fields. intros Hopen. destruct (Hcount Hopen) as [-> Hlen].
      split; [reflexivity|]. unfold pending_count in *. fields.
      rewrite Hpe in Hlen. rewrite length_app. simpl. lia.
  - injection Hrun as <-. exists blocks, footer, orphan. auto.
Qed.

Lemma file_inv_append (base : list string) (r r' : Rep) (key value : string) :
  file_inv base r -> append_record r key value = Some r' -> file_inv base r'.
Proof.
  intros (blocks & footer & orphan & Hacc & Hcount) Hrun.
  unfold append_record in Hrun.
  destruct (assert _); [|discriminate]. injection Hrun as <-.
  exists blocks, footer, orphan.
  destruct (filter_block r); fields;
    (split; [apply (accounted_same_io base r); auto | exact Hcount]).
Qed.

Lemma file_inv_Add (c0 : Z) (base : list string) (r r' : Rep)
    (key value : string) :
  core_inv c0 r -> file_inv base r -> Add r key value = Some r' ->
  file_inv base r'.
Proof.
  intros Hinv Hfile Hrun. unfold Add in Hrun.
  destruct (assert (negb (closed r))); [|discriminate].
  destruct (negb (ok r)); [injection Hrun as <-; exact Hfile|].
  destruct (assert _); [|discriminate].
  destruct (emit_pending_index_entry r key) as [r1|] eqn:Hemit; [|discriminate].
  destruct (core_inv_emit c0 r r1 key Hinv Hemit) as (Hinv1 & Hpe1 & _).
  pose proof (file_inv_emit base r r1 key Hfile Hemit) as Hfile1.
  destruct (append_record r1 key value) as [r2|] eqn:Happ; [|discriminate].
  destruct (core_inv_append c0 r1 r2 key value Hinv1 Hpe1 Happ) as (Hinv2 & _).
  pose proof (file_inv_append base r1 r2 key value Hfile1 Happ) as Hfile2.
  destruct (_ <=? _); [|injection Hrun as <-; exact Hfile2].
  exact (file_inv_Flush c0 base r2 r' Hinv2 Hfile2 Hrun).
Qed.

Lemma blocks_only_write_filter_block (base : list string) (r : Rep) :
  blocks_only base r -> blocks_only base (fst (write_filter_block r)).
Proof.
  intros Hacc. unfold write_filter_block.
  destruct (filter_block r) as [fb|]; [|exact Hacc].
  destruct (ok r) eqn:Hok; [|exact Hacc].
  match goal with |- context [WriteRawBlock ?x ?c ?t] =>
    destruct (WriteRawBlock_cases x c t) as [Hraw _];
    apply (blocks_only_raw_write base x _ c t); [|exact Hok|exact Hraw] end.
  apply (blocks_only_same_io base r); auto.
Qed.

Lemma blocks_only_write_metaindex_block (base : list string) (r r' : Rep)
    (fh h : BlockHandle) :
  blocks_only base r -> write_metaindex_block r fh = Some (r', h) ->
  blocks_only base r'.
Proof.
  unfold write_metaindex_block. intros Hacc Hrun.
  destruct (ok r); [|injection Hrun as <- _; exact Hacc].
  match type of Hrun with (match ?m with _ => _ end) = _ =>
    destruct m as [meta|]; [|discriminate] end.
  destruct (WriteBlock r meta) as [[[r1 b1] h1]|] eqn:Hwb; [|discriminate].
  injection Hrun as <- _.
  exact (blocks_only_WriteBlock base _ _ _ _ _ Hacc Hwb).
Qed.

Lemma blocks_only_write_index_block (base : list string) (r r' : Rep)
    (h : BlockHandle) :
  blocks_only base r -> write_index_block r = Some (r', h) ->
  blocks_only base r'.
Proof.
  unfold write_index_block. intros Hacc Hrun.
  destruct (ok r); [|injection Hrun as <- _; exact Hacc].
  match type of Hrun with (match WriteBlock ?x ?b with _ => _ end) = _ =>
    destruct (WriteBlock x b) as [[[r1 b1] h1]|] eqn:Hwb; [|discriminate];
    assert (Hx : blocks_only base x)
      by (destruct (pending_index_entry r);
          [apply (blocks_only_same_io base r); auto | exact Hacc]);
    pose proof (blocks_only_WriteBlock base _ _ _ _ _ Hx Hwb) as H1 end.
  injection Hrun as <- _.
  apply (blocks_only_same_io base r1); auto.
Qed.

Lemma accounted_write_footer (base : list string) (r : Rep)
    (mh ih : BlockHandle) :
  blocks_only base r ->
  exists blocks footer orphan,
    accounted base (write_footer r mh ih) blocks footer orphan.
Proof.
  intros (blocks & orphan & Hacc). unfold write_footer.
  destruct (ok r) eqn:Hok; [|exists blocks, None, orphan; exact Hacc].
  destruct Hacc as [Hp Ht Hoff Hempty].
  rewrite (Hempty Hok) in Hp. simpl in Hp. rewrite app_nil_r in Hp.
  destruct (File_Append (file r) _) as [f st] eqn:Ha. fields.
  destruct (Status_ok st) eqn:Hst.
  - apply Status_ok_inv in Hst. subst st.
    exists blocks, (Some (Footer_EncodeTo mh ih)), [].
    constructor; fields; auto.
    + rewrite (File_Append_log _ _ _ _ Ha), appended_app, Hp. simpl.
      rewrite <- app_assoc. reflexivity.
    + rewrite Hoff. simpl. rewrite wrap64_add_l. f_equal. lia.
  - exists blocks, None, [].
    constructor; fields; auto; try congruence.
    rewrite (File_Append_log _ _ _ _ Ha), appended_app, Hp.
    rewrite (appended_refused _ _ Hst). simpl. rewrite !app_nil_r. reflexivity.
Qed.

Lemma file_inv_Finish (c0 : Z) (base : list string) (r r' : Rep) (st : Status) :
  core_inv c0 r -> file_inv base r -> Finish r = Some (r', st) ->
  file_inv base r'.
Proof.
  intros Hinv Hfile Hrun.
  destruct (core_inv_Finish c0 r r' st Hinv Hrun) as (_ & Hclosed & _).
  unfold Finish in Hrun.
  destruct (Flush r) as [r1|] eqn:Hflush; [|discriminate].
  pose proof (file_inv_Flush c0 base r r1 Hinv Hfile Hflush)
    as (blocks & footer & orphan & Hacc & Hcount).
  destruct (closed r1) eqn:Hopen; [discriminate|]. simpl in Hrun.
  destruct (Hcount eq_refl) as [-> _].
  assert (H1 : blocks_only base (set_closed true r1)).
  { exists blocks, orphan. apply (accounted_same_io base r1); auto. }
  pose proof (blocks_only_write_filter_block base _ H1) as H2.
  destruct (write_filter_block (set_closed true r1)) as [r2 fh]. simpl in H2.
  destruct (write_metaindex_block r2 fh) as [[r3 mh]|] eqn:Hmeta; [|discriminate].
  pose proof (blocks_only_write_metaindex_block base _ _ _ _ H2 Hmeta) as H3.
  destruct (write_index_block r3) as [[r4 ih]|] eqn:Hindex; [|discriminate].
  pose proof (blocks_only_write_index_block base _ _ _ H3 Hindex) as H4.
  injection Hrun as <- _.
  destruct (accounted_write_footer base r4 mh ih H4) as (b & fo & o & H5).
  exists b, fo, o. split; [exact H5|]. rewrite Hclosed. discriminate.
Qed.

Lemma file_inv_new (opt : Options) (f : WritableFile) :
  file_inv (appended (file_log f)) (TableBuilder_new opt f).
Proof.
  exists [], None, []. unfold TableBuilder_new, Rep_new. fields.
  destruct (filter_policy opt =? nullptr); fields;
    (split; [constructor; fields; auto; simpl; rewrite app_nil_r; reflexivity
            | intros _; split; reflexivity]).
Qed.

Lemma file_inv_step (c0 : Z) (base : list string) (r r' : Rep) (op : Op) :
  core_inv c0 r -> file_inv base r -> step r op = Some r' -> file_inv base r'.
Proof.
  intros Hinv Hfile Hrun. destruct op as [key value | | | | opts]; simpl in Hrun.
  - exact (file_inv_Add c0 base r r' key value Hinv Hfile Hrun).
  - exact (file_inv_Flush c0 base r r' Hinv Hfile Hrun).
  - destruct (Finish r) as [[r1 st]|] eqn:Hfin; [|discriminate].
    injection Hrun as <-. exact (file_inv_Finish c0 base r r1 st Hinv Hfile Hfin).
  - unfold Abandon in Hrun. destruct (assert _); [|discriminate].
    injection Hrun as <-.
    destruct Hfile as (blocks & footer & orphan & Hacc & _).
    exists blocks, footer, orphan. split; [|discriminate].
    apply (accounted_same_io base r); auto.
  - injection Hrun as <-.
    destruct Hfile as (blocks & footer & orphan & Hacc & Hcount).
    exists blocks, footer, orphan. unfold ChangeOptions.
    destruct (comparator opts =? comparator (options r)); simpl;
      [|split; assumption].
    split; [apply (accounted_same_io base r); auto | exact Hcount].
Qed.

Lemma invariants_run (c0 : Z) (base : list string) (ops : list Op) :
  forall r r',
    core_inv c0 r -> file_inv base r -> run r ops = Some r' ->
    core_inv c0 r' /\ file_inv base r'.
Proof.
  induction ops as [|op ops IH]; simpl; intros r r' Hinv Hfile Hrun.
  - injection Hrun as <-. auto.
  - destruct (step r op) as [r1|] eqn:Hstep; [|discriminate].
    exact (IH r1 r' (core_inv_step c0 r r1 op Hinv Hstep)
             (file_inv_step c0 base r r1 op Hinv Hfile Hstep) Hrun).
Qed.

Lemma file_inv_reachable (opt : Options) (f : WritableFile) (ops : list Op)
    (r : Rep) :
  run (TableBuilder_new opt f) ops = Some r ->
  file_inv (appended (file_log f)) r.
Proof.
  intros Hrun.
  exact (proj2 (invariants_run _ _ ops _ r (core_inv_new opt f)
                  (file_inv_new opt f) Hrun)).
Qed.

Lemma Flush_total (c0 : Z) (r : Rep) :
  core_inv c0 r -> closed r = false -> exists r', Flush r = Some r'.
Proof.
  intros Hinv Hopen.
  destruct (ok r) eqn:Hok; [|exists r; apply Flush_idle; auto].
  destruct (BlockBuilder_empty (data_block r)) eqn:Hempty;
    [exists r; apply Flush_idle; auto|].
  destruct (inv_nonempty c0 r Hinv Hempty) as [_ Hpend].
  destruct (Flush_writes r Hopen Hok Hempty Hpend) as (r1 & _ & Heq).
  eexists. exact Heq.
Qed.

(** C4.  In every state a builder reaches through construction and any
    sequence of [Add], [Flush], [Finish], [Abandon] and [ChangeOptions]
    calls: when the pending-index-entry flag is set the data-block
    accumulator is empty; and at most one index entry is pending: while the
    builder is open, the data blocks in the file are exactly the index
    entries emitted plus the pending one (none or one), and [Flush] never
    finds an entry pending when it stages the next. *)
Theorem pending_index_entry_invariant (opt : Options) (f : WritableFile)
    (ops : list Op) (r : Rep) :
  run (TableBuilder_new opt f) ops = Some r ->
  (pending_index_entry r = true -> BlockBuilder_empty (data_block r) = true) /\
  (pending_count r <= 1)%nat /\
  (closed r = false ->
   exists blocks orphan,
     accounted (appended (file_log f)) r blocks None orphan /\
     List.length blocks
     = (List.length (entries (index_block r)) + pending_count r)%nat) /\
  (closed r = false -> exists r', Flush r = Some r').
Proof.
  intros Hrun.
  pose proof (core_inv_reachable opt f ops r Hrun) as Hinv.
  pose proof (file_inv_reachable opt f ops r Hrun)
    as (blocks & footer & orphan & Hacc & Hcount).
  split; [|split; [|split]].
  - intros Hpend.
    destruct (BlockBuilder_empty (data_block r)) eqn:Hempty; [reflexivity|].
    destruct (inv_nonempty _ r Hinv Hempty) as [_ Hf]. congruence.
  - unfold pending_count. destruct (pending_index_entry r); lia.
  - intros Hopen. destruct (Hcount Hopen) as [-> Hlen].
    exists blocks, orphan. split; assumption.
  - exact (Flush_total _ r Hinv).
Qed.

Lemma total_size_pieces (blocks : list (string * string)) :
  Forall (fun b => size (snd b) = kBlockTrailerSize) blocks ->
  total_size (pieces_of blocks) = blocks_size blocks.
Proof.
  induction 1 as [|[p t] blocks Ht _ IH]; simpl in *; [reflexivity|].
  rewrite IH, Ht. lia.
Qed.

Lemma blocks_size_nonneg (blocks : list (string * string)) :
  0 <= blocks_size blocks.
Proof.
  induction blocks as [|[p t] blocks IH]; simpl; [lia|].
  pose proof (size_nonneg p). unfold kBlockTrailerSize. lia.
Qed.

(** C2, as the code has it.  In every state a builder reaches, the sink
    holds, after what it held at construction, complete blocks (a payload and
    a five-byte trailer each), then the footer once [Finish] has appended it,
    then possibly an orphan piece accepted just before a failure.
    [FileSize()] is the size of the blocks and the footer (modulo [2^64]):
    it equals the number of bytes appended whenever the status is ok, in
    particular after a [Finish] that returns ok, and falls short of it by the
    orphan's size after a failed [Append]. *)
Theorem FileSize_counts_complete_pieces (opt : Options) (f : WritableFile)
    (ops : list Op) (r : Rep) :
  run (TableBuilder_new opt f) ops = Some r ->
  exists blocks footer orphan,
    accounted (appended (file_log f)) r blocks footer orphan /\
    (closed r = false -> footer = None) /\
    FileSize r = wrap64 (blocks_size blocks + total_size (footer_piece footer)) /\
    bytes_appended (file r) - bytes_appended f
    = blocks_size blocks + total_size (footer_piece footer) + total_size orphan /\
    0 <= total_size orphan /\
    (ok r = true ->
     FileSize r = wrap64 (bytes_appended (file r) - bytes_appended f) /\
     (bytes_appended (file r) - bytes_appended f < 2 ^ 64 ->
      FileSize r = bytes_appended (file r) - bytes_appended f)).
Proof.
  intros Hrun.
  pose proof (file_inv_reachable opt f ops r Hrun)
    as (blocks & footer & orphan & Hacc & Hcount).
  exists blocks, footer, orphan.
  pose proof Hacc as [Hp Ht Hoff Hempty].
  assert (Hbytes : bytes_appended (file r) - bytes_appended f
                   = blocks_size blocks + total_size (footer_piece footer)
                     + total_size orphan).
  { unfold bytes_appended. rewrite Hp, !total_size_app, total_size_pieces by exact Ht.
    lia. }
  split; [exact Hacc|].
  split; [intros Hopen; exact (proj1 (Hcount Hopen))|].
  split; [exact Hoff|]. split; [exact Hbytes|].
  split; [apply total_size_nonneg|].
  intros Hok. rewrite (Hempty Hok) in Hbytes. simpl in Hbytes.
  unfold FileSize. rewrite Hoff, Hbytes, Z.add_0_r. split; [reflexivity|].
  intros Hsmall. unfold wrap64. apply Z.mod_small.
  pose proof (blocks_size_nonneg blocks).
  pose proof (total_size_nonneg (footer_piece footer)). lia.
Qed.

(** *** What [Flush] does *)

Lemma raw_write_flush_requests (r r1 : Rep) (c : string) (t : CompressionType) :
  raw_write r c t r1 ->
  flush_requests (file_log (file r1)) = flush_requests (file_log (file r)).
Proof.
  intros H. destruct (raw_write_log _ _ _ _ H) as (st1 & rest & -> & Hno & Hyes).
  rewrite flush_requests_app. simpl.
  destruct (Status_ok st1) eqn:Hst.
  - destruct (Hyes eq_refl) as [st2 ->]. simpl. lia.
  - rewrite (Hno eq_refl). simpl. lia.
Qed.

Lemma raw_write_offset (r r1 : Rep) (c : string) (t : CompressionType) :
  raw_write r c t r1 ->
  offset r1 = if ok r1 then wrap64 (offset r + (size c + kBlockTrailerSize))
              else offset r.
Proof.
  intros H.
  inversion H as [f st Ha Hst Heq | f1 f2 st Ha1 Ha2 Hst Heq | f1 f2 Ha1 Ha2 Heq];
    fields; rewrite ?Hst; reflexivity.
Qed.

(** C3, as the code has it.  [Flush] on an open builder with ok status
    returns at once when the data block is empty.  Otherwise it writes the
    data block (the serialisation of its entries as the accumulator encoded
    them, each under the options in force at its [Add], compressed according
    to the options in force now), resets it, stores the handle as
    [pending_handle], and tells the filter builder [StartBlock] with the
    offset after the write; the pending flag is set and the sink is asked to
    flush only if the block write succeeded: after a failed write the flag
    stays clear and the sink receives no flush request. *)
Theorem Flush_effects (opt : Options) (f : WritableFile) (ops : list Op)
    (r : Rep) :
  run (TableBuilder_new opt f) ops = Some r ->
  closed r = false -> ok r = true ->
  (BlockBuilder_empty (data_block r) = true -> Flush r = Some r) /\
  (BlockBuilder_empty (data_block r) = false ->
   let payload := fst (block_payload (options r) (added (data_block r))) in
   let type := snd (block_payload (options r) (added (data_block r))) in
   exists r1 r',
     raw_write r payload type r1 /\
     Flush r = Some r' /\
     data_block r' = BlockBuilder_Reset (data_block r) /\
     pending_handle r'
     = {| handle_offset := offset r; handle_size := size payload |} /\
     offset r' = offset r1 /\
     filter_block r' = option_map (StartBlock (offset r1)) (filter_block r) /\
     (ok r1 = true ->
      offset r1 = wrap64 (offset r + (size payload + kBlockTrailerSize)) /\
      pending_index_entry r' = true /\
      (file r', status r') = File_Flush (file r1) /\
      flush_requests (file_log (file r'))
      = S (flush_requests (file_log (file r)))) /\
     (ok r1 = false ->
      offset r1 = offset r /\
      pending_index_entry r' = false /\
      file r' = file r1 /\ status r' = status r1 /\
      flush_requests (file_log (file r'))
      = flush_requests (file_log (file r))) /\
     options r' = options r /\
     index_block_options r' = index_block_options r /\
     index_block r' = index_block r /\
     last_key r' = last_key r /\
     num_entries r' = num_entries r /\
     closed r' = false).
Proof.
  intros Hrun Hopen Hok.
  pose proof (core_inv_reachable opt f ops r Hrun) as Hinv.
  split; [intros Hempty; apply Flush_idle; auto|].
  intros Hne payload type.
  destruct (inv_nonempty _ r Hinv Hne) as [_ Hpend].
  destruct (Flush_writes r Hopen Hok Hne Hpend) as (r1 & Hraw & Heq).
  rewrite payload_of_block_payload in Hraw, Heq. fold payload type in Hraw, Heq.
  exists r1. eexists. split; [exact Hraw|]. split; [exact Heq|].
  pose proof (raw_write_offset _ _ _ _ Hraw) as Hoff.
  pose proof (raw_write_flush_requests _ _ _ _ Hraw) as Hfl.
  pose proof (raw_write_frame _ _ _ _ Hraw) as Hframe.
  match goal with |- context [Flush_tail ?x] => set (written := x) end.
  assert (Hio : file written = file r1 /\ status written = status r1 /\
                offset written = offset r1) by (repeat split).
  assert (Hkept : filter_block written = filter_block r /\
                  pending_index_entry written = false /\
                  options written = options r /\
                  index_block_options written = index_block_options r /\
                  index_block written = index_block r /\
                  last_key written = last_key r /\
                  num_entries written = num_entries r /\
                  closed written = false)
    by (unfold written; rewrite Hframe; fields; repeat split; assumption).
  assert (Hnew : data_block written = BlockBuilder_Reset (data_block r) /\
                 pending_handle written
                 = {| handle_offset := offset r; handle_size := size payload |})
    by (split; reflexivity).
  clearbody written. clear Heq Hframe.
  destruct Hio as (Hfile & Hstatus & Hoffset).
  destruct Hkept as (Hfb & Hflag & Hrest).
  destruct Hnew as (Hdata & Hhandle).
  rewrite (Flush_tail_frame written), Flush_tail_filter.
  fold payload in Hoff. fields. rewrite Hoffset, Hfb.
  split; [exact Hdata|]. split; [exact Hhandle|]. split; [reflexivity|].
  split; [reflexivity|]. split; [|split; [|exact Hrest]].
  - intros Hok1. rewrite Hok1 in Hoff.
    destruct (Flush_tail_ok written) as [Hset Hsink];
      [unfold ok; rewrite Hstatus; exact Hok1|].
    split; [exact Hoff|]. split; [exact Hset|].
    rewrite Hfile in Hsink. split; [exact Hsink|].
    destruct (File_Flush (file r1)) as [f1 st1] eqn:Hflush.
    injection Hsink as -> _.
    rewrite (File_Flush_log _ _ _ Hflush), flush_requests_app, Hfl. simpl. lia.
  - intros Hok1. rewrite Hok1 in Hoff.
    destruct (Flush_tail_not_ok written) as (Hsame & Hf & Hs);
      [unfold ok; rewrite Hstatus; exact Hok1|].
    split; [exact Hoff|]. split; [rewrite Hsame; exact Hflag|].
    rewrite Hf, Hs, Hfile, Hstatus. repeat split. exact Hfl.
Qed.

(** *** What [Add] does *)

Lemma set_filter_block_option_map (r : Rep) (g : FilterBlockBuilder -> FilterBlockBuilder) :
  match filter_block r with
  | Some fb => set_filter_block (Some (g fb)) r
  | None => r
  end = set_filter_block (option_map g (filter_block r)) r.
Proof.
  destruct r as [o io f off st db ib lk n cl fb pe ph co]. fields.
  destruct fb; reflexivity.
Qed.

Lemma wrap64_succ (n : Z) :
  0 <= n -> n < INT64_MAX -> wrap64 (n + 1) = wrap64 n + 1.
Proof.
  unfold wrap64, INT64_MAX. intros H0 H1.
  assert (2 ^ 63 < 2 ^ 64) by reflexivity.
  rewrite !Z.mod_small by lia. reflexivity.
Qed.

(** [Add], when its assertions hold: the deferred index entry ([r1]), the
    record ([r2]), the size test. *)
Lemma Add_unfolds (c0 : Z) (r : Rep) (key value : string) :
  core_inv c0 r ->
  closed r = false -> ok r = true ->
  (0 < num_entries r ->
   0 < Compare (comparator_at (comparator (options r))) key (last_key r)) ->
  num_entries r < INT64_MAX ->
  let sep :=
    FindShortestSeparator (comparator_at (comparator (options r)))
      (last_key r) key in
  let r1 :=
    if pending_index_entry r then
      set_pending_index_entry false
        (set_index_block
           (BlockBuilder_Add (index_block_options r) (index_block r) sep
              (BlockHandle_EncodeTo (pending_handle r)))
           (set_last_key sep r))
    else r in
  let r2 :=
    set_data_block (BlockBuilder_Add (options r) (data_block r) key value)
      (set_num_entries (num_entries r + 1)
         (set_last_key key
            (set_filter_block (option_map (AddKey key) (filter_block r)) r1))) in
  Add r key value
  = if block_size (options r)
       <=? block_CurrentSizeEstimate (added (data_block r2))
    then Flush r2 else Some r2.
Proof.
  intros [Hc Hi Hd Hx Hn Hne Hp] Hopen Hok Hord Hmax sep r1 r2.
  unfold Add. rewrite Hopen, Hok. cbn [negb assert].
  assert (Hassert : (if 0 <? num_entries r
                     then 0 <? Compare (comparator_at (comparator (options r)))
                                 key (last_key r)
                     else true) = true).
  { destruct (0 <? num_entries r) eqn:Hpos; [|reflexivity].
    apply Z.ltb_lt. apply Hord. apply Z.ltb_lt. exact Hpos. }
  rewrite Hassert. cbn [assert].
  assert (Hemit : emit_pending_index_entry r key = Some r1).
  { unfold emit_pending_index_entry, r1, sep.
    destruct (pending_index_entry r) eqn:Hpe; [|reflexivity].
    destruct (BlockBuilder_empty (data_block r)) eqn:Hempty.
    - fields. rewrite Hx. reflexivity.
    - destruct (Hne eq_refl) as [_ Hf]. discriminate. }
  rewrite Hemit.
  assert (Happ : append_record r1 key value = Some r2).
  { unfold append_record. rewrite set_filter_block_option_map.
    assert (Hsame : filter_block r1 = filter_block r /\
                    num_entries r1 = num_entries r /\
                    data_block r1 = data_block r /\
                    options r1 = options r)
      by (unfold r1; destruct (pending_index_entry r); repeat split).
    destruct Hsame as (-> & Hn1 & Hd1 & Ho1). fields. rewrite Hn1, Hd1, Hd.
    fields. rewrite Ho1.
    apply Z.ltb_lt in Hmax. rewrite Hmax. reflexivity. }
  rewrite Happ.
  assert (Hopts2 : options r2 = options r)
    by (unfold r2, r1; destruct (pending_index_entry r); reflexivity).
  rewrite Hopts2. reflexivity.
Qed.

(** C1.  [Add key value] on an open builder with ok status, [key] above the
    last key added, goes through these steps in this order.  If an index
    entry is pending, the comparator computes a separator [sep] with
    [last_key <= sep < key], [(sep, encoded pending handle)] goes to the index
    block, under the index block's options, and the flag is cleared ([r1]).
    Then the filter builder, if any, receives [key], [last_key] becomes
    [key], the entry count grows by one and [(key, value)] goes to the data
    block, under the builder's options ([r2]).  Last, [Flush] runs on that
    state exactly when the size estimate of the data block, as its entries
    were encoded when they were added, has reached the configured block
    size.  [NumEntries()] has grown by exactly one. *)
Theorem Add_steps (opt : Options) (f : WritableFile) (ops : list Op)
    (r : Rep) (key value : string) :
  run (TableBuilder_new opt f) ops = Some r ->
  closed r = false -> ok r = true ->
  let c := comparator_at (comparator (options r)) in
  (0 < num_entries r -> 0 < Compare c key (last_key r)) ->
  num_entries r < INT64_MAX ->
  separator_contract c ->
  let sep := FindShortestSeparator c (last_key r) key in
  let r1 :=
    if pending_index_entry r then
      set_pending_index_entry false
        (set_index_block
           (BlockBuilder_Add (index_block_options r) (index_block r) sep
              (BlockHandle_EncodeTo (pending_handle r)))
           (set_last_key sep r))
    else r in
  let r2 :=
    set_data_block (BlockBuilder_Add (options r) (data_block r) key value)
      (set_num_entries (num_entries r + 1)
         (set_last_key key
            (set_filter_block (option_map (AddKey key) (filter_block r)) r1))) in
  let estimate := block_CurrentSizeEstimate (added (data_block r2)) in
  (pending_index_entry r = true ->
   Compare c (last_key r) sep <= 0 /\ Compare c sep key < 0) /\
  added (data_block r2) = added (data_block r) ++ [(options r, (key, value))] /\
  Add r key value
  = (if block_size (options r) <=? estimate then Flush r2 else Some r2) /\
  exists r',
    Add r key value = Some r' /\
    NumEntries r' = NumEntries r + 1 /\
    (BlockBuilder_empty (data_block r') = true
     <-> block_size (options r) <= estimate).
Proof.
  intros Hrun Hopen Hok c Hord Hmax Hsep sep r1 r2 estimate.
  pose proof (core_inv_reachable opt f ops r Hrun) as Hcore.
  pose proof (Add_unfolds _ r key value Hcore Hopen Hok Hord Hmax) as Hadd.
  destruct Hcore as [Hc Hi Hd Hx Hn Hne Hp].
  cbv zeta in Hadd. fold c sep r1 r2 estimate in Hadd.
  split.
  { intros Hpe. apply Hsep. apply Hord. exact (Hp Hpe). }
  split; [reflexivity|].
  split; [exact Hadd|].
  rewrite Hadd.
  assert (Hfacts : closed r2 = false /\ ok r2 = true /\
                   BlockBuilder_empty (data_block r2) = false /\
                   pending_index_entry r2 = false /\
                   num_entries r2 = num_entries r + 1).
  { unfold r2, r1. destruct (pending_index_entry r) eqn:Hpe; fields;
      rewrite BlockBuilder_Add_nonempty; repeat split; assumption. }
  destruct Hfacts as (Hopen2 & Hok2 & Hne2 & Hpe2 & Hnum2).
  assert (Hnum : wrap64 (num_entries r2) = NumEntries r + 1)
    by (rewrite Hnum2; apply wrap64_succ; assumption).
  destruct (block_size (options r) <=? estimate) eqn:Hfull.
  - destruct (Flush_writes r2 Hopen2 Hok2 Hne2 Hpe2) as (rw & Hraw & Heq).
    eexists. split; [exact Heq|].
    rewrite Flush_tail_frame. fields.
    rewrite (raw_write_frame _ _ _ _ Hraw). fields.
    split; [exact Hnum|]. split; [intros _; apply Z.leb_le; exact Hfull|].
    reflexivity.
  - exists r2. split; [reflexivity|]. split; [exact Hnum|].
    rewrite Hne2. apply Z.leb_gt in Hfull. split; [discriminate | lia].
Qed.

(** *** [ChangeOptions] and the calls that follow it *)


(** *** [Finish] on a fresh builder *)

Lemma raw_write_ok (r r1 : Rep) (c : string) (t : CompressionType) :
  raw_write r c t r1 -> ok r1 = true ->
  file_log (file r1) = file_log (file r) ++ accepted [c; trailer_of c t] /\
  offset r1 = wrap64 (offset r + (size c + kBlockTrailerSize)) /\
  status r1 = Status_OK.
Proof.
  intros H Hok.
  inversion H as [f st Ha Hst Heq | f1 f2 st Ha1 Ha2 Hst Heq | f1 f2 Ha1 Ha2 Heq];
    subst r1; fields; try congruence.
  rewrite (File_Append_log _ _ _ _ Ha2), (File_Append_log _ _ _ _ Ha1).
  rewrite <- app_assoc. repeat split.
Qed.

Lemma WriteBlock_ok (r r' : Rep) (b b' : BlockBuilder) (h : BlockHandle) :
  WriteBlock r b = Some (r', b', h) -> ok r' = true ->
  let c := fst (payload_of r b) in
  let t := snd (payload_of r b) in
  file_log (file r') = file_log (file r) ++ accepted [c; trailer_of c t] /\
  offset r' = wrap64 (offset r + (size c + kBlockTrailerSize)) /\
  status r' = Status_OK /\
  h = {| handle_offset := offset r; handle_size := size c |} /\
  r' = set_compressed_output EmptyString
         (set_offset (offset r') (set_status (status r') (set_file (file r') r))).
Proof.
  intros Hrun Hok' c t.
  assert (Hok : ok r = true).
  { unfold WriteBlock in Hrun. destruct (ok r); [reflexivity | discriminate]. }
  destruct (WriteBlock_cases r b Hok) as (r1 & Hraw & Heq).
  rewrite Heq in Hrun. injection Hrun as <- _ <-.
  destruct (raw_write_ok _ _ _ _ Hraw Hok') as (Hlog & Hoff & Hst).
  fields. repeat split; try assumption.
  rewrite (raw_write_frame _ _ _ _ Hraw) at 1. reflexivity.
Qed.

Lemma write_footer_ok (r : Rep) (mh ih : BlockHandle) :
  ok (write_footer r mh ih) = true ->
  ok r = true /\
  file_log (file (write_footer r mh ih))
  = file_log (file r) ++ accepted [Footer_EncodeTo mh ih] /\
  offset (write_footer r mh ih)
  = wrap64 (offset r + size (Footer_EncodeTo mh ih)).
Proof.
  unfold write_footer. destruct (ok r) eqn:Hok; [|congruence].
  destruct (File_Append (file r) _) as [f st] eqn:Ha. fields.
  destruct (Status_ok st) eqn:Hst; fields; [|congruence].
  intros _. apply Status_ok_inv in Hst. subst st.
  rewrite (File_Append_log _ _ _ _ Ha). repeat split.
Qed.

Lemma write_index_block_latch (r r' : Rep) (h : BlockHandle) :
  write_index_block r = Some (r', h) -> ok r' = true -> ok r = true.
Proof.
  intros Hrun Hok'. destruct (ok r) eqn:Hok; [reflexivity|].
  rewrite write_index_block_not_ok in Hrun by exact Hok.
  injection Hrun as <- _. congruence.
Qed.

Lemma write_metaindex_block_latch (r r' : Rep) (fh h : BlockHandle) :
  write_metaindex_block r fh = Some (r', h) -> ok r' = true -> ok r = true.
Proof.
  intros Hrun Hok'. destruct (ok r) eqn:Hok; [reflexivity|].
  rewrite write_metaindex_block_not_ok in Hrun by exact Hok.
  injection Hrun as <- _. congruence.
Qed.

Lemma write_filter_block_ok (r r' : Rep) (fh : BlockHandle) :
  write_filter_block r = (r', fh) -> ok r' = true ->
  match filter_block r with
  | Some fb =>
      let c := filter_Finish (policy_ fb) (filter_calls fb) in
      file_log (file r') = file_log (file r) ++ accepted [c; trailer_of c kNoCompression] /\
      offset r' = wrap64 (offset r + (size c + kBlockTrailerSize)) /\
      fh = {| handle_offset := offset r; handle_size := size c |} /\
      r' = set_offset (offset r') (set_status (status r') (set_file (file r')
             (set_filter_block (Some (filter_call CallFinish fb)) r)))
  | None => r' = r
  end.
Proof.
  unfold write_filter_block. intros Hrun Hok'.
  destruct (filter_block r) as [fb|]; [|injection Hrun as <- _; reflexivity].
  destruct (ok r) eqn:Hok; [|injection Hrun as <- _; congruence].
  match type of Hrun with WriteRawBlock ?x ?c ?t = _ =>
    destruct (WriteRawBlock_cases x c t) as [Hraw Hh] end.
  rewrite Hrun in Hraw, Hh. simpl in Hraw, Hh.
  destruct (raw_write_ok _ _ _ _ Hraw Hok') as (Hlog & Hoff & _).
  fields. repeat split; try assumption.
  exact (raw_write_frame _ _ _ _ Hraw).
Qed.

Lemma appended_accepted (pieces : list string) :
  appended (accepted pieces) = pieces.
Proof.
  induction pieces as [|p pieces IH]; simpl; [reflexivity | rewrite IH; reflexivity].
Qed.

Lemma offset_when_ok (opt : Options) (f : WritableFile) (ops : list Op)
    (r : Rep) :
  run (TableBuilder_new opt f) ops = Some r -> ok r = true ->
  offset r = wrap64 (bytes_appended (file r) - bytes_appended f).
Proof.
  intros Hrun Hok.
  destruct (file_inv_reachable opt f ops r Hrun)
    as (blocks & footer & orphan & [Hp Ht Hoff Hempty] & _).
  rewrite Hoff. f_equal. unfold bytes_appended.
  rewrite Hp, (Hempty Hok), !total_size_app, total_size_pieces by exact Ht.
  simpl. lia.
Qed.

Lemma Finish_fresh_log (opt : Options) (f : WritableFile) (r' : Rep) :
  Finish (TableBuilder_new opt f) = Some (r', Status_OK) ->
  Flush (TableBuilder_new opt f) = Some (TableBuilder_new opt f) /\
  file_log (file r') = file_log f ++ accepted (empty_table opt).
Proof.
  intros Hrun.
  assert (Hflush : Flush (TableBuilder_new opt f) = Some (TableBuilder_new opt f)).
  { apply Flush_idle; unfold TableBuilder_new, Rep_new;
      destruct (filter_policy opt =? nullptr); fields; auto. }
  split; [exact Hflush|].
  unfold Finish in Hrun. rewrite Hflush in Hrun.
  assert (Hopen : closed (TableBuilder_new opt f) = false).
  { unfold TableBuilder_new, Rep_new. destruct (filter_policy opt =? nullptr); reflexivity. }
  rewrite Hopen in Hrun. cbn [negb assert] in Hrun.
  destruct (write_filter_block _) as [r2 fh] eqn:Hfilter.
  destruct (write_metaindex_block r2 fh) as [[r3 mh]|] eqn:Hmeta; [|discriminate].
  destruct (write_index_block r3) as [[r4 ih]|] eqn:Hindex; [|discriminate].
  injection Hrun as <- Hst.
  assert (Hok5 : ok (write_footer r4 mh ih) = true) by (unfold ok; rewrite Hst; reflexivity).
  destruct (write_footer_ok r4 mh ih Hok5) as (Hok4 & Hlog5 & Hoff5).
  pose proof (write_index_block_latch _ _ _ Hindex Hok4) as Hok3.
  pose proof (write_metaindex_block_latch _ _ _ _ Hmeta Hok3) as Hok2.
  rewrite Hlog5. clear Hlog5 Hoff5 Hok5 Hst Hflush Hopen.
  pose proof (write_filter_block_ok _ _ _ Hfilter Hok2) as Hf. clear Hfilter.
  unfold write_index_block in Hindex. rewrite Hok3 in Hindex.
  unfold write_metaindex_block in Hmeta. rewrite Hok2 in Hmeta.
  unfold empty_table, TableBuilder_new, Rep_new in *.
  destruct (filter_policy opt =? nullptr) eqn:Hnull; fields.
  - subst r2. fields.
    destruct (WriteBlock _ (BlockBuilder_new RefOptions)) as [[[r3' b3] h3]|] eqn:Hwb3; [|discriminate].
    injection Hmeta as <- <-.
    destruct (WriteBlock_ok _ _ _ _ _ Hwb3 Hok3) as (Hlog3 & Hoff3 & _ & Hh3 & Hframe3).
    unfold payload_of in *. fields.
    rewrite Hframe3 in Hindex. fields.
    match type of Hindex with (match WriteBlock ?x ?b with _ => _ end) = _ =>
      destruct (WriteBlock x b) as [[[r4' b4] h4]|] eqn:Hwb4; [|discriminate] end.
    injection Hindex as <- <-. fields.
    destruct (WriteBlock_ok _ _ _ _ _ Hwb4 Hok4) as (Hlog4 & Hoff4 & _ & Hh4 & _).
    unfold payload_of in *. fields.
    rewrite Hlog4, Hlog3, Hh4, Hh3, Hoff3.
    destruct (select_contents (compression opt) (block_Finish []) EmptyString)
      as [[s1 meta] meta_type].
    cbn [fst snd app]. rewrite <- !app_assoc. reflexivity.
  - destruct Hf as (Hlog2 & Hoff2 & Hfh & Hframe2). fields.
    rewrite Hframe2 in Hmeta. fields. rewrite Hnull in Hmeta. cbn [negb assert] in Hmeta.
    match type of Hmeta with (match WriteBlock ?x ?b with _ => _ end) = _ =>
      destruct (WriteBlock x b) as [[[r3' b3] h3]|] eqn:Hwb3; [|discriminate] end.
    injection Hmeta as <- <-.
    destruct (WriteBlock_ok _ _ _ _ _ Hwb3 Hok3) as (Hlog3 & Hoff3 & _ & Hh3 & Hframe3).
    unfold payload_of in *. fields.
    rewrite Hframe3 in Hindex. fields.
    match type of Hindex with (match WriteBlock ?x ?b with _ => _ end) = _ =>
      destruct (WriteBlock x b) as [[[r4' b4] h4]|] eqn:Hwb4; [|discriminate] end.
    injection Hindex as <- <-. fields.
    destruct (WriteBlock_ok _ _ _ _ _ Hwb4 Hok4) as (Hlog4 & Hoff4 & _ & Hh4 & _).
    unfold payload_of in *. fields.
    clear Hwb3 Hwb4 Hframe2 Hframe3.
    cbn [policy_ filter_calls StartBlock filter_call FilterBlockBuilder_new app] in *.
    subst fh h3 h4. rewrite Hlog4, Hlog3, Hlog2, Hoff3, Hoff2.
    match goal with |- context [select_contents ?a ?b ?c] =>
      destruct (select_contents a b c) as [[s1 meta] meta_type] end.
    destruct (select_contents (compression opt) (block_Finish []) EmptyString)
      as [[s2 index] index_type].
    cbn [fst snd app]. rewrite <- !app_assoc. reflexivity.
Qed.

(** C6, as the code has it.  [Finish] on a freshly constructed builder,
    returning ok: the closing [Flush] finds the data block empty and writes
    nothing; the sink receives exactly the pieces of [empty_table]: a filter
    block (of a filter that saw no key) exactly when a filter policy is
    configured, then the metaindex block, the index block without entries and
    the footer; and [FileSize()] is their total size. *)
Theorem Finish_on_fresh_builder (opt : Options) (f : WritableFile) (r' : Rep) :
  Finish (TableBuilder_new opt f) = Some (r', Status_OK) ->
  Flush (TableBuilder_new opt f) = Some (TableBuilder_new opt f) /\
  file_log (file r') = file_log f ++ accepted (empty_table opt) /\
  FileSize r' = wrap64 (total_size (empty_table opt)) /\
  (filter_policy opt = nullptr -> List.length (empty_table opt) = 5%nat) /\
  (filter_policy opt <> nullptr ->
   let filter_contents := filter_Finish (filter_policy opt) [CallStartBlock 0] in
   exists rest,
     List.length rest = 5%nat /\
     empty_table opt
     = filter_contents :: trailer_of filter_contents kNoCompression :: rest).
Proof.
  intros Hrun. destruct (Finish_fresh_log opt f r' Hrun) as [Hflush Hlog].
  split; [exact Hflush|]. split; [exact Hlog|]. split; [|split].
  - assert (Hreach : run (TableBuilder_new opt f) [OpFinish] = Some r')
      by (simpl; rewrite Hrun; reflexivity).
    assert (Hok : ok r' = true).
    { pose proof (core_inv_Finish _ _ _ _ (core_inv_new opt f) Hrun)
        as (_ & _ & Hst). unfold ok. rewrite <- Hst. reflexivity. }
    unfold FileSize. rewrite (offset_when_ok opt f _ r' Hreach Hok).
    f_equal. unfold bytes_appended.
    rewrite Hlog, appended_app, total_size_app, appended_accepted. lia.
  - intros Hnull. unfold empty_table.
    apply Z.eqb_eq in Hnull. rewrite Hnull.
    repeat match goal with |- context [select_contents ?a ?b ?c] =>
             destruct (select_contents a b c) as [[? ?] ?] end. reflexivity.
  - intros Hnull filter_contents. unfold empty_table.
    apply Z.eqb_neq in Hnull. rewrite Hnull.
    repeat match goal with |- context [select_contents ?a ?b ?c] =>
             destruct (select_contents a b c) as [[? ?] ?] end.
    eexists. split; [|reflexivity]. reflexivity.
Qed.

End Builder.

End TableBuilderProofs.

(** ** The reference environment *)

Module ReferenceProofs.

Import TableBuilder Invariants Reference.

Lemma bytewise_Compare_refl (a : string) : bytewise_Compare a a = 0.
Proof.
  induction a as [|x a IH]; simpl; [reflexivity|].
  rewrite N.ltb_irrefl. exact IH.
Qed.

Lemma next_byte_value (x : ascii) :
  (N_of_ascii x < 255)%N -> N_of_ascii (next_byte x) = (N_of_ascii x + 1)%N.
Proof. intros H. unfold next_byte. apply N_ascii_embedding. lia. Qed.

(** The bytewise comparator keeps the separator between its arguments. *)
Lemma bytewise_separator_contract : separator_contract BytewiseComparator.
Proof.
  unfold separator_contract. cbn [Compare FindShortestSeparator BytewiseComparator].
  induction start as [|x start IH]; intros [|y limit]; simpl; try lia.
  destruct (N_of_ascii x =? N_of_ascii y)%N eqn:Heq.
  - apply N.eqb_eq in Heq. rewrite Heq, N.ltb_irrefl. simpl.
    rewrite ?Heq, ?N.ltb_irrefl. apply IH.
  - apply N.eqb_neq in Heq.
    destruct (N_of_ascii y <? N_of_ascii x)%N eqn:Hyx; [lia|].
    apply N.ltb_ge in Hyx.
    assert (Hxy : (N_of_ascii x <? N_of_ascii y)%N = true)
      by (apply N.ltb_lt; lia).
    intros _.
    destruct ((N_of_ascii x <? 255)%N && (N_of_ascii x + 1 <? N_of_ascii y)%N)%bool
      eqn:Hcond.
    + apply andb_prop in Hcond as [H255 Hgap].
      apply N.ltb_lt in H255. simpl. rewrite (next_byte_value x H255).
      rewrite Hgap.
      assert (Hlt : (N_of_ascii x <? N_of_ascii x + 1)%N = true)
        by (apply N.ltb_lt; lia).
      rewrite Hlt. lia.
    + simpl. rewrite !N.ltb_irrefl, bytewise_Compare_refl, Hxy. lia.
Qed.

(** The bytewise comparator's successor is not below the key. *)
Lemma bytewise_successor_contract : successor_contract BytewiseComparator.
Proof.
  unfold successor_contract. cbn [Compare FindShortSuccessor BytewiseComparator].
  induction key as [|x key IH]; simpl; [lia|].
  destruct (N_of_ascii x =? 255)%N eqn:Hmax.
  - simpl. rewrite N.ltb_irrefl. exact IH.
  - apply N.eqb_neq in Hmax.
    assert (Hlt : (N_of_ascii x < 255)%N).
    { pose proof (N_ascii_bounded x). lia. }
    simpl. rewrite (next_byte_value x Hlt).
    assert (Hb : (N_of_ascii x <? N_of_ascii x + 1)%N = true)
      by (apply N.ltb_lt; lia).
    rewrite Hb. lia.
Qed.

End ReferenceProofs.

(** ** Concrete runs *)

Module Runs.

Import TableBuilder Invariants Reference TableBuilderProofs ReferenceProofs.

Local Open Scope string_scope.

#[local] Existing Instance no_snappy.

(** Second block of a table: the index entry of the first block is emitted
    with the separator ["the r"]. *)
Lemma Add_steps_witness :
  exists r r',
    run (TableBuilder_new plain_options (scripted []))
      [OpAdd "the quick brown fox" "1"; OpFlush] = Some r /\
    Add r "the who" "2" = Some r' /\
    NumEntries r' = NumEntries r + 1.
Proof.
  destruct (run (TableBuilder_new plain_options (scripted []))
              [OpAdd "the quick brown fox" "1"; OpFlush]) as [r|] eqn:Hrun;
    [|vm_compute in Hrun; discriminate].
  pose proof Hrun as Hval. vm_compute in Hval. injection Hval as Hval.
  assert (Hopen : closed r = false) by (rewrite <- Hval; reflexivity).
  assert (Hok : ok r = true) by (rewrite <- Hval; reflexivity).
  assert (Hord : 0 < num_entries r ->
                 0 < Compare (comparator_at (comparator (options r)))
                       "the who" (last_key r))
    by (rewrite <- Hval; intros _; reflexivity).
  assert (Hmax : num_entries r < INT64_MAX) by (rewrite <- Hval; reflexivity).
  destruct (Add_steps plain_options (scripted []) _ r
              "the who" "2" Hrun Hopen Hok Hord Hmax
              bytewise_separator_contract)
    as (_ & _ & _ & r' & Hadd & Hnum & _).
  exists r, r'. repeat split; assumption.
Defined.

(** A sink that accepts a payload and refuses its trailer: thirteen bytes
    are in the file, the offset is still zero. *)
Lemma FileSize_misses_accepted_payload :
  exists r,
    run (TableBuilder_new plain_options
           (scripted [Status_OK; Status_IOError "disk full"]))
      [OpAdd "a" "1"; OpFinish] = Some r /\
    bytes_appended (file r) = 13 /\
    FileSize r = 0 /\
    FileSize r <> bytes_appended (file r).
Proof.
  eexists. split; [vm_compute; reflexivity|].
  repeat split. discriminate.
Qed.

Lemma FileSize_counts_complete_pieces_witness :
  exists r,
    run (TableBuilder_new plain_options (scripted []))
      [OpAdd "a" "1"; OpFinish] = Some r /\
    FileSize r = bytes_appended (file r).
Proof.
  destruct (run (TableBuilder_new plain_options (scripted []))
              [OpAdd "a" "1"; OpFinish]) as [r|] eqn:Hrun;
    [|vm_compute in Hrun; discriminate].
  pose proof Hrun as Hval. vm_compute in Hval. injection Hval as Hval.
  destruct (FileSize_counts_complete_pieces plain_options (scripted []) _ r Hrun)
    as (blocks & footer & orphan & _ & _ & _ & _ & _ & Hok).
  exists r. split; [reflexivity|].
  assert (Hokr : ok r = true) by (rewrite <- Hval; reflexivity).
  destruct (Hok Hokr) as [_ Hsmall].
  rewrite Hsmall; [apply Z.sub_0_r|].
  rewrite <- Hval. reflexivity.
Defined.

(** A sink that refuses the payload: the flag stays clear and the sink is
    not asked to flush. *)
Lemma Flush_failed_write_sets_no_flag :
  exists r r',
    run (TableBuilder_new plain_options (scripted [Status_IOError "disk full"]))
      [OpAdd "a" "1"] = Some r /\
    closed r = false /\ ok r = true /\
    BlockBuilder_empty (data_block r) = false /\
    Flush r = Some r' /\
    pending_index_entry r' = false /\
    flush_requests (file_log (file r')) = 0%nat.
Proof.
  eexists. eexists. split; [vm_compute; reflexivity|].
  split; [reflexivity|]. split; [reflexivity|]. split; [reflexivity|].
  split; [vm_compute; reflexivity|]. split; reflexivity.
Qed.

Lemma Flush_effects_witness :
  exists r r',
    run (TableBuilder_new plain_options (scripted [])) [OpAdd "a" "1"] = Some r /\
    Flush r = Some r' /\
    data_block r' = BlockBuilder_Reset (data_block r) /\
    offset r' = 18.
Proof.
  destruct (run (TableBuilder_new plain_options (scripted [])) [OpAdd "a" "1"])
    as [r|] eqn:Hrun; [|vm_compute in Hrun; discriminate].
  pose proof Hrun as Hval. vm_compute in Hval. injection Hval as Hval.
  assert (Hopen : closed r = false) by (rewrite <- Hval; reflexivity).
  assert (Hok : ok r = true) by (rewrite <- Hval; reflexivity).
  assert (Hne : BlockBuilder_empty (data_block r) = false)
    by (rewrite <- Hval; reflexivity).
  destruct (Flush_effects plain_options (scripted []) _ r Hrun Hopen Hok)
    as [_ Hwrite].
  destruct (Hwrite Hne) as (r1 & r' & _ & Hflush & Hdata & _).
  exists r, r'. split; [reflexivity|]. split; [exact Hflush|].
  split; [exact Hdata|].
  rewrite <- Hval in Hflush. vm_compute in Hflush. injection Hflush as <-.
  reflexivity.
Defined.

Lemma pending_index_entry_invariant_witness :
  exists r,
    run (TableBuilder_new plain_options (scripted []))
      [OpAdd "the quick brown fox" "1"; OpFlush] = Some r /\
    pending_index_entry r = true /\
    BlockBuilder_empty (data_block r) = true.
Proof.
  destruct (run (TableBuilder_new plain_options (scripted []))
              [OpAdd "the quick brown fox" "1"; OpFlush]) as [r|] eqn:Hrun;
    [|vm_compute in Hrun; discriminate].
  pose proof Hrun as Hval. vm_compute in Hval. injection Hval as Hval.
  destruct (pending_index_entry_invariant plain_options (scripted []) _ r Hrun)
    as (Hempty & _).
  assert (Hpend : pending_index_entry r = true) by (rewrite <- Hval; reflexivity).
  exists r. split; [reflexivity|]. split; [exact Hpend | exact (Hempty Hpend)].
Defined.

(** A block of 64 equal bytes under the snappy policy, with the stand-in
    codec. *)
Lemma WriteBlock_compression_policy_witness :
  let r := @TableBuilder_new with_codec snappy_options (scripted []) in
  let block :=
    BlockBuilder_Add snappy_options (BlockBuilder_new RefOptions)
      "k" (repeat_byte "a" 64) in
  exists r' contents type st1 rest,
    file_log (file r')
    = (file_log (file r) ++ (CallAppend contents, st1) :: rest)%list /\
    (type = kSnappyCompression
     <-> exists c,
           rle_compress (@block_Finish with_codec (added block)) = Some c /\
           size c < size (@block_Finish with_codec (added block))
                    - size (@block_Finish with_codec (added block)) / 8).
Proof.
  intros r block.
  destruct (@WriteBlock with_codec r block) as [[[r' b'] h]|] eqn:Hrun;
    [|vm_compute in Hrun; discriminate].
  destruct (@WriteBlock_compression_policy with_codec r r' block b' h Hrun)
    as (contents & type & st1 & rest & Hlog & _ & _ & _ & _ & Hiff & _).
  exists r', contents, type, st1, rest. split; [exact Hlog|].
  split.
  - intros Ht. exact (proj2 (proj1 Hiff Ht)).
  - intros Hc. apply Hiff. split; [reflexivity | exact Hc].
Defined.

(** The stand-in codec shrinks the block of the witness from 76 bytes to
    16, below the threshold of 67: the trailer carries type 1. *)
Example compressed_block_has_type_1 :
  let r := @TableBuilder_new with_codec snappy_options (scripted []) in
  let block :=
    BlockBuilder_Add snappy_options (BlockBuilder_new RefOptions)
      "k" (repeat_byte "a" 64) in
  size (@block_Finish with_codec (added block)) = 76 /\
  option_map
    (fun w => List.map (fun e => match fst e with
                                 | CallAppend d => (size d, String.get 0 d)
                                 | CallFlush => (0, None)
                                 end)
                (file_log (file (fst (fst w)))))
    (@WriteBlock with_codec r block)
  = Some [(16, Some "001"%char); (5, Some "001"%char)].
Proof. split; vm_compute; reflexivity. Qed.

(** With a filter policy configured, [Finish] on a fresh builder writes a
    filter block first: seven pieces reach the sink, the first two being the
    five bytes of the empty filter and their trailer, and the filter builder
    has been asked to [Finish]. *)
Lemma Finish_fresh_writes_filter_block :
  exists r',
    Finish (TableBuilder_new filter_options (scripted []))
    = Some (r', Status_OK) /\
    List.length (appended (file_log (file r'))) = 7%nat /\
    List.firstn 2 (appended (file_log (file r')))
    = [filter_Finish 2 [CallStartBlock 0];
       trailer_of (filter_Finish 2 [CallStartBlock 0]) kNoCompression] /\
    option_map filter_calls (filter_block r')
    = Some [CallStartBlock 0; CallFinish].
Proof.
  eexists. split; [vm_compute; reflexivity|].
  repeat split.
Qed.

Lemma Finish_on_fresh_builder_witness :
  exists r',
    Finish (TableBuilder_new plain_options (scripted []))
    = Some (r', Status_OK) /\
    file_log (file r') = accepted (empty_table plain_options) /\
    List.length (empty_table plain_options) = 5%nat.
Proof.
  destruct (Finish (TableBuilder_new plain_options (scripted [])))
    as [[r' st]|] eqn:Hrun; [|vm_compute in Hrun; discriminate].
  assert (Hst : st = Status_OK)
    by (vm_compute in Hrun; injection Hrun as _ <-; reflexivity).
  subst st.
  destruct (Finish_on_fresh_builder plain_options (scripted []) r' Hrun)
    as (_ & Hlog & _ & Hlen & _).
  exists r'. split; [reflexivity|]. split; [exact Hlog | exact (Hlen eq_refl)].
Defined.

(** After a refused [Append]. *)
Lemma error_latches_witness :
  exists r,
    run (TableBuilder_new plain_options (scripted [Status_IOError "disk full"]))
      [OpAdd "a" "1"; OpFlush] = Some r /\
    Add r "b" "2" = Some r /\
    Flush r = Some r /\
    exists r', Finish r = Some (r', Status_IOError "disk full").
Proof.
  destruct (run (TableBuilder_new plain_options
                   (scripted [Status_IOError "disk full"]))
              [OpAdd "a" "1"; OpFlush]) as [r|] eqn:Hrun;
    [|vm_compute in Hrun; discriminate].
  pose proof Hrun as Hval. vm_compute in Hval. injection Hval as Hval.
  assert (Hopen : closed r = false) by (rewrite <- Hval; reflexivity).
  assert (Hok : ok r = false) by (rewrite <- Hval; reflexivity).
  assert (Hst : status r = Status_IOError "disk full")
    by (rewrite <- Hval; reflexivity).
  destruct (error_latches r) as [_ Hlatch].
  destruct (Hlatch Hopen Hok) as (Hadd & Hflush & _ & r' & Hfin & _).
  exists r. split; [reflexivity|]. split; [apply Hadd|]. split; [exact Hflush|].
  exists r'. rewrite <- Hst. exact Hfin.
Defined.


Lemma index_restart_interval_is_one_witness :
  exists r,
    run (TableBuilder_new plain_options (scripted [])) [OpAdd "a" "1"] = Some r /\
    block_restart_interval small_block_options = 4 /\
    index_restart_interval (fst (ChangeOptions r small_block_options)) = 1.
Proof.
  destruct (run (TableBuilder_new plain_options (scripted [])) [OpAdd "a" "1"])
    as [r|] eqn:Hrun; [|vm_compute in Hrun; discriminate].
  pose proof Hrun as Hval. vm_compute in Hval. injection Hval as Hval.
  exists r. split; [reflexivity|]. split; [reflexivity|].
  destruct index_restart_interval_is_one as [_ Hchange].
  destruct (ChangeOptions r small_block_options) as [r' st] eqn:Hch.
  assert (Hst : st = Status_OK).
  { rewrite <- Hval in Hch. vm_compute in Hch. injection Hch as _ <-.
    reflexivity. }
  subst st.
  exact (proj1 (Hchange plain_options (scripted []) _ r small_block_options r'
                  Hrun Hch)).
Defined.

(** *** The scenarios of the format *)

(** The block boundary of the comment in [Rep]: between ["the quick brown
    fox"] and ["the who"] the index entry gets the key ["the r"]. *)
Example separator_the_r :
  summary (run (TableBuilder_new plain_options (scripted []))
             [OpAdd "the quick brown fox" "1"; OpFlush; OpAdd "the who" "2"])
  = Some ([31; 5], 36, ["the r"], "the who", 2).
Proof. vm_compute. reflexivity. Qed.

(** A single record: one data block, the metaindex block, the index block
    with one entry under the short successor ["b"], the footer. *)
Example single_record :
  summary (run (TableBuilder_new plain_options (scripted []))
             [OpAdd "a" "1"; OpFinish])
  = Some ([13; 5; 8; 5; 14; 5; 48], 98, [], "b", 1).
Proof. vm_compute. reflexivity. Qed.

(** Block size 100, three records with values of 50 bytes: the second
    record fills the first block. *)
Example block_boundary :
  summary (run (TableBuilder_new small_block_options (scripted []))
             [OpAdd "key0000" (repeat_byte "v" 50);
              OpAdd "key0001" (repeat_byte "v" 50);
              OpAdd "key0002" (repeat_byte "v" 50)])
  = Some ([122; 5], 127, ["key0001"], "key0002", 3).
Proof. vm_compute. reflexivity. Qed.

(** A key below the last one trips the assertion of [Add]. *)
Example key_order_violation :
  run (TableBuilder_new plain_options (scripted []))
    [OpAdd "b" EmptyString; OpAdd "a" EmptyString] = None.
Proof. vm_compute. reflexivity. Qed.

(** Options changed mid-build take effect: built with a block size of 4096
    and switched to 100, the builder flushes at the second record. *)
Example changed_block_size_takes_effect :
  summary (run (TableBuilder_new plain_options (scripted []))
             [OpAdd "key0000" (repeat_byte "v" 50);
              OpChangeOptions small_block_options;
              OpAdd "key0001" (repeat_byte "v" 50)])
  = Some ([122; 5], 127, [], "key0001", 2)
  /\ summary (run (TableBuilder_new plain_options (scripted []))
                [OpAdd "key0000" (repeat_byte "v" 50);
                 OpAdd "key0001" (repeat_byte "v" 50)])
     = Some ([], 0, [], "key0001", 2).
Proof. split; vm_compute; reflexivity. Qed.

(** The restart interval is read at each [Add].  Three records are added
    while every entry is a restart anchor; the options then change to an
    anchor every 16 entries, and the fourth record is encoded against the
    third: the estimate reaches 54 bytes, above the block size of 50, and
    the block of 54 bytes is flushed.  Under the first options throughout
    the block would have 64 bytes; under the second throughout the estimate
    would be 34 and nothing would be flushed. *)
Example restart_interval_is_read_at_each_Add :
  summary (run (TableBuilder_new anchored_options (scripted []))
             [OpAdd "key0001" "1"; OpAdd "key0002" "2"; OpAdd "key0003" "3";
              OpChangeOptions shared_options; OpAdd "key0004" "4"])
  = Some ([54; 5], 59, [], "key0004", 4)
  /\ summary (run (TableBuilder_new anchored_options (scripted []))
                [OpAdd "key0001" "1"; OpAdd "key0002" "2"; OpAdd "key0003" "3";
                 OpAdd "key0004" "4"])
     = Some ([64; 5], 69, [], "key0004", 4)
  /\ summary (run (TableBuilder_new shared_options (scripted []))
                [OpAdd "key0001" "1"; OpAdd "key0002" "2"; OpAdd "key0003" "3";
                 OpAdd "key0004" "4"])
     = Some ([], 0, [], "key0004", 4)
  /\ option_map (fun r => block_CurrentSizeEstimate (added (data_block r)))
       (run (TableBuilder_new shared_options (scripted []))
          [OpAdd "key0001" "1"; OpAdd "key0002" "2"; OpAdd "key0003" "3";
           OpAdd "key0004" "4"])
     = Some 34.
Proof. repeat split; vm_compute; reflexivity. Qed.

(** Entries keep their encoding when the options change.  Two records added
    as restart anchors, then options with an anchor every 16 entries, then
    [Flush]: the block has the 33 bytes of two anchors, its handle is
    (0, 33) and the file size 38.  Added under the second options, the same
    records make a block of 26 bytes. *)
Example entries_keep_their_encoding :
  option_map (fun r => (summary (Some r), pending_handle r))
    (run (TableBuilder_new anchored_options (scripted []))
       [OpAdd "key1" "one"; OpAdd "key2" "four";
        OpChangeOptions shared_options; OpFlush])
  = Some (Some ([33; 5], 38, [], "key2", 2),
          {| handle_offset := 0; handle_size := 33 |})
  /\ option_map (fun r => (summary (Some r), pending_handle r))
       (run (TableBuilder_new shared_options (scripted []))
          [OpAdd "key1" "one"; OpAdd "key2" "four"; OpFlush])
     = Some (Some ([26; 5], 31, [], "key2", 2),
             {| handle_offset := 0; handle_size := 26 |}).
Proof. split; vm_compute; reflexivity. Qed.

End Runs.

(** ** Arena: carving and new blocks *)

Module ArenaMore.

Import Arena ArenaProofs.

Section Carving.

Variable sizeof_ptr : Z.

Hypothesis static_assert_align :
  Z.land (align sizeof_ptr) (align sizeof_ptr - 1) = 0.

Hypothesis sizeof_ptr_pos : 0 < sizeof_ptr.

(** The request with its slop, when the sum does not wrap. *)
Lemma needed_exact (a : Arena) (bytes : Z) :
  0 <= bytes -> bytes + slop_of sizeof_ptr a < size_t_modulus sizeof_ptr ->
  needed_of sizeof_ptr a bytes = bytes + slop_of sizeof_ptr a.
Proof.
  intros Hb Hlt. unfold needed_of, wrap.
  pose proof (slop_bounds sizeof_ptr static_assert_align sizeof_ptr_pos a).
  apply Z.mod_small. lia.
Qed.

(** The fast path as an equation. *)
Lemma AllocateAligned_fast (fresh : Z) (a : Arena) (bytes : Z) :
  needed_of sizeof_ptr a bytes <= alloc_bytes_remaining_ a ->
  AllocateAligned sizeof_ptr fresh a bytes
  = Some (alloc_ptr_ a + slop_of sizeof_ptr a,
          {| alloc_ptr_ := alloc_ptr_ a + needed_of sizeof_ptr a bytes;
             alloc_bytes_remaining_ :=
               wrap sizeof_ptr
                 (alloc_bytes_remaining_ a - needed_of sizeof_ptr a bytes);
             blocks_ := blocks_ a;
             memory_usage_ := memory_usage_ a |}).
Proof.
  intros Hfit. unfold AllocateAligned.
  apply Z.leb_le in Hfit. rewrite Hfit.
  rewrite (land_align_mod sizeof_ptr static_assert_align).
  rewrite (slop_aligns sizeof_ptr static_assert_align sizeof_ptr_pos).
  reflexivity.
Qed.

(** The slow path as an equation. *)
Lemma AllocateAligned_slow (fresh : Z) (a : Arena) (bytes : Z) :
  fresh mod align sizeof_ptr = 0 ->
  alloc_bytes_remaining_ a < needed_of sizeof_ptr a bytes ->
  AllocateAligned sizeof_ptr fresh a bytes
  = Some (AllocateFallback sizeof_ptr fresh a bytes).
Proof.
  intros Hfresh Hfull. unfold AllocateAligned.
  apply Z.leb_gt in Hfull. rewrite Hfull.
  pose proof (AllocateFallback_result sizeof_ptr fresh a bytes) as Hres.
  destruct (AllocateFallback sizeof_ptr fresh a bytes) as [result a'].
  simpl in Hres. subst result.
  rewrite (land_align_mod sizeof_ptr static_assert_align), Hfresh.
  reflexivity.
Qed.

Lemma modulus_above_block : 2 <= sizeof_ptr -> kBlockSize < size_t_modulus sizeof_ptr.
Proof.
  intros H. unfold size_t_modulus, kBlockSize.
  assert (H16 : 2 ^ 16 <= 2 ^ (8 * sizeof_ptr)) by (apply Z.pow_le_mono_r; lia).
  change (2 ^ 16) with 65536 in H16. lia.
Qed.

(** X1.  A request that fits in the rest of the current block is carved
    from it: the address is the allocation pointer moved up to the next
    multiple of [align], the region ends where the new allocation pointer
    stands, the end of the block stays where it was, and neither the block
    list nor the memory usage changes. *)
Theorem AllocateAligned_carves (fresh : Z) (a : Arena) (bytes : Z) :
  0 <= bytes ->
  alloc_bytes_remaining_ a < size_t_modulus sizeof_ptr ->
  bytes + slop_of sizeof_ptr a <= alloc_bytes_remaining_ a ->
  exists result a',
    AllocateAligned sizeof_ptr fresh a bytes = Some (result, a') /\
    alloc_ptr_ a <= result < alloc_ptr_ a + align sizeof_ptr /\
    result mod align sizeof_ptr = 0 /\
    alloc_ptr_ a' = result + bytes /\
    alloc_ptr_ a' + alloc_bytes_remaining_ a'
    = alloc_ptr_ a + alloc_bytes_remaining_ a /\
    0 <= alloc_bytes_remaining_ a' /\
    blocks_ a' = blocks_ a /\
    memory_usage_ a' = memory_usage_ a.
Proof.
  intros Hb Hrem Hfit.
  pose proof (slop_bounds sizeof_ptr static_assert_align sizeof_ptr_pos a) as Hslop.
  pose proof (needed_exact a bytes Hb ltac:(lia)) as Hneeded.
  rewrite AllocateAligned_fast by (rewrite Hneeded; exact Hfit).
  eexists. eexists. split; [reflexivity|].
  cbn [alloc_ptr_ alloc_bytes_remaining_ blocks_ memory_usage_].
  rewrite Hneeded. unfold wrap.
  rewrite (Z.mod_small (alloc_bytes_remaining_ a - _)) by lia.
  repeat split; try lia.
  apply (slop_aligns sizeof_ptr static_assert_align sizeof_ptr_pos).
Qed.

(** X2.  A request that does not fit takes a fresh block, which is recorded
    in the block list and charged with its size plus one pointer.  A request
    above a quarter of [kBlockSize] gets a block of its own and leaves the
    current block as it was; a smaller one starts a new block of [kBlockSize]
    bytes at whose beginning it lies, the rest of the old block being given
    up. *)
Theorem AllocateAligned_new_block (fresh : Z) (a : Arena) (bytes : Z) :
  2 <= sizeof_ptr ->
  fresh mod align sizeof_ptr = 0 ->
  0 <= bytes ->
  bytes + slop_of sizeof_ptr a < size_t_modulus sizeof_ptr ->
  alloc_bytes_remaining_ a < bytes + slop_of sizeof_ptr a ->
  exists a',
    AllocateAligned sizeof_ptr fresh a bytes = Some (fresh, a') /\
    blocks_ a' = blocks_ a ++ [fresh] /\
    (kBlockSize / 4 < bytes ->
     alloc_ptr_ a' = alloc_ptr_ a /\
     alloc_bytes_remaining_ a' = alloc_bytes_remaining_ a /\
     memory_usage_ a'
     = wrap sizeof_ptr (memory_usage_ a + wrap sizeof_ptr (bytes + sizeof_ptr))) /\
    (bytes <= kBlockSize / 4 ->
     alloc_ptr_ a' = fresh + bytes /\
     alloc_bytes_remaining_ a' = kBlockSize - bytes /\
     memory_usage_ a'
     = wrap sizeof_ptr
         (memory_usage_ a + wrap sizeof_ptr (kBlockSize + sizeof_ptr))).
Proof.
  intros Hptr Hfresh Hb Hnowrap Hfull.
  pose proof (needed_exact a bytes Hb Hnowrap) as Hneeded.
  pose proof (modulus_above_block Hptr) as Hmod.
  rewrite AllocateAligned_slow by (try assumption; rewrite Hneeded; exact Hfull).
  unfold AllocateFallback, AllocateNewBlock.
  change (kBlockSize / 4) with 1024 in *. unfold kBlockSize in *.
  destruct (1024 <? bytes) eqn:Hbig.
  - apply Z.ltb_lt in Hbig. eexists. split; [reflexivity|].
    cbn [alloc_ptr_ alloc_bytes_remaining_ blocks_ memory_usage_].
    repeat split; lia.
  - apply Z.ltb_ge in Hbig. eexists. split; [reflexivity|].
    cbn [alloc_ptr_ alloc_bytes_remaining_ blocks_ memory_usage_].
    split; [reflexivity|]. split; [lia|]. intros _.
    unfold wrap at 1. rewrite Z.mod_small by lia. repeat split.
Qed.

(** X3.  Two allocations in a row, the second carved from the block the
    first one left current: the second region begins at or after the end of
    the first and ends inside that block's free space, so the two do not
    overlap.  (A first request with a block of its own leaves another block
    current and is not covered here.) *)
Theorem consecutive_allocations_disjoint (fresh1 fresh2 : Z) (a a1 a2 : Arena)
    (bytes1 bytes2 result1 result2 : Z) :
  2 <= sizeof_ptr ->
  fresh1 mod align sizeof_ptr = 0 ->
  0 <= bytes1 -> 0 <= bytes2 ->
  0 <= alloc_bytes_remaining_ a < size_t_modulus sizeof_ptr ->
  bytes1 + slop_of sizeof_ptr a < size_t_modulus sizeof_ptr ->
  bytes1 <= kBlockSize / 4 \/ bytes1 + slop_of sizeof_ptr a <= alloc_bytes_remaining_ a ->
  AllocateAligned sizeof_ptr fresh1 a bytes1 = Some (result1, a1) ->
  bytes2 + slop_of sizeof_ptr a1 <= alloc_bytes_remaining_ a1 ->
  AllocateAligned sizeof_ptr fresh2 a1 bytes2 = Some (result2, a2) ->
  result1 + bytes1 <= result2 /\
  result2 + bytes2 <= alloc_ptr_ a1 + alloc_bytes_remaining_ a1.
Proof.
  intros Hptr Hfresh Hb1 Hb2 Hrem Hnowrap Hsame Hfirst Hfit2 Hsecond.
  pose proof (modulus_above_block Hptr) as Hmod.
  pose proof (slop_bounds sizeof_ptr static_assert_align sizeof_ptr_pos a) as Hslop.
  pose proof (needed_exact a bytes1 Hb1 Hnowrap) as Hneeded.
  assert (Hstate : alloc_ptr_ a1 = result1 + bytes1 /\
                   0 <= alloc_bytes_remaining_ a1 < size_t_modulus sizeof_ptr).
  { destruct (Z_le_gt_dec (bytes1 + slop_of sizeof_ptr a) (alloc_bytes_remaining_ a))
      as [Hfit1 | Hfull1].
    - rewrite AllocateAligned_fast in Hfirst by (rewrite Hneeded; exact Hfit1).
      injection Hfirst as <- <-.
      cbn [alloc_ptr_ alloc_bytes_remaining_]. rewrite Hneeded. unfold wrap.
      rewrite Z.mod_small by lia. lia.
    - destruct Hsame as [Hsmall | Hfit1]; [|lia].
      rewrite AllocateAligned_slow in Hfirst
        by (try assumption; rewrite Hneeded; lia).
      unfold AllocateFallback, AllocateNewBlock in Hfirst.
      cbn [alloc_ptr_ alloc_bytes_remaining_ blocks_ memory_usage_] in Hfirst.
      change (kBlockSize / 4) with 1024 in *.
      assert (Hblock : kBlockSize = 4096) by reflexivity.
      destruct (1024 <? bytes1) eqn:Hbig; [apply Z.ltb_lt in Hbig; lia|].
      pose proof (f_equal (option_map fst) Hfirst) as Hr.
      pose proof (f_equal (option_map snd) Hfirst) as Ha.
      cbn [option_map fst snd] in Hr, Ha. clear Hfirst.
      assert (result1 = fresh1) by congruence.
      assert (Ha1 : a1 = {| alloc_ptr_ := fresh1 + bytes1;
                            alloc_bytes_remaining_ :=
                              wrap sizeof_ptr (kBlockSize - bytes1);
                            blocks_ := blocks_ a ++ [fresh1];
                            memory_usage_ :=
                              wrap sizeof_ptr
                                (memory_usage_ a
                                 + wrap sizeof_ptr (kBlockSize + sizeof_ptr)) |})
        by congruence.
      subst result1. rewrite Ha1.
      cbn [alloc_ptr_ alloc_bytes_remaining_]. unfold wrap.
      rewrite Z.mod_small by lia. lia. }
  destruct Hstate as (Hptr1 & Hrem1).
  pose proof (slop_bounds sizeof_ptr static_assert_align sizeof_ptr_pos a1) as Hslop1.
  pose proof (needed_exact a1 bytes2 Hb2 ltac:(lia)) as Hneeded2.
  rewrite AllocateAligned_fast in Hsecond by (rewrite Hneeded2; exact Hfit2).
  injection Hsecond as <- <-. lia.
Qed.

(** X17.  A request so large that adding the slop wraps around [size_t]:
    [needed] comes out small, the fast path is taken, and the address
    returned is the aligned allocation pointer although only [needed] bytes
    are set aside: the allocation pointer ends up below the address
    returned, and the region of [bytes] bytes reaches beyond the current
    block. *)
Theorem AllocateAligned_wraps (fresh : Z) (a : Arena) (bytes : Z) :
  0 <= bytes < size_t_modulus sizeof_ptr ->
  size_t_modulus sizeof_ptr <= bytes + slop_of sizeof_ptr a ->
  alloc_bytes_remaining_ a < size_t_modulus sizeof_ptr ->
  bytes + slop_of sizeof_ptr a - size_t_modulus sizeof_ptr
  <= alloc_bytes_remaining_ a ->
  exists a',
    AllocateAligned sizeof_ptr fresh a bytes
    = Some (alloc_ptr_ a + slop_of sizeof_ptr a, a') /\
    alloc_ptr_ a'
    = alloc_ptr_ a + (bytes + slop_of sizeof_ptr a - size_t_modulus sizeof_ptr) /\
    alloc_ptr_ a' < alloc_ptr_ a + slop_of sizeof_ptr a /\
    alloc_ptr_ a + alloc_bytes_remaining_ a
    < alloc_ptr_ a + slop_of sizeof_ptr a + bytes /\
    blocks_ a' = blocks_ a.
Proof.
  intros Hb Hwrap Hrem Hfit.
  pose proof (slop_bounds sizeof_ptr static_assert_align sizeof_ptr_pos a) as Hslop.
  pose proof (align_lt_modulus sizeof_ptr sizeof_ptr_pos) as Halign.
  assert (Hneeded : needed_of sizeof_ptr a bytes
                    = bytes + slop_of sizeof_ptr a - size_t_modulus sizeof_ptr).
  { unfold needed_of, wrap.
    symmetry. apply (Z.mod_unique _ _ 1); lia. }
  rewrite AllocateAligned_fast by (rewrite Hneeded; exact Hfit).
  eexists. split; [reflexivity|].
  cbn [alloc_ptr_ alloc_bytes_remaining_ blocks_ memory_usage_].
  rewrite Hneeded. repeat split; lia.
Qed.

(** X18.  [AllocateAligned] keeps [alloc_bytes_remaining_] between zero and
    [kBlockSize], as it is in a new arena; and it either leaves the block
    list and the memory usage as they are, or returns the fresh block and
    appends it to the block list. *)
Theorem remaining_stays_within_block (fresh : Z) (a a' : Arena)
    (bytes result : Z) :
  2 <= sizeof_ptr ->
  0 <= bytes ->
  0 <= alloc_bytes_remaining_ a <= kBlockSize ->
  AllocateAligned sizeof_ptr fresh a bytes = Some (result, a') ->
  0 <= alloc_bytes_remaining_ a' <= kBlockSize /\
  (blocks_ a' = blocks_ a /\ memory_usage_ a' = memory_usage_ a /\
   alloc_bytes_remaining_ a' <= alloc_bytes_remaining_ a \/
   blocks_ a' = blocks_ a ++ [fresh] /\ result = fresh).
Proof.
  intros Hptr Hb Hrem Hrun.
  pose proof (modulus_above_block Hptr) as Hmod.
  assert (Hblock : kBlockSize = 4096) by reflexivity.
  assert (Hneeded : 0 <= needed_of sizeof_ptr a bytes).
  { unfold needed_of, wrap. apply Z.mod_pos_bound. lia. }
  unfold AllocateAligned in Hrun.
  destruct (needed_of sizeof_ptr a bytes <=? alloc_bytes_remaining_ a) eqn:Hfit.
  - apply Z.leb_le in Hfit.
    destruct (assert _); [|discriminate].
    pose proof (f_equal (option_map snd) Hrun) as Ha.
    cbn [option_map snd] in Ha.
    assert (Ha' : a' = {| alloc_ptr_ := alloc_ptr_ a + needed_of sizeof_ptr a bytes;
                          alloc_bytes_remaining_ :=
                            wrap sizeof_ptr
                              (alloc_bytes_remaining_ a
                               - needed_of sizeof_ptr a bytes);
                          blocks_ := blocks_ a;
                          memory_usage_ := memory_usage_ a |})
      by congruence.
    rewrite Ha'. cbn [alloc_bytes_remaining_ blocks_ memory_usage_].
    unfold wrap. rewrite Z.mod_small by lia.
    split; [lia|]. left. repeat split; lia.
  - unfold AllocateFallback, AllocateNewBlock in Hrun.
    cbn [alloc_ptr_ alloc_bytes_remaining_ blocks_ memory_usage_] in Hrun.
    change (kBlockSize / 4) with 1024 in Hrun.
    destruct (1024 <? bytes) eqn:Hbig;
      (destruct (assert _); [|discriminate]);
      pose proof (f_equal (option_map fst) Hrun) as Hr;
      pose proof (f_equal (option_map snd) Hrun) as Ha;
      cbn [option_map fst snd] in Hr, Ha.
    + assert (Ha' : a' = {| alloc_ptr_ := alloc_ptr_ a;
                            alloc_bytes_remaining_ := alloc_bytes_remaining_ a;
                            blocks_ := blocks_ a ++ [fresh];
                            memory_usage_ :=
                              wrap sizeof_ptr
                                (memory_usage_ a
                                 + wrap sizeof_ptr (bytes + sizeof_ptr)) |})
        by congruence.
      rewrite Ha'. cbn [alloc_bytes_remaining_ blocks_ memory_usage_].
      split; [lia|]. right. split; [reflexivity | congruence].
    + apply Z.ltb_ge in Hbig.
      assert (Ha' : a' = {| alloc_ptr_ := fresh + bytes;
                            alloc_bytes_remaining_ :=
                              wrap sizeof_ptr (kBlockSize - bytes);
                            blocks_ := blocks_ a ++ [fresh];
                            memory_usage_ :=
                              wrap sizeof_ptr
                                (memory_usage_ a
                                 + wrap sizeof_ptr (kBlockSize + sizeof_ptr)) |})
        by congruence.
      rewrite Ha'. cbn [alloc_bytes_remaining_ blocks_ memory_usage_].
      unfold wrap. rewrite Z.mod_small by lia.
      split; [lia|]. right. split; [reflexivity | congruence].
Qed.

End Carving.

(** A 64-bit build; thirteen bytes then sixteen from a fresh arena. *)
Lemma AllocateAligned_carves_witness :
  exists result a',
    AllocateAligned 8 12288
      {| alloc_ptr_ := 8205; alloc_bytes_remaining_ := 4083;
         blocks_ := [8192]; memory_usage_ := 4104 |} 16 = Some (result, a') /\
    result = 8208 /\ alloc_ptr_ a' = 8224.
Proof.
  destruct (AllocateAligned_carves 8 eq_refl eq_refl 12288
              {| alloc_ptr_ := 8205; alloc_bytes_remaining_ := 4083;
                 blocks_ := [8192]; memory_usage_ := 4104 |} 16)
    as (result & a' & Hrun & _ & _ & Hptr & _);
    [discriminate | reflexivity | discriminate |].
  exists result, a'. split; [exact Hrun|].
  vm_compute in Hrun. injection Hrun as <- <-. split; reflexivity.
Defined.

Lemma AllocateAligned_new_block_witness :
  exists a',
    AllocateAligned 8 12288
      {| alloc_ptr_ := 8205; alloc_bytes_remaining_ := 4083;
         blocks_ := [8192]; memory_usage_ := 4104 |} 5000 = Some (12288, a') /\
    blocks_ a' = [8192; 12288] /\ alloc_ptr_ a' = 8205.
Proof.
  destruct (AllocateAligned_new_block 8 eq_refl eq_refl 12288
              {| alloc_ptr_ := 8205; alloc_bytes_remaining_ := 4083;
                 blocks_ := [8192]; memory_usage_ := 4104 |} 5000)
    as (a' & Hrun & Hblocks & Hbig & _);
    [discriminate | reflexivity | discriminate | reflexivity | reflexivity |].
  exists a'. split; [exact Hrun|]. split; [exact Hblocks|].
  exact (proj1 (Hbig eq_refl)).
Defined.

Lemma consecutive_allocations_disjoint_witness :
  exists result1 a1 result2 a2,
    AllocateAligned 8 8192 Arena_new 13 = Some (result1, a1) /\
    AllocateAligned 8 12288 a1 16 = Some (result2, a2) /\
    result1 + 13 <= result2.
Proof.
  destruct (AllocateAligned 8 8192 Arena_new 13) as [[result1 a1]|] eqn:H1;
    [|vm_compute in H1; discriminate].
  pose proof H1 as Hval. vm_compute in Hval. injection Hval as Hr Ha.
  destruct (AllocateAligned 8 12288 a1 16) as [[result2 a2]|] eqn:H2;
    [|rewrite <- Ha in H2; vm_compute in H2; discriminate].
  exists result1, a1, result2, a2. split; [reflexivity|]. split; [exact H2|].
  refine (proj1 (consecutive_allocations_disjoint 8 eq_refl eq_refl 8192 12288
                   Arena_new a1 a2 13 16 result1 result2 _ _ _ _ _ _ _ H1 _ H2)).
  - discriminate.
  - reflexivity.
  - discriminate.
  - discriminate.
  - split; [discriminate | reflexivity].
  - reflexivity.
  - left. discriminate.
  - rewrite <- Ha. discriminate.
Defined.

(** A 64-bit build, three bytes of slop, a request two bytes short of
    [2^64]: one byte is set aside. *)
Lemma AllocateAligned_wraps_witness :
  exists a',
    AllocateAligned 8 12288
      {| alloc_ptr_ := 8205; alloc_bytes_remaining_ := 4083;
         blocks_ := [8192]; memory_usage_ := 4104 |} (2 ^ 64 - 2)
    = Some (8208, a') /\
    alloc_ptr_ a' = 8206.
Proof.
  destruct (AllocateAligned_wraps 8 eq_refl eq_refl 12288
              {| alloc_ptr_ := 8205; alloc_bytes_remaining_ := 4083;
                 blocks_ := [8192]; memory_usage_ := 4104 |} (2 ^ 64 - 2))
    as (a' & Hrun & Hptr & _);
    [split; [discriminate | reflexivity] | discriminate | reflexivity
    | discriminate |].
  exists a'. split; [exact Hrun | exact Hptr].
Defined.

Lemma remaining_stays_within_block_witness :
  exists result a',
    AllocateAligned 8 8192 Arena_new 13 = Some (result, a') /\
    0 <= alloc_bytes_remaining_ a' <= kBlockSize.
Proof.
  destruct (AllocateAligned 8 8192 Arena_new 13) as [[result a']|] eqn:Hrun;
    [|vm_compute in Hrun; discriminate].
  exists result, a'. split; [reflexivity|].
  refine (proj1 (remaining_stays_within_block 8 8192 Arena_new a' 13 result
                   _ _ _ Hrun)).
  - discriminate.
  - discriminate.
  - split; discriminate.
Defined.

End ArenaMore.

(** ** Table builder: closing, counting, the filter, the index *)

Module TableBuilderMore.

Import TableBuilder Invariants TableBuilderProofs.

Section More.

Context {E : Env}.

Ltac fields :=
  unfold ok in *;
  cbn [options index_block_options file offset status data_block
  index_block last_key num_entries closed filter_block pending_index_entry
  pending_handle compressed_output
  set_options set_index_block_options set_file set_offset set_status
  set_data_block set_index_block set_last_key set_num_entries set_closed
  set_filter_block set_pending_index_entry set_pending_handle
  set_compressed_output deref
  BlockBuilder_Reset BlockBuilder_Add BlockBuilder_new BlockBuilder_empty
  options_ added] in *;
  rewrite ?entries_Add, ?entries_Reset in *.

Ltac finish :=
  try solve [ auto | discriminate | lia | congruence
            | intuition (auto; try discriminate; try congruence; try lia) ].

(** *** What a call keeps *)

Lemma delivered_keys_app (l1 l2 : list FilterCall) :
  delivered_keys (l1 ++ l2) = delivered_keys l1 ++ delivered_keys l2.
Proof.
  induction l1 as [|c l1 IH]; simpl; [reflexivity|].
  destruct c; simpl; rewrite IH; reflexivity.
Qed.

Lemma kept_refl (r : Rep) : kept r r.
Proof. repeat split. Qed.

Lemma kept_trans (r1 r2 r3 : Rep) : kept r1 r2 -> kept r2 r3 -> kept r1 r3.
Proof. unfold kept. intuition congruence. Qed.

Lemma raw_write_kept (r r1 : Rep) (c : string) (t : CompressionType) :
  raw_write r c t r1 -> kept r r1 /\ closed r1 = closed r.
Proof. intros H. inversion H; repeat split. Qed.

Lemma WriteBlock_pre (r : Rep) (b : BlockBuilder)
    (w : Rep * BlockBuilder * BlockHandle) :
  WriteBlock r b = Some w -> ok r = true.
Proof.
  unfold WriteBlock. destruct (ok r); [reflexivity | discriminate].
Qed.

Lemma WriteBlock_kept (r r' : Rep) (b b' : BlockBuilder) (h : BlockHandle) :
  WriteBlock r b = Some (r', b', h) -> kept r r' /\ closed r' = closed r.
Proof.
  intros Hrun. pose proof (WriteBlock_pre _ _ _ Hrun) as Hok.
  destruct (WriteBlock_cases r b Hok) as (r1 & Hraw & Heq).
  rewrite Heq in Hrun. injection Hrun as <- _ _.
  destruct (raw_write_kept _ _ _ _ Hraw) as [(Hn & Hf & Ho & Hio) Hcl].
  unfold kept, filter_view in *. fields. auto.
Qed.

Lemma Flush_tail_kept (r : Rep) :
  kept r (Flush_tail r) /\ closed (Flush_tail r) = closed r.
Proof.
  unfold Flush_tail, kept, filter_view.
  destruct r as [o io f off st db ib lk n cl fb pe ph co]. fields.
  destruct (Status_ok st); fields;
    [destruct (File_Flush f) as [f1 st1]; fields|];
    (destruct fb as [fb|]; fields; simpl;
     rewrite ?delivered_keys_app, ?app_nil_r; repeat split).
Qed.

(** [Flush] without assumptions on the state it starts from. *)
Lemma Flush_Some_cases (r r' : Rep) :
  Flush r = Some r' ->
  closed r = false /\
  (r' = r /\ (ok r = false \/ BlockBuilder_empty (data_block r) = true) \/
   ok r = true /\ BlockBuilder_empty (data_block r) = false /\
   pending_index_entry r = false /\
   exists r1,
     raw_write r (fst (payload_of r (data_block r)))
       (snd (payload_of r (data_block r))) r1 /\
     r' = Flush_tail
            (set_pending_handle
               {| handle_offset := offset r;
                  handle_size := size (fst (payload_of r (data_block r))) |}
               (set_data_block (BlockBuilder_Reset (data_block r))
                  (set_compressed_output EmptyString r1)))).
Proof.
  intros Hrun. pose proof (Flush_open r r' Hrun) as Hopen.
  split; [exact Hopen|].
  destruct (ok r) eqn:Hok;
    [|left; rewrite Flush_idle in Hrun by auto; injection Hrun as <-; auto].
  destruct (BlockBuilder_empty (data_block r)) eqn:Hempty;
    [left; rewrite Flush_idle in Hrun by auto; injection Hrun as <-; auto|].
  destruct (pending_index_entry r) eqn:Hpend.
  - unfold Flush in Hrun. rewrite Hopen, Hok, Hempty, Hpend in Hrun.
    discriminate.
  - right. repeat split.
    destruct (Flush_writes r Hopen Hok Hempty Hpend) as (r1 & Hraw & Heq).
    exists r1. split; [exact Hraw | congruence].
Qed.

Lemma Flush_kept (r r' : Rep) :
  Flush r = Some r' -> kept r r' /\ closed r' = closed r.
Proof.
  intros Hrun.
  destruct (Flush_Some_cases r r' Hrun)
    as [_ [[-> _] | (_ & _ & _ & r1 & Hraw & ->)]];
    [split; [apply kept_refl | reflexivity]|].
  destruct (raw_write_kept _ _ _ _ Hraw) as [H1 Hcl1].
  match goal with |- kept r (Flush_tail ?x) /\ _ =>
    destruct (Flush_tail_kept x) as [H2 Hcl2];
    assert (H12 : kept r1 x /\ closed x = closed r1)
      by (unfold kept, filter_view; fields; repeat split) end.
  destruct H12 as [H12 Hcl12].
  split; [exact (kept_trans _ _ _ H1 (kept_trans _ _ _ H12 H2)) | congruence].
Qed.

Lemma emit_kept (r r' : Rep) (key : string) :
  emit_pending_index_entry r key = Some r' ->
  kept r r' /\ closed r' = closed r /\ status r' = status r.
Proof.
  unfold emit_pending_index_entry. intros Hrun.
  destruct (pending_index_entry r);
    [destruct (assert _); [|discriminate]|];
    injection Hrun as <-; repeat split.
Qed.

Lemma append_record_effect (r r' : Rep) (key value : string) :
  append_record r key value = Some r' ->
  num_entries r < INT64_MAX /\
  num_entries r' = num_entries r + 1 /\
  filter_view r'
  = option_map (fun v => (fst v, snd v ++ [key])) (filter_view r) /\
  options r' = options r /\
  index_block_options r' = index_block_options r /\
  closed r' = closed r.
Proof.
  unfold append_record, filter_view. intros Hrun.
  destruct (filter_block r) as [fb|] eqn:Hfb; fields;
    (destruct (num_entries r <? INT64_MAX) eqn:Hmax; simpl in Hrun;
     [apply Z.ltb_lt in Hmax | discriminate]);
    injection Hrun as <-; fields; rewrite ?Hfb; simpl;
    rewrite ?delivered_keys_app; repeat split; assumption.
Qed.

Lemma write_filter_block_kept (r : Rep) :
  kept r (fst (write_filter_block r)) /\
  closed (fst (write_filter_block r)) = closed r.
Proof.
  unfold write_filter_block.
  destruct (filter_block r) as [fb|] eqn:Hfb;
    [|split; [apply kept_refl | reflexivity]].
  destruct (ok r); [|split; [apply kept_refl | reflexivity]].
  match goal with |- context [WriteRawBlock ?x ?c ?t] =>
    destruct (WriteRawBlock_cases x c t) as [Hraw _];
    destruct (raw_write_kept _ _ _ _ Hraw) as [(Hn & Hf & Ho & Hio) Hcl] end.
  unfold kept, filter_view in *. fields. rewrite Hn, Hf, Ho, Hio, Hcl, Hfb.
  simpl. rewrite delivered_keys_app, app_nil_r. repeat split.
Qed.

Lemma write_metaindex_block_kept (r r' : Rep) (fh h : BlockHandle) :
  write_metaindex_block r fh = Some (r', h) ->
  kept r r' /\ closed r' = closed r.
Proof.
  unfold write_metaindex_block. intros Hrun.
  destruct (ok r);
    [|injection Hrun as <- _; split; [apply kept_refl | reflexivity]].
  match type of Hrun with (match ?m with _ => _ end) = _ =>
    destruct m as [meta|]; [|discriminate] end.
  destruct (WriteBlock r meta) as [[[r1 b1] h1]|] eqn:Hwb; [|discriminate].
  injection Hrun as <- _. exact (WriteBlock_kept _ _ _ _ _ Hwb).
Qed.

Lemma write_index_block_kept (r r' : Rep) (h : BlockHandle) :
  write_index_block r = Some (r', h) ->
  kept r r' /\ closed r' = closed r.
Proof.
  unfold write_index_block. intros Hrun.
  destruct (ok r);
    [|injection Hrun as <- _; split; [apply kept_refl | reflexivity]].
  match type of Hrun with (match WriteBlock ?x ?b with _ => _ end) = _ =>
    destruct (WriteBlock x b) as [[[r1 b1] h1]|] eqn:Hwb; [|discriminate];
    destruct (WriteBlock_kept _ _ _ _ _ Hwb) as [(Hn & Hf & Ho & Hio) Hcl] end.
  injection Hrun as <- _.
  unfold kept, filter_view in *.
  destruct (pending_index_entry r); fields; rewrite Hn, Hf, Ho, Hio, Hcl;
    repeat split.
Qed.

Lemma write_footer_kept (r : Rep) (mh ih : BlockHandle) :
  kept r (write_footer r mh ih) /\ closed (write_footer r mh ih) = closed r.
Proof.
  unfold write_footer.
  destruct (ok r); [|split; [apply kept_refl | reflexivity]].
  destruct (File_Append _ _) as [f st]. fields.
  destruct (Status_ok st); repeat split.
Qed.

Lemma Finish_kept (r r' : Rep) (st : Status) :
  Finish r = Some (r', st) ->
  kept r r' /\ closed r = false /\ closed r' = true.
Proof.
  intros Hrun. unfold Finish in Hrun.
  destruct (Flush r) as [r1|] eqn:Hflush; [|discriminate].
  destruct (Flush_kept r r1 Hflush) as [H1 Hcl1].
  pose proof (Flush_open r r1 Hflush) as Hopen.
  destruct (assert (negb (closed r1))); [|discriminate].
  destruct (write_filter_block_kept (set_closed true r1)) as [H2 Hcl2].
  destruct (write_filter_block (set_closed true r1)) as [r2 fh].
  simpl in H2, Hcl2.
  destruct (write_metaindex_block r2 fh) as [[r3 mh]|] eqn:Hmeta; [|discriminate].
  destruct (write_metaindex_block_kept _ _ _ _ Hmeta) as [H3 Hcl3].
  destruct (write_index_block r3) as [[r4 ih]|] eqn:Hindex; [|discriminate].
  destruct (write_index_block_kept _ _ _ Hindex) as [H4 Hcl4].
  destruct (write_footer_kept r4 mh ih) as [H5 Hcl5].
  injection Hrun as <- _.
  split; [|split; [exact Hopen | congruence]].
  refine (kept_trans _ _ _ H1 (kept_trans _ (set_closed true r1) _ _ _)).
  - repeat split.
  - exact (kept_trans _ _ _ H2 (kept_trans _ _ _ H3 (kept_trans _ _ _ H4 H5))).
Qed.

(** *** One call *)

(** What a call does to the record count and to the filter builder's keys:
    nothing, unless it is an [Add] on an ok builder. *)
Lemma step_effect (r r' : Rep) (op : Op) :
  step r op = Some r' ->
  (ok r = false \/ added_keys [op] = []) /\
  num_entries r' = num_entries r /\ filter_view r' = filter_view r \/
  exists key value,
    op = OpAdd key value /\ ok r = true /\
    num_entries r < INT64_MAX /\
    num_entries r' = num_entries r + 1 /\
    filter_view r'
    = option_map (fun v => (fst v, snd v ++ [key])) (filter_view r).
Proof.
  intros Hrun. destruct op as [key value | | | | opts]; simpl in Hrun.
  - unfold Add in Hrun.
    destruct (assert (negb (closed r))); [|discriminate].
    destruct (ok r) eqn:Hok; simpl in Hrun;
      [|injection Hrun as <-; left; auto].
    destruct (assert _); [|discriminate].
    destruct (emit_pending_index_entry r key) as [r1|] eqn:Hemit; [|discriminate].
    destruct (emit_kept r r1 key Hemit) as ((Hn1 & Hf1 & _) & _).
    destruct (append_record r1 key value) as [r2|] eqn:Happ; [|discriminate].
    destruct (append_record_effect r1 r2 key value Happ)
      as (Hmax & Hn2 & Hf2 & _).
    assert (H2 : kept r2 r').
    { destruct (_ <=? _); [exact (proj1 (Flush_kept r2 r' Hrun))|].
      injection Hrun as <-. apply kept_refl. }
    destruct H2 as (Hn3 & Hf3 & _).
    right. exists key, value. repeat split; congruence.
  - destruct (Flush_kept r r' Hrun) as [(Hn & Hf & _) _]. left. auto.
  - destruct (Finish r) as [[r1 st]|] eqn:Hfin; [|discriminate].
    injection Hrun as <-.
    destruct (Finish_kept r r1 st Hfin) as [(Hn & Hf & _) _]. left. auto.
  - unfold Abandon in Hrun. destruct (assert _); [|discriminate].
    injection Hrun as <-. left. auto.
  - injection Hrun as <-. left. unfold ChangeOptions.
    destruct (negb _); simpl; auto.
Qed.

(** A call on a builder that is not ok leaves the sink, the status, the
    offset and everything staged as they are. *)
Lemma step_not_ok (r r' : Rep) (op : Op) :
  ok r = false -> step r op = Some r' ->
  status r' = status r /\ file r' = file r /\ offset r' = offset r /\
  num_entries r' = num_entries r /\ last_key r' = last_key r /\
  data_block r' = data_block r /\ index_block r' = index_block r /\
  filter_block r' = filter_block r.
Proof.
  intros Hok Hrun. destruct op as [key value | | | | opts]; simpl in Hrun.
  - unfold Add in Hrun. destruct (assert _); [|discriminate].
    rewrite Hok in Hrun. injection Hrun as <-. repeat split.
  - pose proof (Flush_open r r' Hrun) as Hopen.
    rewrite Flush_idle in Hrun by auto. injection Hrun as <-. repeat split.
  - destruct (Finish r) as [[r1 st]|] eqn:Hfin; [|discriminate].
    injection Hrun as <-.
    destruct (Finish_kept r r1 st Hfin) as (_ & Hopen & _).
    rewrite Finish_not_ok in Hfin by assumption.
    injection Hfin as <- _. repeat split.
  - unfold Abandon in Hrun. destruct (assert _); [|discriminate].
    injection Hrun as <-. repeat split.
  - injection Hrun as <-. unfold ChangeOptions.
    destruct (negb _); repeat split.
Qed.

(** A call that the builder survives closes it exactly when it is [Finish]
    or [Abandon], and only [ChangeOptions] survives on a closed builder. *)
Lemma step_closed (r r' : Rep) (op : Op) :
  step r op = Some r' ->
  closed r' = closed r || is_closing op /\
  (closed r = true -> is_ChangeOptions op = true).
Proof.
  intros Hrun. destruct op as [key value | | | | opts]; simpl in Hrun.
  - assert (Hopen : closed r = false).
    { unfold Add in Hrun. destruct (closed r); [discriminate | reflexivity]. }
    unfold Add in Hrun. rewrite Hopen in Hrun. simpl in Hrun.
    destruct (ok r) eqn:Hok; simpl in Hrun;
      [|injection Hrun as <-; rewrite Hopen; split; [reflexivity | discriminate]].
    destruct (assert _); [|discriminate].
    destruct (emit_pending_index_entry r key) as [r1|] eqn:Hemit; [|discriminate].
    destruct (emit_kept r r1 key Hemit) as (_ & Hcl1 & _).
    destruct (append_record r1 key value) as [r2|] eqn:Happ; [|discriminate].
    destruct (append_record_effect r1 r2 key value Happ)
      as (_ & _ & _ & _ & _ & Hcl2).
    assert (Hcl3 : closed r' = closed r2).
    { destruct (_ <=? _); [exact (proj2 (Flush_kept r2 r' Hrun))|].
      injection Hrun as <-. reflexivity. }
    rewrite Hopen. split; [simpl; congruence | discriminate].
  - destruct (Flush_kept r r' Hrun) as [_ Hcl].
    rewrite (Flush_open r r' Hrun) in *. split; [exact Hcl | discriminate].
  - destruct (Finish r) as [[r1 st]|] eqn:Hfin; [|discriminate].
    injection Hrun as <-.
    destruct (Finish_kept r r1 st Hfin) as (_ & Hopen & Hcl).
    rewrite Hopen, Hcl. split; [reflexivity | discriminate].
  - unfold Abandon in Hrun. destruct (closed r); [discriminate|].
    injection Hrun as <-. split; [reflexivity | discriminate].
  - injection Hrun as <-. unfold ChangeOptions.
    destruct (negb _); simpl; rewrite orb_false_r; split; reflexivity.
Qed.

(** *** Call sequences *)

Lemma run_app (ops1 ops2 : list Op) :
  forall r r',
    run r (ops1 ++ ops2) = Some r' ->
    exists r1, run r ops1 = Some r1 /\ run r1 ops2 = Some r'.
Proof.
  induction ops1 as [|op ops1 IH]; simpl; intros r r' Hrun.
  - exists r. auto.
  - destruct (step r op) as [r1|]; [|discriminate]. exact (IH r1 r' Hrun).
Qed.

Lemma added_keys_cons (op : Op) (ops : list Op) :
  added_keys (op :: ops) = added_keys [op] ++ added_keys ops.
Proof. destruct op; reflexivity. Qed.

Lemma step_ok_back (r r' : Rep) (op : Op) :
  step r op = Some r' -> ok r' = true -> ok r = true.
Proof.
  intros Hstep Hok'. destruct (ok r) eqn:Hok; [reflexivity|].
  destruct (step_not_ok r r' op Hok Hstep) as (Hs & _).
  unfold ok in *. congruence.
Qed.

Lemma run_effect (ops : list Op) :
  forall r r',
    run r ops = Some r' ->
    num_entries r <= INT64_MAX ->
    num_entries r <= num_entries r'
    <= num_entries r + Z.of_nat (List.length (added_keys ops)) /\
    num_entries r' <= INT64_MAX /\
    option_map fst (filter_view r') = option_map fst (filter_view r) /\
    (ok r' = true ->
     ok r = true /\
     num_entries r' = num_entries r + Z.of_nat (List.length (added_keys ops)) /\
     filter_view r'
     = option_map (fun v => (fst v, snd v ++ added_keys ops)) (filter_view r)).
Proof.
  induction ops as [|op ops IH]; intros r r' Hrun Hmax.
  - simpl in Hrun. injection Hrun as <-. simpl.
    split; [lia|]. split; [exact Hmax|]. split; [reflexivity|].
    intros Hok. split; [exact Hok|]. split; [lia|].
    destruct (filter_view r) as [[p ks]|]; simpl; [rewrite app_nil_r|];
      reflexivity.
  - simpl in Hrun. destruct (step r op) as [r1|] eqn:Hstep; [|discriminate].
    rewrite added_keys_cons, length_app.
    destruct (step_effect r r1 op Hstep)
      as [(Hor & Hn & Hf) | (key & value & -> & Hok & Hlt & Hn & Hf)].
    + destruct (IH r1 r' Hrun ltac:(lia)) as (Hle & Hmax' & Hpol & Hexact).
      split; [lia|]. split; [exact Hmax'|]. split; [congruence|].
      intros Hok'. destruct (Hexact Hok') as (Hok1 & Hn' & Hf').
      pose proof (step_ok_back r r1 op Hstep Hok1) as Hok.
      destruct Hor as [Hno | Hnone]; [congruence|].
      rewrite Hnone. simpl. split; [exact Hok|]. split; congruence.
    + destruct (IH r1 r' Hrun ltac:(lia)) as (Hle & Hmax' & Hpol & Hexact).
      simpl. split; [lia|]. split; [exact Hmax'|]. split.
      * rewrite Hpol, Hf. destruct (filter_view r) as [[p ks]|]; reflexivity.
      * intros Hok'. destruct (Hexact Hok') as (_ & Hn' & Hf').
        split; [exact Hok|]. split; [lia|]. rewrite Hf', Hf.
        destruct (filter_view r) as [[p ks]|]; simpl; [|reflexivity].
        rewrite <- app_assoc. reflexivity.
Qed.

Lemma run_closed (ops : list Op) :
  forall r r',
    run r ops = Some r' ->
    closed r' = closed r || existsb is_closing ops /\
    (closed r = true -> forallb is_ChangeOptions ops = true).
Proof.
  induction ops as [|op ops IH]; simpl; intros r r' Hrun.
  - injection Hrun as <-. rewrite orb_false_r. auto.
  - destruct (step r op) as [r1|] eqn:Hstep; [|discriminate].
    destruct (step_closed r r1 op Hstep) as [Hcl Honly].
    destruct (IH r1 r' Hrun) as [Hcl' Honly'].
    rewrite Hcl', Hcl, orb_assoc. split; [reflexivity|].
    intros Hclosed. rewrite (Honly Hclosed). simpl. apply Honly'.
    rewrite Hcl, Hclosed. reflexivity.
Qed.

Lemma filter_policy_reachable (opt : Options) (f : WritableFile)
    (ops : list Op) (r : Rep) :
  run (TableBuilder_new opt f) ops = Some r ->
  forall fb, filter_block r = Some fb -> policy_ fb = filter_policy opt.
Proof.
  intros Hrun fb Hfb.
  assert (H0 : num_entries (TableBuilder_new opt f) = 0 /\
               option_map fst (filter_view (TableBuilder_new opt f))
               = if filter_policy opt =? nullptr then None
                 else Some (filter_policy opt)).
  { unfold TableBuilder_new, Rep_new, filter_view. fields.
    destruct (filter_policy opt =? nullptr); split; reflexivity. }
  destruct H0 as [H0 Hview].
  destruct (run_effect ops _ r Hrun) as (_ & _ & Hpol & _);
    [rewrite H0; unfold INT64_MAX; lia|].
  rewrite Hview in Hpol. unfold filter_view in Hpol. rewrite Hfb in Hpol.
  simpl in Hpol. destruct (filter_policy opt =? nullptr); congruence.
Qed.

(** X4.  Once the status is not ok, no call gets anything to the sink any
    more: whatever calls follow ([Add], [Flush], [Finish], [Abandon],
    [ChangeOptions]), the sink's log, the status, the offset, the record
    count and what is staged in the accumulators and the filter builder stay
    as they are. *)
Theorem failed_builder_stays_silent (r r' : Rep) (ops : list Op) :
  ok r = false ->
  run r ops = Some r' ->
  status_of r' = status_of r /\ file r' = file r /\
  FileSize r' = FileSize r /\ NumEntries r' = NumEntries r /\
  last_key r' = last_key r /\
  data_block r' = data_block r /\ index_block r' = index_block r /\
  filter_block r' = filter_block r.
Proof.
  unfold status_of, FileSize, NumEntries.
  revert r. induction ops as [|op ops IH]; simpl; intros r Hok Hrun.
  - injection Hrun as <-. repeat split.
  - destruct (step r op) as [r1|] eqn:Hstep; [|discriminate].
    destruct (step_not_ok r r1 op Hok Hstep)
      as (Hs & Hf & Ho & Hn & Hl & Hd & Hx & Hfb).
    assert (Hok1 : ok r1 = false) by (unfold ok in *; congruence).
    destruct (IH r1 Hok1 Hrun) as (Hs' & Hf' & Ho' & Hn' & Hl' & Hd' & Hx' & Hfb').
    repeat split; congruence.
Qed.

(** X5.  [NumEntries()] never exceeds the number of [Add] calls made, and
    equals it as long as the status is ok; the counter stays within
    [int64_t], so reading it as [uint64_t] changes nothing. *)
Theorem NumEntries_counts_Adds (opt : Options) (f : WritableFile)
    (ops : list Op) (r : Rep) :
  run (TableBuilder_new opt f) ops = Some r ->
  NumEntries r = num_entries r /\
  0 <= NumEntries r <= Z.of_nat (List.length (added_keys ops)) /\
  NumEntries r <= INT64_MAX /\
  (ok r = true -> NumEntries r = Z.of_nat (List.length (added_keys ops))).
Proof.
  intros Hrun.
  assert (H0 : num_entries (TableBuilder_new opt f) = 0).
  { unfold TableBuilder_new, Rep_new. fields.
    destruct (filter_policy opt =? nullptr); reflexivity. }
  destruct (run_effect ops _ r Hrun) as (Hle & Hmax & _ & Hexact);
    [rewrite H0; unfold INT64_MAX; lia|].
  rewrite H0 in *.
  assert (Hwrap : NumEntries r = num_entries r).
  { unfold NumEntries, wrap64. apply Z.mod_small.
    unfold INT64_MAX in Hmax. lia. }
  rewrite Hwrap. split; [reflexivity|]. split; [lia|]. split; [exact Hmax|].
  intros Hok. destruct (Hexact Hok) as (_ & Hn & _). lia.
Qed.

(** X6.  The filter builder exists exactly when the options given at
    construction name a filter policy, and it stays the one built for that
    policy whatever options [ChangeOptions] installs later; as long as the
    status is ok, the keys it received through [AddKey] are the keys of the
    [Add] calls, in order. *)
Theorem filter_receives_added_keys (opt : Options) (f : WritableFile)
    (ops : list Op) (r : Rep) :
  run (TableBuilder_new opt f) ops = Some r ->
  (filter_policy opt = nullptr -> filter_block r = None) /\
  (filter_policy opt <> nullptr ->
   exists fb,
     filter_block r = Some fb /\ policy_ fb = filter_policy opt /\
     (ok r = true -> delivered_keys (filter_calls fb) = added_keys ops)).
Proof.
  intros Hrun.
  assert (H0 : num_entries (TableBuilder_new opt f) = 0 /\
               filter_view (TableBuilder_new opt f)
               = if filter_policy opt =? nullptr then None
                 else Some (filter_policy opt, [])).
  { unfold TableBuilder_new, Rep_new, filter_view. fields.
    destruct (filter_policy opt =? nullptr); split; reflexivity. }
  destruct H0 as [H0 Hview].
  destruct (run_effect ops _ r Hrun) as (_ & _ & Hpol & Hexact);
    [rewrite H0; unfold INT64_MAX; lia|].
  rewrite Hview in *. unfold filter_view in *. split; intros Hp.
  - apply Z.eqb_eq in Hp. rewrite Hp in Hpol.
    destruct (filter_block r); [discriminate | reflexivity].
  - apply Z.eqb_neq in Hp. rewrite Hp in *.
    destruct (filter_block r) as [fb|]; [|discriminate].
    exists fb. simpl in *. split; [reflexivity|]. split; [congruence|].
    intros Hok. destruct (Hexact Hok) as (_ & _ & Heq). congruence.
Qed.

(** X7.  In a call sequence that trips no assertion, a [Finish] or an
    [Abandon] is followed by [ChangeOptions] calls only (so a builder is
    closed at most once, and nothing is added to or flushed from a closed
    builder), the builder is closed exactly when the sequence contains a
    [Finish] or an [Abandon], and only then does the destructor's assertion
    hold. *)
Theorem closes_once (opt : Options) (f : WritableFile) (ops : list Op)
    (r : Rep) :
  run (TableBuilder_new opt f) ops = Some r ->
  closed r = existsb is_closing ops /\
  (TableBuilder_delete r = Some tt <-> existsb is_closing ops = true) /\
  (forall before op after,
     ops = before ++ op :: after -> is_closing op = true ->
     existsb is_closing before = false /\
     forallb is_ChangeOptions after = true).
Proof.
  intros Hrun.
  assert (H0 : closed (TableBuilder_new opt f) = false).
  { unfold TableBuilder_new, Rep_new. fields.
    destruct (filter_policy opt =? nullptr); reflexivity. }
  destruct (run_closed ops _ r Hrun) as [Hcl _]. rewrite H0 in Hcl.
  simpl in Hcl. split; [exact Hcl|]. split.
  - unfold TableBuilder_delete. rewrite Hcl.
    destruct (existsb is_closing ops); simpl; split; congruence.
  - intros before op after -> Hop.
    destruct (run_app before (op :: after) _ r Hrun) as (r1 & Hbefore & Hrest).
    destruct (run_closed before _ r1 Hbefore) as [Hcl1 _].
    rewrite H0 in Hcl1. simpl in Hcl1, Hrest.
    destruct (step r1 op) as [r2|] eqn:Hstep; [|discriminate].
    destruct (step_closed r1 r2 op Hstep) as [Hcl2 Honly].
    destruct (run_closed after r2 r Hrest) as [_ Hafter].
    split.
    + rewrite <- Hcl1. destruct (closed r1); [|reflexivity].
      specialize (Honly eq_refl). destruct op; discriminate.
    + apply Hafter. rewrite Hcl2, Hop. apply orb_true_r.
Qed.

(** X8.  A [Flush] right after a [Flush] does nothing: the state, and with
    it the sink's log, is unchanged.  After a [Flush] that leaves the status
    ok the data-block accumulator is empty. *)
Theorem Flush_twice (r r1 : Rep) :
  Flush r = Some r1 ->
  Flush r1 = Some r1 /\
  (ok r1 = true -> BlockBuilder_empty (data_block r1) = true).
Proof.
  intros Hrun.
  destruct (Flush_kept r r1 Hrun) as [_ Hcl].
  destruct (Flush_Some_cases r r1 Hrun)
    as [Hopen [[-> Hidle] | (_ & _ & _ & r2 & Hraw & Heq)]].
  - split; [exact Hrun|]. intros Hok. destruct Hidle; congruence.
  - assert (Hempty : BlockBuilder_empty (data_block r1) = true).
    { rewrite Heq, Flush_tail_frame. reflexivity. }
    split; [|intros _; exact Hempty].
    apply Flush_idle; [congruence | auto].
Qed.

(** *** The records, the data blocks and the index *)

Lemma changed_options_app (l1 l2 : list Op) :
  forall opt,
    changed_options opt (l1 ++ l2)
    = changed_options opt l1 ++ changed_options (options_after opt l1) l2.
Proof.
  induction l1 as [|op l1 IH]; intros opt; simpl; [reflexivity|].
  destruct op; simpl; rewrite IH, ?app_assoc; reflexivity.
Qed.

Lemma added_entries_app (l1 l2 : list Op) :
  forall opt,
    added_entries opt (l1 ++ l2)
    = added_entries opt l1 ++ added_entries (options_after opt l1) l2.
Proof.
  induction l1 as [|op l1 IH]; intros opt; simpl; [reflexivity|].
  destruct op; simpl; rewrite IH; reflexivity.
Qed.

(** Without the options, the entries added are the records of the [Add]
    calls. *)
Lemma added_entries_records (ops : list Op) :
  forall opt, List.map snd (added_entries opt ops) = added_records ops.
Proof.
  induction ops as [|op ops IH]; intros opt; simpl; [reflexivity|].
  destruct op; simpl; rewrite IH; reflexivity.
Qed.

Lemma records_of_concat (groups : list (list (Options * (string * string)))) :
  List.map snd (List.concat groups) = List.concat (records_of groups).
Proof. unfold records_of. apply concat_map. Qed.

Lemma records_of_app (g1 g2 : list (list (Options * (string * string)))) :
  records_of (g1 ++ g2) = records_of g1 ++ records_of g2.
Proof. unfold records_of. apply map_app. Qed.

Lemma length_records_of (groups : list (list (Options * (string * string)))) :
  List.length (records_of groups) = List.length groups.
Proof. unfold records_of. apply length_map. Qed.

Lemma records_of_nonempty (groups : list (list (Options * (string * string)))) :
  Forall (fun g => g <> []) groups ->
  Forall (fun g => g <> []) (records_of groups).
Proof.
  unfold records_of. intros H. apply Forall_map.
  apply (Forall_impl _ (P := fun g => g <> [])); [|exact H].
  intros [|e g] Hne; [contradiction Hne; reflexivity | discriminate].
Qed.

(** What a call does to the options. *)
Lemma step_options (r r' : Rep) (op : Op) :
  step r op = Some r' -> options r' = options_after (options r) [op].
Proof.
  intros Hrun. destruct op as [key value | | | | opts]; simpl in *.
  - unfold Add in Hrun.
    destruct (assert (negb (closed r))); [|discriminate].
    destruct (negb (ok r)); [injection Hrun as <-; reflexivity|].
    destruct (assert _); [|discriminate].
    destruct (emit_pending_index_entry r key) as [r1|] eqn:Hemit; [|discriminate].
    destruct (emit_kept r r1 key Hemit) as ((_ & _ & Ho1 & _) & _).
    destruct (append_record r1 key value) as [r2|] eqn:Happ; [|discriminate].
    destruct (append_record_effect r1 r2 key value Happ) as (_ & _ & _ & Ho2 & _).
    destruct (_ <=? _); [|injection Hrun as <-; congruence].
    destruct (Flush_kept r2 r' Hrun) as [(_ & _ & Ho3 & _) _]. congruence.
  - destruct (Flush_kept r r' Hrun) as [(_ & _ & Ho & _) _]. exact Ho.
  - destruct (Finish r) as [[r1 st]|] eqn:Hfin; [|discriminate].
    injection Hrun as <-.
    destruct (Finish_kept r r1 st Hfin) as ((_ & _ & Ho & _) & _). exact Ho.
  - unfold Abandon in Hrun. destruct (assert _); [|discriminate].
    injection Hrun as <-. reflexivity.
  - injection Hrun as <-. unfold ChangeOptions, installed.
    destruct (comparator opts =? comparator (options r)); reflexivity.
Qed.

Lemma added_keys_records (ops : list Op) :
  added_keys ops = List.map fst (added_records ops).
Proof.
  induction ops as [|op ops IH]; simpl; [reflexivity|].
  destruct op; simpl; rewrite IH; reflexivity.
Qed.

Lemma increasing_snoc (c : Comparator) (keys : list string) (k : string) :
  increasing c keys ->
  (keys <> [] -> 0 < Compare c k (List.last keys EmptyString)) ->
  increasing c (keys ++ [k]).
Proof.
  induction keys as [|k1 keys IH]; intros Hinc Hlast; [simpl; auto|].
  destruct Hinc as [Hhead Htail]. destruct keys as [|k2 keys].
  - simpl. split; [apply Hlast; discriminate | auto].
  - split; [exact Hhead|]. apply IH; [exact Htail|].
    intros _. apply Hlast. discriminate.
Qed.

Lemma holds_weaken (os os' : list Options)
    (group : list (Options * (string * string))) (block : string * string) :
  holds os group block -> holds (os ++ os') group block.
Proof.
  intros (Hne & o & type & Hin & Hpay & Htr).
  split; [exact Hne|]. exists o, type.
  split; [apply in_or_app; left; exact Hin | split; assumption].
Qed.

Lemma block_handles_app (b1 b2 : list (string * string)) :
  forall start,
    block_handles start (b1 ++ b2)
    = block_handles start b1 ++ block_handles (start + blocks_size b1) b2.
Proof.
  induction b1 as [|[p t] b1 IH]; intros start; simpl.
  - rewrite Z.add_0_r. reflexivity.
  - rewrite IH. do 3 f_equal. lia.
Qed.

Lemma filter_trace_app (groups : list (list (string * string)))
    (blocks : list (string * string)) :
  List.length groups = List.length blocks ->
  forall start group c t,
    filter_trace start (groups ++ [group]) (blocks ++ [(c, t)])
    = filter_trace start groups blocks
      ++ List.map CallAddKey (List.map fst group)
      ++ [CallStartBlock
            (wrap64 (start + blocks_size blocks + (size c + kBlockTrailerSize)))].
Proof.
  revert blocks.
  induction groups as [|g groups IH]; intros [|[p t0] blocks] Hlen start group c t;
    try discriminate.
  - simpl. rewrite Z.add_0_r. reflexivity.
  - injection Hlen as Hlen. cbn [app filter_trace blocks_size].
    rewrite (IH blocks Hlen). rewrite <- !app_assoc. cbn [app].
    replace (start + (size p + kBlockTrailerSize + blocks_size blocks))
      with (start + (size p + kBlockTrailerSize) + blocks_size blocks) by lia.
    reflexivity.
Qed.

Lemma Flush_written (r r' : Rep) :
  Flush r = Some r' -> ok r = true -> ok r' = true ->
  BlockBuilder_empty (data_block r) = false ->
  let c := fst (payload_of r (data_block r)) in
  let t := snd (payload_of r (data_block r)) in
  pending_index_entry r = false /\
  appended (file_log (file r'))
  = appended (file_log (file r)) ++ [c; trailer_of c t] /\
  offset r' = wrap64 (offset r + (size c + kBlockTrailerSize)) /\
  pending_index_entry r' = true /\
  pending_handle r' = {| handle_offset := offset r; handle_size := size c |} /\
  data_block r' = BlockBuilder_Reset (data_block r) /\
  index_block r' = index_block r /\
  last_key r' = last_key r /\
  filter_block r' = option_map (StartBlock (offset r')) (filter_block r) /\
  file_log (file r')
  = file_log (file r)
    ++ [(CallAppend c, Status_OK); (CallAppend (trailer_of c t), Status_OK);
        (CallFlush, Status_OK)].
Proof.
  intros Hrun Hok Hok' Hne c t.
  destruct (Flush_Some_cases r r' Hrun)
    as [Hopen [[_ [H | H]] | (_ & _ & Hpend & r1 & Hraw & Heq)]];
    try congruence.
  fold c t in Hraw, Heq.
  rewrite (raw_write_frame _ _ _ _ Hraw) in Heq.
  assert (Hok1 : ok r1 = true).
  { destruct (ok r1) eqn:Hok1; [reflexivity|]. exfalso.
    rewrite Heq in Hok'. unfold Flush_tail in Hok'. fields.
    rewrite Hok1 in Hok'. fields. destruct (filter_block r); fields; congruence. }
  destruct (raw_write_ok _ _ _ _ Hraw Hok1) as (Hlog & Hoff & Hst).
  subst r'. unfold Flush_tail. fields. rewrite Hok1. fields.
  destruct (File_Flush (file r1)) as [f1 st1] eqn:Hff. fields.
  assert (Happ : appended (file_log f1)
                 = appended (file_log (file r)) ++ [c; trailer_of c t]).
  { rewrite (File_Flush_appended _ _ _ Hff), Hlog, appended_app.
    rewrite appended_accepted. reflexivity. }
  assert (Hflog : file_log f1
                  = file_log (file r)
                    ++ [(CallAppend c, Status_OK);
                        (CallAppend (trailer_of c t), Status_OK);
                        (CallFlush, Status_OK)]).
  { rewrite (File_Flush_log _ _ _ Hff), Hlog, <- app_assoc.
    assert (Hst1 : st1 = Status_OK).
    { apply Status_ok_inv. unfold Flush_tail in Hok'.
      fields. rewrite Hok1 in Hok'. fields. rewrite Hff in Hok'. fields.
      destruct (filter_block r); exact Hok'. }
    rewrite Hst1. reflexivity. }
  destruct (filter_block r) eqn:Hfb; fields; rewrite ?Hfb; repeat split;
    assumption.
Qed.

Lemma length_block_handles (blocks : list (string * string)) :
  forall start, List.length (block_handles start blocks) = List.length blocks.
Proof.
  induction blocks as [|[p t] blocks IH]; intros start; simpl;
    [reflexivity | rewrite IH; reflexivity].
Qed.

Lemma holds_nonempty (os : list Options)
    (groups : list (list (Options * (string * string))))
    (blocks : list (string * string)) :
  Forall2 (holds os) groups blocks -> Forall (fun g => g <> []) groups.
Proof.
  induction 1 as [|g b groups blocks [Hne _] _ IH]; constructor; assumption.
Qed.

Lemma last_app_nonempty (A : Type) (l1 l2 : list A) (d : A) :
  l2 <> [] -> List.last (l1 ++ l2) d = List.last l2 d.
Proof.
  intros Hne. induction l1 as [|x l1 IH]; [reflexivity|].
  simpl. destruct (l1 ++ l2) eqn:Happ; [|exact IH].
  apply app_eq_nil in Happ. destruct Happ. contradiction.
Qed.

Lemma separates_flush (c : Comparator) (keys : list string)
    (rest : list (string * string)) :
  forall groups,
    separates c keys groups rest -> separates c keys (groups ++ [rest]) [].
Proof.
  induction keys as [|k keys IH]; intros [|g groups]; simpl; auto;
    [intros []|].
  intros (H1 & H2 & H3). split; [exact H1|]. split; [|exact (IH groups H3)].
  rewrite concat_app. simpl. rewrite !app_nil_r. exact H2.
Qed.

Lemma separates_grow (c : Comparator) (keys : list string)
    (rest : list (string * string)) (x : string * string) :
  forall groups,
    separates c keys groups rest -> (rest = [] -> groups = []) ->
    separates c keys groups (rest ++ [x]).
Proof.
  induction keys as [|k keys IH]; intros [|g groups]; simpl; auto.
  intros (H1 & H2 & H3) Hstable.
  destruct rest as [|y rest]; [specialize (Hstable eq_refl); discriminate|].
  split; [exact H1|]. split; [|apply IH; [exact H3 | discriminate]].
  destruct (List.concat groups) as [|e l]; exact H2.
Qed.

(** The key emitted for the last block: it is not below the last key
    before it and is below the first key after it, if any. *)
Lemma separates_emit (c : Comparator) (keys : list string)
    (sep : string) (rest : list (string * string)) :
  forall groups,
    (List.length keys + 1 = List.length groups)%nat ->
    Forall (fun g => g <> []) groups ->
    separates c keys groups [] ->
    Compare c (List.last (List.map fst (List.concat groups)) EmptyString) sep
    <= 0 ->
    match List.map fst rest with
    | next :: _ => Compare c sep next < 0
    | [] => True
    end ->
    separates c (keys ++ [sep]) groups rest.
Proof.
  induction keys as [|k keys IH]; intros [|g groups] Hlen Hne Hsep Hlo Hhi;
    simpl in Hlen; try lia.
  - destruct groups; [|simpl in Hlen; lia].
    simpl in *. rewrite app_nil_r in Hlo. auto.
  - destruct Hsep as (H1 & H2 & H3).
    inversion Hne as [|g0 gs Hg Hne' Heq]. subst.
    destruct groups as [|g' groups]; [simpl in Hlen; lia|].
    inversion Hne' as [|g0 gs Hg' _ Heq]. subst.
    destruct g' as [|e g']; [contradiction Hg'; reflexivity|].
    cbn [app separates]. split; [exact H1|]. split; [exact H2|].
    apply IH; try assumption; [simpl in *; lia|].
    cbn [List.concat] in Hlo. rewrite map_app in Hlo.
    rewrite last_app_nonempty in Hlo; [exact Hlo|].
    simpl. discriminate.
Qed.

Lemma table_inv_new (opt : Options) (f : WritableFile) :
  table_inv (appended (file_log f)) (comparator opt) (TableBuilder_new opt f)
    [opt] [].
Proof.
  pose proof (core_inv_new opt f) as Hcore.
  unfold TableBuilder_new, Rep_new in *.
  destruct (filter_policy opt =? nullptr); fields;
    (constructor; fields; simpl; auto; intros _; split; [reflexivity|];
     exists [], [];
     split; [constructor; fields; simpl; auto; rewrite app_nil_r; reflexivity|];
     split; [constructor|]; split; [reflexivity|]; split; [reflexivity|];
     split; [|split; [reflexivity | intros _; exact I]];
     intros fb Hfb; try discriminate; injection Hfb as <-; reflexivity).
Qed.

Lemma table_inv_Flush (base : list string) (c0 : Z) (r r' : Rep)
    (os : list Options) (es : list (Options * (string * string))) :
  table_inv base c0 r os es -> Flush r = Some r' ->
  ok r = true -> ok r' = true ->
  table_inv base c0 r' os es.
Proof.
  intros [Hcore Hopt Hcount Hinc Hopen] Hrun Hok Hok'.
  pose proof (core_inv_Flush c0 r r' Hcore Hrun) as Hcore'.
  destruct (Flush_kept r r' Hrun) as [(Hn & _ & Ho & _) Hcl].
  destruct (BlockBuilder_empty (data_block r)) eqn:Hne.
  { pose proof (Flush_open r r' Hrun) as Hop.
    rewrite Flush_idle in Hrun by auto. injection Hrun as <-.
    constructor; assumption. }
  destruct (Flush_written r r' Hrun Hok Hok' Hne)
    as (Hpend & Hlog & Hoff & Hpend' & Hh & Hdb & Hib & Hlk & Hfb' & _).
  constructor; try congruence.
  intros Hop'. rewrite Hcl in Hop'.
  destruct (Hopen Hop')
    as (Hlast & blocks & groups & Hacc & Hholds & Hrecs & Hidx & Hcalls
        & Hstable & Hsep).
  split; [congruence|].
  destruct Hacc as [Hp Ht Hoffr _].
  pose proof (payload_of_block_payload r (data_block r)) as Hpay.
  destruct (payload_of r (data_block r)) as [c t] eqn:Hct. simpl in *.
  exists (blocks ++ [(c, trailer_of c t)]), (groups ++ [added (data_block r)]).
  split; [|split; [|split; [|split; [|split; [|split]]]]].
  - constructor.
    + rewrite Hlog, Hp, pieces_of_app. simpl.
      rewrite !app_nil_r, <- !app_assoc. reflexivity.
    + apply Forall_app. split; [exact Ht|].
      constructor; [apply trailer_of_size | constructor].
    + rewrite Hoff, Hoffr, blocks_size_app. simpl. rewrite wrap64_add_l.
      f_equal. lia.
    + reflexivity.
  - apply Forall2_app; [exact Hholds|]. constructor; [|constructor].
    split.
    + intros Hnil. unfold BlockBuilder_empty in Hne. rewrite Hnil in Hne.
      discriminate.
    + exists (options r), t. split; [exact Hopt|].
      split; [symmetry; exact Hpay | reflexivity].
  - rewrite Hdb, concat_app. simpl. rewrite !app_nil_r. exact Hrecs.
  - rewrite Hib. unfold pending_part in *. rewrite Hpend', Hh.
    rewrite Hpend in Hidx. rewrite app_nil_r in Hidx.
    rewrite block_handles_app, map_app, <- Hidx. simpl.
    rewrite Hoffr. simpl. rewrite Z.add_0_r. reflexivity.
  - intros fb Hfb. rewrite Hfb' in Hfb.
    destruct (filter_block r) as [fb0|]; [|discriminate].
    injection Hfb as <-. cbn [StartBlock filter_call filter_calls].
    rewrite (Hcalls fb0 eq_refl), Hdb, Hoff, Hoffr, records_of_app.
    change (records_of [added (data_block r)]) with [entries (data_block r)].
    rewrite (filter_trace_app (records_of groups) blocks)
      by (rewrite length_records_of; exact (Forall2_length Hholds)).
    rewrite entries_Reset.
    cbn [records_of List.map app footer_piece total_size].
    rewrite wrap64_add_l, app_nil_r, !Z.add_0_r, <- !app_assoc.
    reflexivity.
  - intros Hno. congruence.
  - intros Hc. rewrite Hib, Hdb, entries_Reset, records_of_app.
    change (records_of [added (data_block r)]) with [entries (data_block r)].
    apply separates_flush. exact (Hsep Hc).
Qed.

Lemma emit_fields (r r1 : Rep) (key : string) :
  emit_pending_index_entry r key = Some r1 ->
  file r1 = file r /\ offset r1 = offset r /\ status r1 = status r /\
  data_block r1 = data_block r /\ options r1 = options r /\
  filter_block r1 = filter_block r /\
  List.map snd (entries (index_block r1)) ++ pending_part r1
  = List.map snd (entries (index_block r)) ++ pending_part r /\
  List.map fst (entries (index_block r1))
  = List.map fst (entries (index_block r))
    ++ (if pending_index_entry r then
          [FindShortestSeparator (comparator_at (comparator (options r)))
             (last_key r) key]
        else []).
Proof.
  unfold emit_pending_index_entry, pending_part. intros Hrun.
  destruct (pending_index_entry r) eqn:Hpend;
    [destruct (assert _); [|discriminate]|];
    injection Hrun as <-; fields; rewrite ?Hpend, ?map_app, ?app_nil_r;
    repeat split.
Qed.

Lemma append_fields (r r' : Rep) (key value : string) :
  append_record r key value = Some r' ->
  file r' = file r /\ offset r' = offset r /\ status r' = status r /\
  index_block r' = index_block r /\
  pending_index_entry r' = pending_index_entry r /\
  pending_handle r' = pending_handle r /\
  last_key r' = key /\
  filter_block r' = option_map (AddKey key) (filter_block r).
Proof.
  unfold append_record. intros Hrun.
  destruct (filter_block r) as [fb|] eqn:Hfb; fields;
    (destruct (assert _); [|discriminate]);
    injection Hrun as <-; fields; rewrite ?Hfb; repeat split.
Qed.

Lemma table_inv_Add (base : list string) (c0 : Z) (r r' : Rep)
    (os : list Options) (es : list (Options * (string * string)))
    (key value : string) :
  table_inv base c0 r os es -> Add r key value = Some r' ->
  ok r = true -> ok r' = true ->
  table_inv base c0 r' os (es ++ [(options r, (key, value))]).
Proof.
  intros Hinv Hrun Hok Hok'.
  pose proof (core_inv_Add c0 r r' key value (tab_core _ _ _ _ _ Hinv) Hrun)
    as Hcore'.
  destruct Hinv as [Hcore Hopt Hcount Hinc Hopen].
  unfold Add in Hrun.
  destruct (closed r) eqn:Hop; [discriminate|]. simpl in Hrun.
  rewrite Hok in Hrun. simpl in Hrun.
  match type of Hrun with (assert ?b ;;; _) = _ =>
    destruct b eqn:Hord; [|discriminate] end.
  simpl in Hrun.
  destruct (emit_pending_index_entry r key) as [r1|] eqn:Hemit; [|discriminate].
  destruct (core_inv_emit c0 r r1 key Hcore Hemit) as (Hcore1 & Hpe1 & Hn1 & _).
  destruct (emit_kept r r1 key Hemit) as (_ & Hcl1 & _).
  destruct (emit_fields r r1 key Hemit)
    as (Hf1 & Ho1 & Hs1 & Hd1 & Hopt1 & Hfb1 & Hidx1 & Hkeys1).
  destruct (append_record r1 key value) as [r2|] eqn:Happ; [|discriminate].
  destruct (core_inv_append c0 r1 r2 key value Hcore1 Hpe1 Happ)
    as (Hcore2 & _ & Hn2 & Hd2).
  destruct (append_record_effect r1 r2 key value Happ)
    as (_ & _ & _ & Hopt2 & _ & Hcl2).
  destruct (append_fields r1 r2 key value Happ)
    as (Hf2 & Ho2 & Hs2 & Hib2 & Hpe2 & Hph2 & Hlk2 & Hfb2).
  rewrite Hd1, Hopt1 in Hd2.
  destruct (Hopen eq_refl)
    as (Hlast & blocks & groups & Hacc & Hholds & Hrecs & Hidx & Hcalls
        & Hstable & Hsep).
  assert (Hordered : 0 < num_entries r ->
                     0 < Compare (comparator_at c0) key (last_key r)).
  { intros Hpos. rewrite <- (inv_comparator c0 r Hcore).
    apply Z.ltb_lt in Hpos. rewrite Hpos in Hord.
    apply Z.ltb_lt. exact Hord. }
  assert (Hinv2 : table_inv base c0 r2 os (es ++ [(options r, (key, value))])).
  { constructor.
    - exact Hcore2.
    - congruence.
    - rewrite Hn2, Hn1, Hcount, length_app. simpl. lia.
    - rewrite !map_app. simpl. apply increasing_snoc; [exact Hinc|].
      intros Hsome. rewrite <- Hlast. apply Hordered.
      rewrite Hcount. destruct es; [contradiction Hsome; reflexivity|].
      simpl. lia.
    - intros _. split.
      + rewrite !map_app. simpl. rewrite last_last. exact Hlk2.
      + exists blocks, groups.
        split; [|split; [exact Hholds|split; [|split; [|split; [|split]]]]].
        * apply (accounted_same_io base r); congruence.
        * rewrite Hd2. simpl. rewrite app_assoc, Hrecs. reflexivity.
        * unfold pending_part in *. rewrite Hib2, Hpe2, Hph2. congruence.
        * intros fb Hfb. rewrite Hfb2, Hfb1 in Hfb.
          destruct (filter_block r) as [fb0|]; [|discriminate].
          injection Hfb as <-. cbn [AddKey filter_call filter_calls].
          rewrite (Hcalls fb0 eq_refl), Hd2, entries_Add. rewrite !map_app.
          cbn [List.map fst]. rewrite app_comm_cons, <- !app_assoc.
          reflexivity.
        * intros _ Hnil. rewrite Hd2 in Hnil.
          cbn [BlockBuilder_Add added] in Hnil.
          apply app_eq_nil in Hnil. destruct Hnil; discriminate.
        * intros Hc. specialize (Hsep Hc).
          rewrite Hib2, Hkeys1, Hd2, entries_Add.
          destruct (pending_index_entry r) eqn:Hpend.
          -- assert (Hempty : BlockBuilder_empty (data_block r) = true).
             { destruct (BlockBuilder_empty (data_block r)) eqn:Hempty;
                 [reflexivity|].
               destruct (inv_nonempty c0 r Hcore Hempty). congruence. }
             pose proof (added_empty _ Hempty) as Hnil.
             rewrite (entries_empty _ Hempty) in *.
             rewrite Hnil, app_nil_r in Hrecs. cbn [app].
             pose proof (Hordered (inv_pending c0 r Hcore Hpend)) as Hgt.
             destruct (Hc (last_key r) key Hgt) as [Hlo Hhi].
             rewrite (inv_comparator c0 r Hcore).
             apply separates_emit; try assumption.
             ++ unfold pending_part in Hidx. rewrite Hpend in Hidx.
                apply (f_equal (@List.length _)) in Hidx.
                rewrite length_app, !length_map, length_block_handles in Hidx.
                rewrite length_records_of, (Forall2_length Hholds).
                simpl in Hidx. rewrite length_map. lia.
             ++ exact (records_of_nonempty _ (holds_nonempty _ _ _ Hholds)).
             ++ rewrite <- records_of_concat, Hrecs, <- Hlast. exact Hlo.
          -- rewrite app_nil_r. apply separates_grow; [exact Hsep|].
             intros Hnil. unfold records_of.
             rewrite (Hstable eq_refl); [reflexivity|].
             unfold entries in Hnil. apply map_eq_nil in Hnil. exact Hnil. }
  destruct (_ <=? _); [|injection Hrun as <-; exact Hinv2].
  apply (table_inv_Flush base c0 r2 r' os _ Hinv2 Hrun); [|exact Hok'].
  unfold ok in *. congruence.
Qed.

Lemma table_inv_step (base : list string) (c0 : Z) (r r' : Rep) (op : Op)
    (os : list Options) (es : list (Options * (string * string))) :
  table_inv base c0 r os es -> step r op = Some r' ->
  ok r = true -> ok r' = true ->
  table_inv base c0 r' (os ++ changed_options (options r) [op])
    (es ++ added_entries (options r) [op]).
Proof.
  intros Hinv Hrun Hok Hok'.
  pose proof (core_inv_step c0 r r' op (tab_core _ _ _ _ _ Hinv) Hrun) as Hcore'.
  destruct op as [key value | | | | opts]; simpl in *; rewrite ?app_nil_r.
  - exact (table_inv_Add base c0 r r' os es key value Hinv Hrun Hok Hok').
  - exact (table_inv_Flush base c0 r r' os es Hinv Hrun Hok Hok').
  - destruct (Finish r) as [[r1 st]|] eqn:Hfin; [|discriminate].
    injection Hrun as <-.
    destruct (Finish_kept r r1 st Hfin) as ((Hn & _ & Ho & _) & _ & Hcl).
    destruct Hinv as [Hcore Hopt Hcount Hinc Hopen].
    constructor; try congruence.
  - unfold Abandon in Hrun. destruct (assert _); [|discriminate].
    injection Hrun as <-.
    destruct Hinv as [Hcore Hopt Hcount Hinc Hopen].
    constructor; fields; try assumption. discriminate.
  - injection Hrun as <-. unfold ChangeOptions in *.
    destruct (comparator opts =? comparator (options r)); simpl in *;
      [|rewrite app_nil_r; exact Hinv].
    destruct Hinv as [Hcore Hopt Hcount Hinc Hopen].
    constructor; fields; try assumption;
      [apply in_or_app; right; left; reflexivity|].
    intros Hop. destruct (Hopen Hop)
      as (Hlast & blocks & groups & Hacc & Hh & Hrecs & Hidx & Hcalls
          & Hstable & Hsep).
    split; [exact Hlast|]. exists blocks, groups.
    split; [apply (accounted_same_io base r); auto|].
    split; [|repeat split; assumption].
    apply (Forall2_impl (holds (os ++ [opts]))
             (fun g b => holds_weaken os [opts] g b)).
    exact Hh.
Qed.

Lemma run_ok_back (ops : list Op) :
  forall r r', run r ops = Some r' -> ok r' = true -> ok r = true.
Proof.
  induction ops as [|op ops IH]; simpl; intros r r' Hrun Hok'.
  - injection Hrun as <-. exact Hok'.
  - destruct (step r op) as [r1|] eqn:Hstep; [|discriminate].
    exact (step_ok_back r r1 op Hstep (IH r1 r' Hrun Hok')).
Qed.

Lemma table_inv_run (base : list string) (c0 : Z) (ops : list Op) :
  forall r r' os es,
    table_inv base c0 r os es -> run r ops = Some r' -> ok r' = true ->
    table_inv base c0 r' (os ++ changed_options (options r) ops)
      (es ++ added_entries (options r) ops).
Proof.
  induction ops as [|op ops IH]; intros r r' os es Hinv Hrun Hok'.
  - simpl in *. injection Hrun as <-. rewrite !app_nil_r. exact Hinv.
  - simpl in Hrun. destruct (step r op) as [r1|] eqn:Hstep; [|discriminate].
    pose proof (run_ok_back ops r1 r' Hrun Hok') as Hok1.
    pose proof (step_ok_back r r1 op Hstep Hok1) as Hok.
    pose proof (table_inv_step base c0 r r1 op os es Hinv Hstep Hok Hok1)
      as Hinv1.
    pose proof (IH r1 r' _ _ Hinv1 Hrun Hok') as Hinv'.
    rewrite (step_options r r1 op Hstep) in Hinv'.
    rewrite <- !app_assoc in Hinv'.
    rewrite <- (changed_options_app [op] ops) in Hinv'.
    rewrite <- (added_entries_app [op] ops) in Hinv'.
    exact Hinv'.
Qed.

Lemma table_inv_reachable (opt : Options) (f : WritableFile) (ops : list Op)
    (r : Rep) :
  run (TableBuilder_new opt f) ops = Some r -> ok r = true ->
  table_inv (appended (file_log f)) (comparator opt) r
    (opt :: changed_options opt ops) (added_entries opt ops).
Proof.
  intros Hrun Hok.
  pose proof (table_inv_run _ _ ops _ r [opt] [] (table_inv_new opt f) Hrun Hok)
    as Hinv.
  assert (Hopt : options (TableBuilder_new opt f) = opt).
  { unfold TableBuilder_new, Rep_new.
    destruct (filter_policy opt =? nullptr); reflexivity. }
  rewrite Hopt in Hinv. exact Hinv.
Qed.

(** *** Reading a block back through its handle *)

Lemma append_assoc (a b c : string) :
  String.append (String.append a b) c = String.append a (String.append b c).
Proof. induction a as [|x a IH]; simpl; [reflexivity | rewrite IH; reflexivity]. Qed.

Lemma size_append (a b : string) : size (String.append a b) = size a + size b.
Proof.
  unfold size. induction a as [|x a IH]; simpl String.length; [lia|].
  rewrite !Nat2Z.inj_succ. lia.
Qed.

Lemma substring_skip (a s : string) (m : nat) :
  substring (String.length a) m (String.append a s) = substring 0 m s.
Proof. induction a as [|x a IH]; simpl; [reflexivity | exact IH]. Qed.

Lemma substring_prefix (p s : string) :
  substring 0 (String.length p) (String.append p s) = p.
Proof.
  induction p as [|x p IH]; simpl; [destruct s; reflexivity|].
  rewrite IH. reflexivity.
Qed.

Lemma read_at_middle (a p s : string) (h : BlockHandle) :
  handle_offset h = size a -> handle_size h = size p ->
  read_at (String.append a (String.append p s)) h = p.
Proof.
  unfold read_at, size. intros -> ->. rewrite !Nat2Z.id.
  rewrite substring_skip. apply substring_prefix.
Qed.

Lemma contents_app (l1 l2 : list string) :
  contents (l1 ++ l2) = String.append (contents l1) (contents l2).
Proof.
  induction l1 as [|p l1 IH]; simpl; [reflexivity|].
  rewrite IH, append_assoc. reflexivity.
Qed.

Lemma size_contents (l : list string) : size (contents l) = total_size l.
Proof.
  induction l as [|p l IH]; simpl; [reflexivity|].
  rewrite size_append, IH. reflexivity.
Qed.

(** Each handle of [block_handles] designates its block's payload, as long
    as the offsets stay below [2^64]. *)
Lemma block_handles_read (blocks : list (string * string)) (rest : string) :
  forall pre,
    Forall (fun b => size (snd b) = kBlockTrailerSize) blocks ->
    size pre + blocks_size blocks < 2 ^ 64 ->
    Forall2
      (fun h b =>
         read_at
           (String.append pre (String.append (contents (pieces_of blocks)) rest))
           h = fst b)
      (block_handles (size pre) blocks) blocks.
Proof.
  induction blocks as [|[p t] blocks IH]; intros pre Ht Hsmall;
    [constructor|].
  inversion Ht as [|b bs Hsize Ht' Heq]. subst. simpl in Hsize.
  pose proof (size_nonneg pre). pose proof (size_nonneg p).
  pose proof (blocks_size_nonneg blocks).
  simpl in Hsmall. unfold kBlockTrailerSize in *.
  simpl pieces_of. simpl block_handles. simpl contents.
  rewrite !append_assoc.
  constructor.
  - apply read_at_middle; simpl; [|reflexivity].
    unfold wrap64. apply Z.mod_small. lia.
  - specialize (IH (String.append pre (String.append p t)) Ht').
    rewrite !size_append, Hsize in IH.
    rewrite !append_assoc in IH.
    apply IH. lia.
Qed.

(** X9.  A call sequence that trips no assertion and leaves the status ok
    added its keys in strictly increasing order under the comparator the
    builder was constructed with; while the builder is open, the last key it
    remembers is the key of the last [Add]. *)
Theorem added_keys_increase (opt : Options) (f : WritableFile) (ops : list Op)
    (r : Rep) :
  run (TableBuilder_new opt f) ops = Some r ->
  ok r = true ->
  increasing (comparator_at (comparator opt)) (added_keys ops) /\
  (closed r = false -> last_key r = List.last (added_keys ops) EmptyString).
Proof.
  intros Hrun Hok.
  destruct (table_inv_reachable opt f ops r Hrun Hok) as [_ _ _ Hinc Hopen].
  rewrite added_entries_records in Hinc, Hopen.
  rewrite added_keys_records. split; [exact Hinc|].
  intros Hop. exact (proj1 (Hopen Hop)).
Qed.

(** X10.  While the builder is open and its status ok, what the sink
    accepted since construction is a sequence of complete data blocks.  Each
    block holds at least one entry and is the serialisation of its entries
    as the accumulator encoded them, each under the options in force at its
    [Add], compressed under options that were in force during the build.
    The entries of the blocks, in order, followed by the entries still in
    the data-block accumulator, are exactly those of the [Add] calls, in
    order, each with the options in force at its call; so their records are
    the records added. *)
Theorem records_fill_data_blocks (opt : Options) (f : WritableFile)
    (ops : list Op) (r : Rep) :
  run (TableBuilder_new opt f) ops = Some r ->
  ok r = true -> closed r = false ->
  exists blocks groups,
    appended (file_log (file r)) = appended (file_log f) ++ pieces_of blocks /\
    Forall2 (holds (opt :: changed_options opt ops)) groups blocks /\
    List.concat groups ++ added (data_block r) = added_entries opt ops /\
    List.concat (records_of groups) ++ entries (data_block r)
    = added_records ops.
Proof.
  intros Hrun Hok Hop.
  destruct (table_inv_reachable opt f ops r Hrun Hok) as [_ _ _ _ Hopen].
  destruct (Hopen Hop) as (_ & blocks & groups & [Hp _ _ _] & Hh & Hrecs & _).
  exists blocks, groups. simpl in Hp. rewrite !app_nil_r in Hp.
  split; [exact Hp|]. split; [exact Hh|]. split; [exact Hrecs|].
  rewrite <- records_of_concat, <- (added_entries_records ops opt), <- Hrecs.
  unfold entries. rewrite map_app. reflexivity.
Qed.

(** X11.  While the builder is open and its status ok, the values of the
    index entries emitted so far, followed by the pending handle if one is
    staged, are the encoded handles of the data blocks in the file, in
    order: each handle carries the offset at which its block begins and the
    size of its payload, so that reading [handle_size] bytes at
    [handle_offset] from what the builder wrote returns that payload (as
    long as the file stays below [2^64] bytes). *)
Theorem index_entries_locate_data_blocks (opt : Options) (f : WritableFile)
    (ops : list Op) (r : Rep) :
  run (TableBuilder_new opt f) ops = Some r ->
  ok r = true -> closed r = false ->
  exists blocks,
    appended (file_log (file r)) = appended (file_log f) ++ pieces_of blocks /\
    List.map snd (entries (index_block r)) ++ pending_part r
    = List.map BlockHandle_EncodeTo (block_handles 0 blocks) /\
    (blocks_size blocks < 2 ^ 64 ->
     Forall2 (fun h b => read_at (contents (pieces_of blocks)) h = fst b)
       (block_handles 0 blocks) blocks).
Proof.
  intros Hrun Hok Hop.
  destruct (table_inv_reachable opt f ops r Hrun Hok) as [_ _ _ _ Hopen].
  destruct (Hopen Hop) as (_ & blocks & groups & [Hp Ht _ _] & _ & _ & Hidx & _).
  exists blocks. simpl in Hp. rewrite !app_nil_r in Hp.
  split; [exact Hp|]. split; [exact Hidx|].
  intros Hsmall.
  pose proof (block_handles_read blocks EmptyString EmptyString Ht Hsmall) as H.
  simpl in H.
  assert (Hnil : forall s, String.append s EmptyString = s).
  { induction s as [|x s IH]; simpl; [reflexivity | rewrite IH; reflexivity]. }
  rewrite Hnil in H. exact H.
Qed.

(** X14.  While the builder is open and its status ok, the filter builder
    (if there is one) has received [StartBlock(0)], then for each data block
    in the file the keys of its entries followed by [StartBlock] with the
    offset at which the next block begins, then the keys of the entries
    still in the data-block accumulator.  The blocks are the serialisations
    of their entries as they were encoded at their [Add], and their entries,
    followed by those of the accumulator, are the ones added. *)
Theorem filter_calls_follow_blocks (opt : Options) (f : WritableFile)
    (ops : list Op) (r : Rep) :
  run (TableBuilder_new opt f) ops = Some r ->
  ok r = true -> closed r = false ->
  exists blocks groups,
    appended (file_log (file r)) = appended (file_log f) ++ pieces_of blocks /\
    Forall2 (holds (opt :: changed_options opt ops)) groups blocks /\
    List.concat groups ++ added (data_block r) = added_entries opt ops /\
    forall fb,
      filter_block r = Some fb ->
      filter_calls fb
      = CallStartBlock 0
        :: filter_trace 0 (records_of groups) blocks
           ++ List.map CallAddKey (List.map fst (entries (data_block r))).
Proof.
  intros Hrun Hok Hop.
  destruct (table_inv_reachable opt f ops r Hrun Hok) as [_ _ _ _ Hopen].
  destruct (Hopen Hop)
    as (_ & blocks & groups & [Hp _ _ _] & Hh & Hrecs & _ & Hcalls & _).
  exists blocks, groups. simpl in Hp. rewrite !app_nil_r in Hp.
  repeat split; assumption.
Qed.

(** X19.  While the builder is open and its status ok, and the comparator
    keeps its promise about separators, the keys of the index entries
    emitted so far separate the data blocks: the key of each entry is not
    below the last key of its block and is below the first key added after
    that block.  There is one entry per data block, but for the last block
    while its entry is pending.  The blocks are the serialisations of their
    entries as they were encoded at their [Add], and their entries, followed
    by those of the accumulator, are the ones added. *)
Theorem index_keys_separate_blocks (opt : Options) (f : WritableFile)
    (ops : list Op) (r : Rep) :
  run (TableBuilder_new opt f) ops = Some r ->
  ok r = true -> closed r = false ->
  separator_contract (comparator_at (comparator opt)) ->
  exists blocks groups,
    appended (file_log (file r)) = appended (file_log f) ++ pieces_of blocks /\
    Forall2 (holds (opt :: changed_options opt ops)) groups blocks /\
    List.concat groups ++ added (data_block r) = added_entries opt ops /\
    (List.length (entries (index_block r)) + pending_count r
     = List.length groups)%nat /\
    separates (comparator_at (comparator opt))
      (List.map fst (entries (index_block r))) (records_of groups)
      (entries (data_block r)).
Proof.
  intros Hrun Hok Hop Hc.
  destruct (table_inv_reachable opt f ops r Hrun Hok) as [_ _ _ _ Hopen].
  destruct (Hopen Hop)
    as (_ & blocks & groups & [Hp _ _ _] & Hh & Hrecs & Hidx & _ & _ & Hsep).
  exists blocks, groups. simpl in Hp. rewrite !app_nil_r in Hp.
  split; [exact Hp|]. split; [exact Hh|]. split; [exact Hrecs|].
  split; [|exact (Hsep Hc)].
  apply (f_equal (@List.length _)) in Hidx.
  rewrite length_app, !length_map, length_block_handles in Hidx.
  rewrite (Forall2_length Hh), <- Hidx. unfold pending_part, pending_count.
  destruct (pending_index_entry r); reflexivity.
Qed.

(** *** [Finish], when everything is accepted *)

Lemma run_app_intro (ops1 ops2 : list Op) :
  forall r r1 r2,
    run r ops1 = Some r1 -> run r1 ops2 = Some r2 ->
    run r (ops1 ++ ops2) = Some r2.
Proof.
  induction ops1 as [|op ops1 IH]; simpl; intros r r1 r2 H1 H2.
  - injection H1 as <-. exact H2.
  - destruct (step r op) as [r0|]; [|discriminate]. exact (IH r0 r1 r2 H1 H2).
Qed.

Lemma Flush_leaves_empty (r r1 : Rep) :
  Flush r = Some r1 -> ok r1 = true ->
  BlockBuilder_empty (data_block r1) = true.
Proof.
  intros Hrun Hok.
  destruct (Flush_Some_cases r r1 Hrun)
    as [_ [[-> Hidle] | (_ & _ & _ & r2 & _ & Heq)]].
  - destruct Hidle; congruence.
  - rewrite Heq, Flush_tail_frame. reflexivity.
Qed.

Lemma write_filter_block_latch (r r' : Rep) (fh : BlockHandle) :
  write_filter_block r = (r', fh) -> ok r' = true -> ok r = true.
Proof.
  intros Hrun Hok'. destruct (ok r) eqn:Hok; [reflexivity|].
  rewrite write_filter_block_not_ok in Hrun by exact Hok.
  injection Hrun as <- _. congruence.
Qed.

Lemma write_metaindex_block_ok (r r' : Rep) (fh h : BlockHandle) :
  write_metaindex_block r fh = Some (r', h) -> ok r' = true ->
  let es :=
    match filter_block r with
    | Some _ =>
        [(("filter." ++ FilterPolicy_Name (filter_policy (options r)))%string,
          BlockHandle_EncodeTo fh)]
    | None => []
    end in
  let p := block_payload (options r) (List.map (pair (options r)) es) in
  file_log (file r')
  = file_log (file r) ++ accepted [fst p; trailer_of (fst p) (snd p)] /\
  offset r' = wrap64 (offset r + (size (fst p) + kBlockTrailerSize)) /\
  h = {| handle_offset := offset r; handle_size := size (fst p) |} /\
  r' = set_compressed_output EmptyString
         (set_offset (offset r') (set_status (status r') (set_file (file r') r))).
Proof.
  intros Hrun Hok' es p.
  pose proof (write_metaindex_block_latch _ _ _ _ Hrun Hok') as Hok.
  unfold write_metaindex_block in Hrun. rewrite Hok in Hrun.
  subst p es.
  destruct (filter_block r) as [fb|];
    [destruct (assert _); [|discriminate]|]; simpl in Hrun;
    (match type of Hrun with (match WriteBlock ?x ?b with _ => _ end) = _ =>
       destruct (WriteBlock x b) as [[[r1 b1] h1]|] eqn:Hwb; [|discriminate] end;
     injection Hrun as <- <-;
     destruct (WriteBlock_ok _ _ _ _ _ Hwb Hok') as (Hlog & Hoff & _ & Hh & Hframe);
     rewrite payload_of_block_payload in Hlog, Hoff, Hh;
     repeat split; assumption).
Qed.

Lemma write_index_block_ok (r r' : Rep) (h : BlockHandle) :
  write_index_block r = Some (r', h) -> ok r' = true ->
  options_ (index_block r) = RefIndexBlockOptions ->
  let p := block_payload (options r) (final_index_added r) in
  file_log (file r')
  = file_log (file r) ++ accepted [fst p; trailer_of (fst p) (snd p)] /\
  offset r' = wrap64 (offset r + (size (fst p) + kBlockTrailerSize)) /\
  h = {| handle_offset := offset r; handle_size := size (fst p) |}.
Proof.
  intros Hrun Hok' Hx p.
  pose proof (write_index_block_latch _ _ _ Hrun Hok') as Hok.
  unfold write_index_block in Hrun. rewrite Hok in Hrun.
  subst p. unfold final_index_added.
  match type of Hrun with (match WriteBlock ?x ?b with _ => _ end) = _ =>
    destruct (WriteBlock x b) as [[[r1 b1] h1]|] eqn:Hwb; [|discriminate] end.
  injection Hrun as <- <-.
  assert (Hok1 : ok r1 = true) by exact Hok'.
  destruct (WriteBlock_ok _ _ _ _ _ Hwb Hok1) as (Hlog & Hoff & _ & Hh & _).
  rewrite payload_of_block_payload in Hlog, Hoff, Hh.
  destruct (pending_index_entry r); fields; rewrite ?Hx in *; fields;
    [|rewrite app_nil_r]; repeat split; assumption.
Qed.

(** Behind the closing [Flush]: the pieces [Finish] appends when it
    returns ok. *)
Lemma Finish_phases_ok (c0 : Z) (x r' : Rep) :
  core_inv c0 x ->
  (let '(r, filter_block_handle) := write_filter_block x in
   m <- write_metaindex_block r filter_block_handle ;;
   let '(r, metaindex_block_handle) := m in
   i <- write_index_block r ;;
   let '(r, index_block_handle) := i in
   let r := write_footer r metaindex_block_handle index_block_handle in
   Some (r, status r)) = Some (r', Status_OK) ->
  ok x = true /\
  file_log (file r') = file_log (file x) ++ accepted (closing_pieces x).
Proof.
  intros Hcore Hrun.
  destruct (write_filter_block x) as [r2 fh] eqn:Hfilter.
  destruct (write_metaindex_block r2 fh) as [[r3 mh]|] eqn:Hmeta; [|discriminate].
  destruct (write_index_block r3) as [[r4 ih]|] eqn:Hindex; [|discriminate].
  injection Hrun as <- Hst.
  assert (Hok5 : ok (write_footer r4 mh ih) = true)
    by (unfold ok; rewrite Hst; reflexivity).
  destruct (write_footer_ok r4 mh ih Hok5) as (Hok4 & Hlog5 & _).
  pose proof (write_index_block_latch _ _ _ Hindex Hok4) as Hok3.
  pose proof (write_metaindex_block_latch _ _ _ _ Hmeta Hok3) as Hok2.
  pose proof (write_filter_block_latch _ _ _ Hfilter Hok2) as Hokx.
  split; [exact Hokx|].
  pose proof (write_filter_block_ok _ _ _ Hfilter Hok2) as Hf.
  destruct (write_metaindex_block_ok _ _ _ _ Hmeta Hok3)
    as (Hlog3 & Hoff3 & Hmh & Hframe3).
  assert (Hx3 : options_ (index_block r3) = RefIndexBlockOptions).
  { rewrite Hframe3. fields.
    destruct (write_filter_block_same_core x) as (_ & _ & _ & Hib & _).
    rewrite Hfilter in Hib. simpl in Hib. rewrite Hib.
    exact (inv_index_ref c0 x Hcore). }
  destruct (write_index_block_ok _ _ _ Hindex Hok4 Hx3) as (Hlog4 & Hoff4 & Hih).
  rewrite Hlog5, Hlog4, Hlog3. subst mh ih.
  rewrite Hframe3. unfold final_index_added. fields.
  clear Hlog5 Hlog4 Hlog3 Hoff4 Hst Hok5 Hmeta Hindex Hfilter.
  unfold closing_pieces, footer_of, index_block_handle_of, index_payload,
    metaindex_block_handle_of, metaindex_payload, metaindex_offset,
    metaindex_entries, filter_pieces, filter_block_handle_of,
    filter_contents_of, final_index_added.
  clear Hx3.
  destruct (filter_block x) as [fb|] eqn:Hfb.
  - destruct Hf as (Hlog2 & Hoff2 & Hfh & Hframe2).
    rewrite Hoff3, Hlog2, Hfh. rewrite Hframe2. fields. rewrite Hoff2.
    cbn [option_map app accepted List.map]. rewrite <- !app_assoc.
    reflexivity.
  - subst r2. rewrite Hoff3, Hfb. fields.
    cbn [option_map app accepted List.map]. rewrite <- !app_assoc.
    reflexivity.
Qed.

Lemma Flush_index_block (r r' : Rep) :
  Flush r = Some r' -> index_block r' = index_block r.
Proof.
  intros Hrun.
  destruct (Flush_Some_cases r r' Hrun)
    as [_ [[-> _] | (_ & _ & _ & r1 & Hraw & ->)]]; [reflexivity|].
  rewrite Flush_tail_frame. fields.
  rewrite (raw_write_frame _ _ _ _ Hraw). reflexivity.
Qed.

Lemma anchored_emit (c0 : Z) (r r1 : Rep) (key : string) :
  core_inv c0 r -> anchored (added (index_block r)) ->
  emit_pending_index_entry r key = Some r1 ->
  anchored (added (index_block r1)).
Proof.
  intros [Hc Hi Hd Hx Hn Hne Hp] Hanc Hrun.
  unfold emit_pending_index_entry in Hrun.
  destruct (pending_index_entry r);
    [destruct (assert _); [|discriminate]|];
    injection Hrun as <-; [|exact Hanc].
  fields. rewrite Hx. fields.
  apply Forall_app. split; [exact Hanc|].
  constructor; [exact Hi | constructor].
Qed.

Lemma anchored_write_index_block (r r' : Rep) (h : BlockHandle) :
  anchored (added (index_block r)) ->
  write_index_block r = Some (r', h) ->
  anchored (added (index_block r')).
Proof.
  intros Hanc Hrun. unfold write_index_block in Hrun.
  destruct (ok r); [|injection Hrun as <- _; exact Hanc].
  match type of Hrun with (match WriteBlock ?x ?b with _ => _ end) = _ =>
    destruct (WriteBlock x b) as [[[r1 b1] h1]|] eqn:Hwb; [|discriminate];
    destruct (WriteBlock_same_core _ _ _ _ _ Hwb) as (_ & ->) end.
  injection Hrun as <- _. fields. constructor.
Qed.

Lemma anchored_step (c0 : Z) (r r' : Rep) (op : Op) :
  core_inv c0 r -> anchored (added (index_block r)) ->
  step r op = Some r' -> anchored (added (index_block r')).
Proof.
  intros Hcore Hanc Hrun. destruct op as [key value | | | | opts]; simpl in Hrun.
  - unfold Add in Hrun.
    destruct (assert (negb (closed r))); [|discriminate].
    destruct (negb (ok r)); [injection Hrun as <-; exact Hanc|].
    destruct (assert _); [|discriminate].
    destruct (emit_pending_index_entry r key) as [r1|] eqn:Hemit; [|discriminate].
    pose proof (anchored_emit c0 r r1 key Hcore Hanc Hemit) as Hanc1.
    destruct (append_record r1 key value) as [r2|] eqn:Happ; [|discriminate].
    destruct (append_fields r1 r2 key value Happ) as (_ & _ & _ & Hib2 & _).
    destruct (_ <=? _); [|injection Hrun as <-; rewrite Hib2; exact Hanc1].
    rewrite (Flush_index_block r2 r' Hrun), Hib2. exact Hanc1.
  - rewrite (Flush_index_block r r' Hrun). exact Hanc.
  - destruct (Finish r) as [[r0 st]|] eqn:Hfin; [|discriminate].
    injection Hrun as <-. unfold Finish in Hfin.
    destruct (Flush r) as [r1|] eqn:Hflush; [|discriminate].
    destruct (assert (negb (closed r1))); [|discriminate].
    pose proof (write_filter_block_same_core (set_closed true r1))
      as (_ & _ & _ & Hib2 & _).
    destruct (write_filter_block (set_closed true r1)) as [r2 fh].
    simpl in Hib2.
    destruct (write_metaindex_block r2 fh) as [[r3 mh]|] eqn:Hmeta; [|discriminate].
    destruct (write_metaindex_block_same_core _ _ _ _ Hmeta)
      as (_ & _ & _ & Hib3 & _).
    destruct (write_index_block r3) as [[r4 ih]|] eqn:Hindex; [|discriminate].
    injection Hfin as <- _.
    destruct (write_footer_same_core r4 mh ih) as (_ & _ & _ & Hib5 & _).
    rewrite Hib5. apply (anchored_write_index_block r3 r4 ih); [|exact Hindex].
    rewrite Hib3, Hib2. cbn [index_block set_closed].
    rewrite (Flush_index_block r r1 Hflush). exact Hanc.
  - unfold Abandon in Hrun. destruct (assert _); [|discriminate].
    injection Hrun as <-. exact Hanc.
  - injection Hrun as <-. unfold ChangeOptions.
    destruct (negb _); exact Hanc.
Qed.

Lemma anchored_run (c0 : Z) (ops : list Op) :
  forall r r',
    core_inv c0 r -> anchored (added (index_block r)) ->
    run r ops = Some r' -> anchored (added (index_block r')).
Proof.
  induction ops as [|op ops IH]; simpl; intros r r' Hcore Hanc Hrun.
  - injection Hrun as <-. exact Hanc.
  - destruct (step r op) as [r1|] eqn:Hstep; [|discriminate].
    exact (IH r1 r' (core_inv_step c0 r r1 op Hcore Hstep)
             (anchored_step c0 r r1 op Hcore Hanc Hstep) Hrun).
Qed.

(** After the closing [Flush] of [Finish], every index entry, the pending
    one included, is its own restart anchor. *)
Lemma index_entries_interval (opt : Options) (f : WritableFile)
    (ops : list Op) (r r1 : Rep) :
  run (TableBuilder_new opt f) ops = Some r -> Flush r = Some r1 ->
  anchored (final_index_added r1).
Proof.
  intros Hrun Hflush.
  pose proof (core_inv_reachable opt f ops r Hrun) as Hcore.
  pose proof (core_inv_Flush _ r r1 Hcore Hflush) as Hcore1.
  assert (Hnew : anchored (added (index_block (TableBuilder_new opt f)))).
  { unfold TableBuilder_new, Rep_new.
    destruct (filter_policy opt =? nullptr); constructor. }
  pose proof (anchored_run _ ops _ r (core_inv_new opt f) Hnew Hrun) as Hanc.
  unfold final_index_added. rewrite (Flush_index_block r r1 Hflush).
  apply Forall_app. split; [exact Hanc|].
  destruct (pending_index_entry r1); [|constructor].
  constructor; [exact (inv_interval _ r1 Hcore1) | constructor].
Qed.

(** The index block's entries, with and without the options. *)
Lemma final_index_added_entries (r : Rep) :
  List.map snd (final_index_added r) = final_index_entries r.
Proof.
  unfold final_index_added, final_index_entries, entries. rewrite map_app.
  destruct (pending_index_entry r); reflexivity.
Qed.

(** [Finish] returning ok, on a builder reached from construction. *)
Lemma Finish_ok_table (opt : Options) (f : WritableFile) (ops : list Op)
    (r r' : Rep) :
  run (TableBuilder_new opt f) ops = Some r ->
  Finish r = Some (r', Status_OK) ->
  exists r1 blocks groups,
    Flush r = Some r1 /\
    accounted (appended (file_log f)) r1 blocks None [] /\
    Forall2 (holds (opt :: changed_options opt ops)) groups blocks /\
    List.concat groups = added_entries opt ops /\
    List.map snd (final_index_entries r1)
    = List.map BlockHandle_EncodeTo (block_handles 0 blocks) /\
    file_log (file r') = file_log (file r1) ++ accepted (closing_pieces r1) /\
    offset r'
    = wrap64 (blocks_size blocks + total_size (closing_pieces r1)) /\
    (forall c,
       filter_contents_of r1 = Some c ->
       c = filter_Finish (filter_policy opt)
             (CallStartBlock 0 :: filter_trace 0 (records_of groups) blocks)) /\
    (separator_contract (comparator_at (comparator opt)) ->
     successor_contract (comparator_at (comparator opt)) ->
     separates (comparator_at (comparator opt))
       (List.map fst (final_index_entries r1)) (records_of groups) []).
Proof.
  intros Hrun Hfin.
  assert (Hreach' : run (TableBuilder_new opt f) (ops ++ [OpFinish]) = Some r').
  { apply (run_app_intro ops [OpFinish] _ r r' Hrun). simpl. rewrite Hfin.
    reflexivity. }
  assert (Hok' : ok r' = true).
  { destruct (core_inv_Finish _ _ _ _ (core_inv_reachable _ _ _ _ Hrun) Hfin)
      as (_ & _ & Hst). unfold ok. rewrite <- Hst. reflexivity. }
  pose proof (offset_when_ok opt f _ r' Hreach' Hok') as Hoff.
  unfold Finish in Hfin.
  destruct (Flush r) as [r1|] eqn:Hflush; [|discriminate].
  destruct (closed r1) eqn:Hop; [discriminate|]. cbn [negb assert] in Hfin.
  assert (Hreach1 : run (TableBuilder_new opt f) (ops ++ [OpFlush]) = Some r1).
  { apply (run_app_intro ops [OpFlush] _ r r1 Hrun). simpl. rewrite Hflush.
    reflexivity. }
  pose proof (core_inv_reachable _ _ _ _ Hreach1) as Hcore1.
  assert (Hcorex : core_inv (comparator opt) (set_closed true r1)).
  { destruct Hcore1. constructor; fields; assumption. }
  destruct (Finish_phases_ok _ _ _ Hcorex Hfin) as [Hok1 Hlog].
  pose proof (table_inv_reachable opt f _ r1 Hreach1 Hok1) as Hinv.
  rewrite changed_options_app, added_entries_app in Hinv. simpl in Hinv.
  rewrite !app_nil_r in Hinv.
  destruct Hinv as [_ _ _ _ Hopen].
  destruct (Hopen Hop)
    as (Hlast & blocks & groups & Hacc & Hholds & Hrecs & Hidx & Hcalls
        & Hstable & Hsep).
  pose proof (Flush_leaves_empty r r1 Hflush Hok1) as Hempty.
  exists r1, blocks, groups.
  pose proof (added_empty _ Hempty) as Hnil.
  pose proof (entries_empty _ Hempty) as Hnil'.
  rewrite Hnil, app_nil_r in Hrecs.
  split; [reflexivity|]. split; [exact Hacc|]. split; [exact Hholds|].
  split; [exact Hrecs|]. split; [|split; [|split; [|split]]].
  - rewrite <- Hidx. unfold final_index_entries, pending_part.
    rewrite map_app. destruct (pending_index_entry r1); reflexivity.
  - exact Hlog.
  - rewrite Hoff. f_equal. unfold bytes_appended.
    change (file (set_closed true r1)) with (file r1) in Hlog.
    change (closing_pieces (set_closed true r1)) with (closing_pieces r1) in Hlog.
    destruct Hacc as [Hp Ht _ _].
    rewrite Hlog, appended_app, appended_accepted, Hp. simpl.
    rewrite !total_size_app, total_size_pieces by exact Ht. simpl. lia.
  - intros c Hc. unfold filter_contents_of in Hc.
    destruct (filter_block r1) as [fb|] eqn:Hfb; [|discriminate].
    injection Hc as <-.
    rewrite (filter_policy_reachable opt f _ r1 Hreach1 fb Hfb).
    rewrite (Hcalls fb eq_refl), Hnil'. cbn [List.map]. rewrite app_nil_r.
    reflexivity.
  - intros Hc Hs. specialize (Hsep Hc). rewrite Hnil' in Hsep.
    unfold final_index_entries. rewrite map_app.
    destruct (pending_index_entry r1) eqn:Hpend;
      [|cbn [List.map]; rewrite app_nil_r; exact Hsep].
    cbn [List.map fst]. rewrite (inv_comparator _ r1 Hcore1).
    apply separates_emit; [| |exact Hsep| |exact I].
    + unfold pending_part in Hidx. rewrite Hpend in Hidx.
      apply (f_equal (@List.length _)) in Hidx.
      rewrite length_app, !length_map, length_block_handles in Hidx.
      rewrite length_records_of, (Forall2_length Hholds). simpl in Hidx.
      rewrite length_map. lia.
    + exact (records_of_nonempty _ (holds_nonempty _ _ _ Hholds)).
    + rewrite <- records_of_concat, Hrecs, <- Hlast. apply Hs.
Qed.

(** X20.  When [Finish] returns ok and the comparator keeps its promises
    about separators and successors: the file holds the data blocks and,
    behind them, what [Finish] appends, of which the last three pieces are
    the index block, its trailer and the footer.  The index block is the
    serialisation of the index entries (those emitted by [Add], then the one
    [Finish] adds for the last block), each its own restart anchor; it has
    one entry per data block, whose value is the block's encoded handle and
    whose key is not below the last key of its block and is below the first
    key of the next block.  The data blocks are the serialisations of their entries, which
    are the entries added. *)
Theorem final_index_keys_separate_blocks (opt : Options) (f : WritableFile)
    (ops : list Op) (r r' : Rep) :
  run (TableBuilder_new opt f) ops = Some r ->
  Finish r = Some (r', Status_OK) ->
  separator_contract (comparator_at (comparator opt)) ->
  successor_contract (comparator_at (comparator opt)) ->
  exists r1 blocks groups before index_entries index type,
    Flush r = Some r1 /\
    appended (file_log (file r'))
    = appended (file_log f) ++ pieces_of blocks
      ++ before ++ [index; trailer_of index type; footer_of r1] /\
    block_payload (options r) index_entries = (index, type) /\
    index_entries = final_index_added r1 /\
    anchored index_entries /\
    Forall2 (holds (opt :: changed_options opt ops)) groups blocks /\
    List.concat groups = added_entries opt ops /\
    List.length index_entries = List.length groups /\
    List.map snd (List.map snd index_entries)
    = List.map BlockHandle_EncodeTo (block_handles 0 blocks) /\
    separates (comparator_at (comparator opt))
      (List.map fst (List.map snd index_entries)) (records_of groups) [].
Proof.
  intros Hrun Hfin Hc Hs.
  destruct (Finish_ok_table opt f ops r r' Hrun Hfin)
    as (r1 & blocks & groups & Hflush & [Hp _ _ _] & Hholds & Hrecs & Hidx
        & Hlog & _ & _ & Hsep).
  destruct (Flush_kept r r1 Hflush) as [(_ & _ & Ho & _) _].
  exists r1, blocks, groups,
    (filter_pieces r1
     ++ [fst (metaindex_payload r1);
         trailer_of (fst (metaindex_payload r1)) (snd (metaindex_payload r1))]),
    (final_index_added r1),
    (fst (index_payload r1)), (snd (index_payload r1)).
  rewrite <- final_index_added_entries in Hidx, Hsep.
  split; [exact Hflush|]. split; [|split; [|split; [reflexivity|split]]].
  - rewrite Hlog, appended_app, appended_accepted, Hp. simpl.
    unfold closing_pieces. rewrite !app_nil_r, <- !app_assoc. reflexivity.
  - unfold index_payload. rewrite <- Ho.
    destruct (block_payload (options r1) (final_index_added r1)); reflexivity.
  - exact (index_entries_interval opt f ops r r1 Hrun Hflush).
  - split; [exact Hholds|]. split; [exact Hrecs|].
    split; [|split; [exact Hidx | exact (Hsep Hc Hs)]].
    apply (f_equal (@List.length _)) in Hidx.
    rewrite !length_map, length_block_handles in Hidx.
    rewrite (Forall2_length Hholds). exact Hidx.
Qed.

Lemma read_at_piece (before after : list string) (p : string) (h : BlockHandle) :
  handle_offset h = total_size before -> handle_size h = size p ->
  read_at (contents (before ++ p :: after)) h = p.
Proof.
  intros Hoff Hsize. rewrite contents_app. cbn [contents fold_right].
  apply read_at_middle; [rewrite size_contents; exact Hoff | exact Hsize].
Qed.

Lemma total_size_filter_pieces (r : Rep) :
  total_size (filter_pieces r)
  = match filter_contents_of r with
    | Some c => size c + kBlockTrailerSize
    | None => 0
    end.
Proof.
  unfold filter_pieces. destruct (filter_contents_of r) as [c|]; [|reflexivity].
  cbn [total_size]. rewrite trailer_of_size. lia.
Qed.

(** X12.  A [Finish] that returns ok, on a builder reached from
    construction: after its closing [Flush] the file holds the data blocks,
    which are the serialisations of their entries as the accumulator encoded
    them, each under the options in force at its [Add], and whose entries
    are exactly those of the [Add] calls, in order; behind them [Finish]
    appends the filter block if there is a filter builder, the metaindex
    block, the index block and the footer; the index block has one entry per
    data block, in order, whose value is that block's encoded handle;
    [FileSize()] is the size of all of it; and the filter block is what the
    filter builder makes of the keys of each data block followed by the
    offset at which the next block begins. *)
Theorem Finish_writes_the_table (opt : Options) (f : WritableFile)
    (ops : list Op) (r r' : Rep) :
  run (TableBuilder_new opt f) ops = Some r ->
  Finish r = Some (r', Status_OK) ->
  exists r1 blocks groups,
    Flush r = Some r1 /\
    appended (file_log (file r'))
    = appended (file_log f) ++ pieces_of blocks ++ closing_pieces r1 /\
    Forall2 (holds (opt :: changed_options opt ops)) groups blocks /\
    List.concat groups = added_entries opt ops /\
    List.concat (records_of groups) = added_records ops /\
    index_payload r1 = block_payload (options r) (final_index_added r1) /\
    List.map snd (List.map snd (final_index_added r1))
    = List.map BlockHandle_EncodeTo (block_handles 0 blocks) /\
    FileSize r' = wrap64 (blocks_size blocks + total_size (closing_pieces r1)) /\
    (forall c,
       filter_contents_of r1 = Some c ->
       c = filter_Finish (filter_policy opt)
             (CallStartBlock 0 :: filter_trace 0 (records_of groups) blocks)).
Proof.
  intros Hrun Hfin.
  destruct (Finish_ok_table opt f ops r r' Hrun Hfin)
    as (r1 & blocks & groups & Hflush & [Hp _ _ _] & Hholds & Hrecs & Hidx
        & Hlog & Hoff & Hfilter & _).
  destruct (Flush_kept r r1 Hflush) as [(_ & _ & Ho & _) _].
  exists r1, blocks, groups.
  split; [exact Hflush|]. split; [|split; [exact Hholds|]].
  { rewrite Hlog, appended_app, appended_accepted, Hp. simpl.
    rewrite !app_nil_r, <- app_assoc. reflexivity. }
  split; [exact Hrecs|]. split; [|split; [|split; [|split]]].
  - rewrite <- records_of_concat, Hrecs. apply added_entries_records.
  - unfold index_payload. rewrite Ho. reflexivity.
  - rewrite final_index_added_entries. exact Hidx.
  - exact Hoff.
  - exact Hfilter.
Qed.

(** X13.  In the file a [Finish] returning ok leaves (taken from the
    builder's offset zero, and below [2^64] bytes), every handle the builder
    stored designates the block it was stored for: reading [handle_size]
    bytes at [handle_offset] gives, for the handles behind the index
    entries, the payloads of the data blocks; for the handle in the
    metaindex entry, the filter block; for the two handles in the footer,
    the metaindex block and the index block; and the footer is the last
    piece of the file. *)
Theorem Finish_handles_read_back (opt : Options) (f : WritableFile)
    (ops : list Op) (r r' : Rep) :
  run (TableBuilder_new opt f) ops = Some r ->
  Finish r = Some (r', Status_OK) ->
  exists r1 blocks,
    Flush r = Some r1 /\
    appended (file_log (file r'))
    = appended (file_log f) ++ pieces_of blocks ++ closing_pieces r1 /\
    List.map snd (final_index_entries r1)
    = List.map BlockHandle_EncodeTo (block_handles 0 blocks) /\
    let data := contents (pieces_of blocks ++ closing_pieces r1) in
    (size data < 2 ^ 64 ->
     Forall2 (fun h b => read_at data h = fst b)
       (block_handles 0 blocks) blocks /\
     (forall c, filter_contents_of r1 = Some c ->
                read_at data (filter_block_handle_of r1) = c) /\
     read_at data (metaindex_block_handle_of r1) = fst (metaindex_payload r1) /\
     read_at data (index_block_handle_of r1) = fst (index_payload r1) /\
     read_at data {| handle_offset := size data - size (footer_of r1);
                     handle_size := size (footer_of r1) |}
     = footer_of r1).
Proof.
  intros Hrun Hfin.
  destruct (Finish_ok_table opt f ops r r' Hrun Hfin)
    as (r1 & blocks & groups & Hflush & [Hp Ht Hoff1 _] & _ & _ & Hidx
        & Hlog & _ & _).
  exists r1, blocks.
  split; [exact Hflush|]. split; [|split; [exact Hidx|]].
  { rewrite Hlog, appended_app, appended_accepted, Hp. simpl.
    rewrite !app_nil_r, <- app_assoc. reflexivity. }
  intros data Hsmall. subst data.
  rewrite size_contents in *.
  rewrite total_size_app, (total_size_pieces _ Ht) in Hsmall.
  unfold closing_pieces in *.
  rewrite total_size_app in Hsmall. cbn [total_size] in Hsmall.
  rewrite !trailer_of_size in Hsmall.
  pose proof (total_size_filter_pieces r1) as Hfp.
  pose proof (blocks_size_nonneg blocks) as Hb0.
  pose proof (total_size_nonneg (filter_pieces r1)) as Hf0.
  pose proof (size_nonneg (fst (metaindex_payload r1))) as Hm0.
  pose proof (size_nonneg (fst (index_payload r1))) as Hi0.
  pose proof (size_nonneg (footer_of r1)) as Hfo0.
  unfold kBlockTrailerSize in *.
  simpl in Hoff1. rewrite Z.add_0_r in Hoff1.
  assert (Hoff : offset r1 = blocks_size blocks).
  { rewrite Hoff1. unfold wrap64. apply Z.mod_small. lia. }
  assert (Hmeta : metaindex_offset r1
                  = blocks_size blocks + total_size (filter_pieces r1)).
  { unfold metaindex_offset. rewrite Hfp, Hoff.
    destruct (filter_contents_of r1) as [c|]; [|lia].
    pose proof (size_nonneg c).
    unfold wrap64. apply Z.mod_small. lia. }
  split; [|split; [|split; [|split]]].
  - pose proof (block_handles_read blocks
                  (contents (filter_pieces r1
                             ++ [fst (metaindex_payload r1);
                                 trailer_of (fst (metaindex_payload r1))
                                   (snd (metaindex_payload r1));
                                 fst (index_payload r1);
                                 trailer_of (fst (index_payload r1))
                                   (snd (index_payload r1));
                                 footer_of r1]))
                  EmptyString Ht) as H.
    cbn [String.append] in H. rewrite <- contents_app in H.
    apply H. change (size EmptyString) with 0. lia.
  - intros c Hc. unfold filter_block_handle_of, filter_pieces. rewrite Hc.
    cbn [app]. apply read_at_piece; cbn [handle_offset handle_size];
      [|reflexivity].
    rewrite (total_size_pieces _ Ht). exact Hoff.
  - rewrite app_assoc. apply read_at_piece;
      cbn [metaindex_block_handle_of handle_offset handle_size];
      [|reflexivity].
    rewrite total_size_app, (total_size_pieces _ Ht). exact Hmeta.
  - replace (pieces_of blocks
             ++ filter_pieces r1
                ++ [fst (metaindex_payload r1);
                    trailer_of (fst (metaindex_payload r1))
                      (snd (metaindex_payload r1));
                    fst (index_payload r1);
                    trailer_of (fst (index_payload r1))
                      (snd (index_payload r1));
                    footer_of r1])
      with ((pieces_of blocks ++ filter_pieces r1
             ++ [fst (metaindex_payload r1);
                 trailer_of (fst (metaindex_payload r1))
                   (snd (metaindex_payload r1))])
            ++ fst (index_payload r1)
               :: [trailer_of (fst (index_payload r1))
                     (snd (index_payload r1));
                   footer_of r1])
      by (rewrite <- !app_assoc; reflexivity).
    apply read_at_piece;
      cbn [index_block_handle_of handle_offset handle_size]; [|reflexivity].
    rewrite !total_size_app, (total_size_pieces _ Ht). cbn [total_size].
    rewrite trailer_of_size, Hmeta. unfold wrap64, kBlockTrailerSize.
    rewrite Z.mod_small by lia. lia.
  - replace (pieces_of blocks
             ++ filter_pieces r1
                ++ [fst (metaindex_payload r1);
                    trailer_of (fst (metaindex_payload r1))
                      (snd (metaindex_payload r1));
                    fst (index_payload r1);
                    trailer_of (fst (index_payload r1))
                      (snd (index_payload r1));
                    footer_of r1])
      with ((pieces_of blocks ++ filter_pieces r1
             ++ [fst (metaindex_payload r1);
                 trailer_of (fst (metaindex_payload r1))
                   (snd (metaindex_payload r1));
                 fst (index_payload r1);
                 trailer_of (fst (index_payload r1))
                   (snd (index_payload r1))])
            ++ footer_of r1 :: [])
      by (rewrite <- !app_assoc; reflexivity).
    apply read_at_piece; cbn [handle_offset handle_size]; [|reflexivity].
    rewrite !total_size_app, (total_size_pieces _ Ht). cbn [total_size].
    rewrite !trailer_of_size. unfold kBlockTrailerSize. lia.
Qed.

(** *** The sink's log *)

Lemma sink_trace_call (log : list (FileCall * Status)) (c : FileCall)
    (st : Status) :
  sink_trace log Status_OK -> sink_trace (log ++ [(c, st)]) st.
Proof.
  intros [[-> _] | (earlier & c0 & -> & Hall)]; right.
  - exists [], c. split; [reflexivity | constructor].
  - exists (earlier ++ [(c0, Status_OK)]), c. split; [reflexivity|].
    apply Forall_app. split; [exact Hall | repeat constructor].
Qed.

Lemma sink_inv_same (base : list (FileCall * Status)) (r r' : Rep) :
  file r' = file r -> status r' = status r ->
  sink_inv base r -> sink_inv base r'.
Proof.
  intros Hf Hs (log & Hlog & Htr). exists log. rewrite Hf, Hs. auto.
Qed.

Lemma sink_inv_call (base : list (FileCall * Status)) (r r' : Rep)
    (c : FileCall) (f : WritableFile) (st : Status) :
  sink_inv base r -> ok r = true -> File_call c (file r) = (f, st) ->
  file r' = f -> status r' = st -> sink_inv base r'.
Proof.
  intros (log & Hlog & Htr) Hok Hcall Hf Hs.
  unfold ok in Hok. apply Status_ok_inv in Hok. rewrite Hok in Htr.
  exists (log ++ [(c, st)]). rewrite Hf, Hs. split.
  - pose proof (File_call_log c (file r)) as H. rewrite Hcall in H.
    simpl in H. rewrite H, Hlog, app_assoc. reflexivity.
  - apply sink_trace_call. exact Htr.
Qed.

Lemma sink_inv_raw_write (base : list (FileCall * Status)) (r r1 : Rep)
    (c : string) (t : CompressionType) :
  sink_inv base r -> ok r = true -> raw_write r c t r1 -> sink_inv base r1.
Proof.
  intros Hinv Hok Hraw.
  inversion Hraw as [f st Ha Hst Heq | f1 f2 st Ha1 Ha2 Hst Heq | f1 f2 Ha1 Ha2 Heq].
  - exact (sink_inv_call base r (set_status st (set_file f r)) _ f st
             Hinv Hok Ha eq_refl eq_refl).
  - pose proof (sink_inv_call base r (set_status Status_OK (set_file f1 r))
                  _ f1 Status_OK Hinv Hok Ha1 eq_refl eq_refl) as H1.
    exact (sink_inv_call base (set_status Status_OK (set_file f1 r))
             (set_status st (set_file f2 r)) _ f2 st
             H1 eq_refl Ha2 eq_refl eq_refl).
  - pose proof (sink_inv_call base r (set_status Status_OK (set_file f1 r))
                  _ f1 Status_OK Hinv Hok Ha1 eq_refl eq_refl) as H1.
    exact (sink_inv_call base (set_status Status_OK (set_file f1 r))
             (set_offset (wrap64 (offset r + (size c + kBlockTrailerSize)))
                (set_status Status_OK (set_file f2 r))) _ f2 Status_OK
             H1 eq_refl Ha2 eq_refl eq_refl).
Qed.

Lemma sink_inv_WriteBlock (base : list (FileCall * Status)) (r r' : Rep)
    (b b' : BlockBuilder) (h : BlockHandle) :
  sink_inv base r -> WriteBlock r b = Some (r', b', h) -> sink_inv base r'.
Proof.
  intros Hinv Hrun. pose proof (WriteBlock_pre _ _ _ Hrun) as Hok.
  destruct (WriteBlock_cases r b Hok) as (r1 & Hraw & Heq).
  rewrite Heq in Hrun. injection Hrun as <- _ _.
  apply (sink_inv_same base r1); try reflexivity.
  exact (sink_inv_raw_write base r r1 _ _ Hinv Hok Hraw).
Qed.

Lemma sink_inv_Flush_tail (base : list (FileCall * Status)) (r : Rep) :
  sink_inv base r -> sink_inv base (Flush_tail r).
Proof.
  intros Hinv. destruct (ok r) eqn:Hok.
  - destruct (Flush_tail_ok r Hok) as [_ Hcall].
    destruct (File_Flush (file r)) as [f st] eqn:Hff.
    injection Hcall as Hf Hs.
    exact (sink_inv_call base r _ CallFlush f st Hinv Hok Hff Hf Hs).
  - destruct (Flush_tail_not_ok r Hok) as (_ & Hf & Hs).
    exact (sink_inv_same base r _ Hf Hs Hinv).
Qed.

Lemma sink_inv_Flush (base : list (FileCall * Status)) (r r' : Rep) :
  sink_inv base r -> Flush r = Some r' -> sink_inv base r'.
Proof.
  intros Hinv Hrun.
  destruct (Flush_Some_cases r r' Hrun)
    as [_ [[-> _] | (Hok & _ & _ & r1 & Hraw & ->)]]; [exact Hinv|].
  apply sink_inv_Flush_tail.
  apply (sink_inv_same base r1); try reflexivity.
  exact (sink_inv_raw_write base r r1 _ _ Hinv Hok Hraw).
Qed.

Lemma sink_inv_Add (base : list (FileCall * Status)) (r r' : Rep)
    (key value : string) :
  sink_inv base r -> Add r key value = Some r' -> sink_inv base r'.
Proof.
  intros Hinv Hrun. unfold Add in Hrun.
  destruct (assert (negb (closed r))); [|discriminate].
  destruct (negb (ok r)); [injection Hrun as <-; exact Hinv|].
  destruct (assert _); [|discriminate].
  destruct (emit_pending_index_entry r key) as [r1|] eqn:Hemit; [|discriminate].
  destruct (emit_fields r r1 key Hemit) as (Hf1 & _ & Hs1 & _).
  destruct (append_record r1 key value) as [r2|] eqn:Happ; [|discriminate].
  destruct (append_fields r1 r2 key value Happ) as (Hf2 & _ & Hs2 & _).
  assert (Hinv2 : sink_inv base r2)
    by (apply (sink_inv_same base r); congruence).
  destruct (_ <=? _); [|injection Hrun as <-; exact Hinv2].
  exact (sink_inv_Flush base r2 r' Hinv2 Hrun).
Qed.

Lemma sink_inv_write_filter_block (base : list (FileCall * Status)) (r : Rep) :
  sink_inv base r -> sink_inv base (fst (write_filter_block r)).
Proof.
  intros Hinv. unfold write_filter_block.
  destruct (filter_block r) as [fb|]; [|exact Hinv].
  destruct (ok r) eqn:Hok; [|exact Hinv].
  match goal with |- context [WriteRawBlock ?x ?c ?t] =>
    destruct (WriteRawBlock_cases x c t) as [Hraw _];
    apply (sink_inv_raw_write base x _ c t); [|exact Hok|exact Hraw] end.
  apply (sink_inv_same base r); auto.
Qed.

Lemma sink_inv_write_metaindex_block (base : list (FileCall * Status))
    (r r' : Rep) (fh h : BlockHandle) :
  sink_inv base r -> write_metaindex_block r fh = Some (r', h) ->
  sink_inv base r'.
Proof.
  unfold write_metaindex_block. intros Hinv Hrun.
  destruct (ok r); [|injection Hrun as <- _; exact Hinv].
  match type of Hrun with (match ?m with _ => _ end) = _ =>
    destruct m as [meta|]; [|discriminate] end.
  destruct (WriteBlock r meta) as [[[r1 b1] h1]|] eqn:Hwb; [|discriminate].
  injection Hrun as <- _.
  exact (sink_inv_WriteBlock base _ _ _ _ _ Hinv Hwb).
Qed.

Lemma sink_inv_write_index_block (base : list (FileCall * Status))
    (r r' : Rep) (h : BlockHandle) :
  sink_inv base r -> write_index_block r = Some (r', h) -> sink_inv base r'.
Proof.
  unfold write_index_block. intros Hinv Hrun.
  destruct (ok r); [|injection Hrun as <- _; exact Hinv].
  match type of Hrun with (match WriteBlock ?x ?b with _ => _ end) = _ =>
    destruct (WriteBlock x b) as [[[r1 b1] h1]|] eqn:Hwb; [|discriminate];
    assert (Hx : sink_inv base x)
      by (destruct (pending_index_entry r);
          [apply (sink_inv_same base r); auto | exact Hinv]);
    pose proof (sink_inv_WriteBlock base _ _ _ _ _ Hx Hwb) as H1 end.
  injection Hrun as <- _.
  apply (sink_inv_same base r1); auto.
Qed.

Lemma sink_inv_write_footer (base : list (FileCall * Status)) (r : Rep)
    (mh ih : BlockHandle) :
  sink_inv base r -> sink_inv base (write_footer r mh ih).
Proof.
  intros Hinv. unfold write_footer.
  destruct (ok r) eqn:Hok; [|exact Hinv].
  destruct (File_Append (file r) _) as [f st] eqn:Ha.
  pose proof (sink_inv_call base r (set_status st (set_file f r)) _ f st
                Hinv Hok Ha eq_refl eq_refl) as H1.
  fields. destruct (Status_ok st); [|exact H1].
  apply (sink_inv_same base (set_status st (set_file f r))); auto.
Qed.

Lemma sink_inv_Finish (base : list (FileCall * Status)) (r r' : Rep)
    (st : Status) :
  sink_inv base r -> Finish r = Some (r', st) -> sink_inv base r'.
Proof.
  intros Hinv Hrun. unfold Finish in Hrun.
  destruct (Flush r) as [r1|] eqn:Hflush; [|discriminate].
  pose proof (sink_inv_Flush base r r1 Hinv Hflush) as H1.
  destruct (assert (negb (closed r1))); [|discriminate].
  assert (Hx : sink_inv base (set_closed true r1))
    by (apply (sink_inv_same base r1); auto).
  pose proof (sink_inv_write_filter_block base _ Hx) as H2.
  destruct (write_filter_block (set_closed true r1)) as [r2 fh]. simpl in H2.
  destruct (write_metaindex_block r2 fh) as [[r3 mh]|] eqn:Hmeta; [|discriminate].
  pose proof (sink_inv_write_metaindex_block base _ _ _ _ H2 Hmeta) as H3.
  destruct (write_index_block r3) as [[r4 ih]|] eqn:Hindex; [|discriminate].
  pose proof (sink_inv_write_index_block base _ _ _ H3 Hindex) as H4.
  injection Hrun as <- _.
  exact (sink_inv_write_footer base r4 mh ih H4).
Qed.

Lemma sink_inv_step (base : list (FileCall * Status)) (r r' : Rep) (op : Op) :
  sink_inv base r -> step r op = Some r' -> sink_inv base r'.
Proof.
  intros Hinv Hrun. destruct op as [key value | | | | opts]; simpl in Hrun.
  - exact (sink_inv_Add base r r' key value Hinv Hrun).
  - exact (sink_inv_Flush base r r' Hinv Hrun).
  - destruct (Finish r) as [[r1 st]|] eqn:Hfin; [|discriminate].
    injection Hrun as <-. exact (sink_inv_Finish base r r1 st Hinv Hfin).
  - unfold Abandon in Hrun. destruct (assert _); [|discriminate].
    injection Hrun as <-. apply (sink_inv_same base r); auto.
  - injection Hrun as <-. unfold ChangeOptions.
    destruct (negb _); simpl; [exact Hinv|].
    apply (sink_inv_same base r); auto.
Qed.

Lemma sink_inv_run (base : list (FileCall * Status)) (ops : list Op) :
  forall r r', sink_inv base r -> run r ops = Some r' -> sink_inv base r'.
Proof.
  induction ops as [|op ops IH]; simpl; intros r r' Hinv Hrun.
  - injection Hrun as <-. exact Hinv.
  - destruct (step r op) as [r1|] eqn:Hstep; [|discriminate].
    exact (IH r1 r' (sink_inv_step base r r1 op Hinv Hstep) Hrun).
Qed.

(** X15.  The builder's status is the sink's first complaint: the sink's
    log since construction consists of calls that were all answered ok,
    followed, exactly when the status is not ok, by one last call whose
    answer is the status.  So no call reaches the sink after one that
    failed, [Append] or [Flush]. *)
Theorem status_is_first_sink_error (opt : Options) (f : WritableFile)
    (ops : list Op) (r : Rep) :
  run (TableBuilder_new opt f) ops = Some r ->
  exists log,
    file_log (file r) = file_log f ++ log /\
    (ok r = true -> all_ok log) /\
    (ok r = false ->
     exists earlier c, log = earlier ++ [(c, status_of r)] /\ all_ok earlier).
Proof.
  intros Hrun.
  assert (Hnew : sink_inv (file_log f) (TableBuilder_new opt f)).
  { exists []. unfold TableBuilder_new, Rep_new. fields.
    destruct (filter_policy opt =? nullptr); fields;
      (split; [rewrite app_nil_r; reflexivity | left; split; reflexivity]). }
  destruct (sink_inv_run _ ops _ r Hnew Hrun) as (log & Hlog & Htr).
  exists log. split; [exact Hlog|]. unfold ok, status_of.
  destruct Htr as [[-> Hst] | (earlier & c & -> & Hall)].
  - rewrite Hst. split; [constructor | discriminate].
  - split.
    + intros Hok. apply Status_ok_inv in Hok. rewrite Hok.
      apply Forall_app. split; [exact Hall | repeat constructor].
    + intros _. exists earlier, c. split; [reflexivity | exact Hall].
Qed.

(** *** The sink's log while all goes well *)

Lemma run_ok_induction (P : Rep -> Prop) :
  (forall r op r',
     P r -> step r op = Some r' -> ok r = true -> ok r' = true -> P r') ->
  forall ops r r', P r -> run r ops = Some r' -> ok r' = true -> P r'.
Proof.
  intros Hstep. induction ops as [|op ops IH]; simpl; intros r r' HP Hrun Hok'.
  - injection Hrun as <-. exact HP.
  - destruct (step r op) as [r1|] eqn:Hs; [|discriminate].
    pose proof (run_ok_back ops r1 r' Hrun Hok') as Hok1.
    pose proof (step_ok_back r r1 op Hs Hok1) as Hok.
    exact (IH r1 r' (Hstep r op r1 HP Hs Hok Hok1) Hrun Hok').
Qed.

Lemma data_log_app (b1 b2 : list (string * string)) :
  data_log (b1 ++ b2) = data_log b1 ++ data_log b2.
Proof. unfold data_log. apply flat_map_app. Qed.

Lemma flush_requests_data_log (blocks : list (string * string)) :
  flush_requests (data_log blocks) = List.length blocks.
Proof.
  induction blocks as [|b blocks IH]; simpl; [reflexivity|].
  rewrite IH. reflexivity.
Qed.

Lemma appended_data_log (blocks : list (string * string)) :
  appended (data_log blocks) = pieces_of blocks.
Proof.
  induction blocks as [|[p t] blocks IH]; simpl; [reflexivity|].
  rewrite IH. reflexivity.
Qed.

Lemma flush_inv_Flush (base : list (FileCall * Status)) (r r' : Rep) :
  flush_inv base r -> Flush r = Some r' -> ok r = true -> ok r' = true ->
  flush_inv base r'.
Proof.
  intros Hinv Hrun Hok Hok'.
  destruct (Flush_kept r r' Hrun) as [_ Hcl].
  destruct (BlockBuilder_empty (data_block r)) eqn:Hne.
  { pose proof (Flush_open r r' Hrun) as Hop.
    rewrite Flush_idle in Hrun by auto. injection Hrun as <-. exact Hinv. }
  destruct (Flush_written r r' Hrun Hok Hok' Hne)
    as (_ & _ & _ & _ & _ & _ & _ & _ & _ & Hlog).
  intros Hop. rewrite Hcl in Hop. destruct (Hinv Hop) as (blocks & Hb).
  destruct (payload_of r (data_block r)) as [c t]. simpl in Hlog.
  exists (blocks ++ [(c, trailer_of c t)]).
  rewrite Hlog, Hb, data_log_app, <- app_assoc. reflexivity.
Qed.

Lemma flush_inv_step (base : list (FileCall * Status)) (r r' : Rep) (op : Op) :
  flush_inv base r -> step r op = Some r' -> ok r = true -> ok r' = true ->
  flush_inv base r'.
Proof.
  intros Hinv Hrun Hok Hok'.
  destruct op as [key value | | | | opts]; simpl in Hrun.
  - unfold Add in Hrun.
    destruct (closed r) eqn:Hop; [discriminate|]. simpl in Hrun.
    rewrite Hok in Hrun. simpl in Hrun.
    destruct (assert _); [|discriminate].
    destruct (emit_pending_index_entry r key) as [r1|] eqn:Hemit; [|discriminate].
    destruct (emit_fields r r1 key Hemit) as (Hf1 & _ & Hs1 & _).
    destruct (emit_kept r r1 key Hemit) as (_ & Hcl1 & _).
    destruct (append_record r1 key value) as [r2|] eqn:Happ; [|discriminate].
    destruct (append_fields r1 r2 key value Happ) as (Hf2 & _ & Hs2 & _).
    destruct (append_record_effect r1 r2 key value Happ)
      as (_ & _ & _ & _ & _ & Hcl2).
    assert (Hinv2 : flush_inv base r2).
    { intros _. destruct (Hinv Hop) as (blocks & Hb). exists blocks.
      congruence. }
    destruct (_ <=? _); [|injection Hrun as <-; exact Hinv2].
    apply (flush_inv_Flush base r2 r' Hinv2 Hrun); [|exact Hok'].
    unfold ok in *. congruence.
  - exact (flush_inv_Flush base r r' Hinv Hrun Hok Hok').
  - destruct (Finish r) as [[r1 st]|] eqn:Hfin; [|discriminate].
    injection Hrun as <-.
    destruct (Finish_kept r r1 st Hfin) as (_ & _ & Hcl).
    intros Hop. congruence.
  - unfold Abandon in Hrun. destruct (assert _); [|discriminate].
    injection Hrun as <-. intros Hop. discriminate.
  - injection Hrun as <-. unfold ChangeOptions.
    destruct (negb _); simpl; exact Hinv.
Qed.

(** X16.  While the builder is open and its status ok, the sink has
    received, since construction, exactly three calls per data block, in
    this order: the payload, the trailer, a flush request; so it was asked
    to flush once per data block, after the block was complete. *)
Theorem sink_log_of_data_blocks (opt : Options) (f : WritableFile)
    (ops : list Op) (r : Rep) :
  run (TableBuilder_new opt f) ops = Some r ->
  ok r = true -> closed r = false ->
  exists blocks,
    file_log (file r) = file_log f ++ data_log blocks /\
    appended (file_log (file r)) = appended (file_log f) ++ pieces_of blocks /\
    flush_requests (file_log (file r))
    = (flush_requests (file_log f) + List.length blocks)%nat.
Proof.
  intros Hrun Hok Hop.
  assert (Hnew : flush_inv (file_log f) (TableBuilder_new opt f)).
  { intros _. exists []. unfold TableBuilder_new, Rep_new. fields.
    destruct (filter_policy opt =? nullptr); fields; simpl;
      rewrite app_nil_r; reflexivity. }
  pose proof (run_ok_induction (flush_inv (file_log f))
                (fun r0 op r1 => flush_inv_step (file_log f) r0 r1 op)
                ops _ r Hnew Hrun Hok) as Hinv.
  destruct (Hinv Hop) as (blocks & Hlog).
  exists blocks. split; [exact Hlog|].
  rewrite Hlog, appended_app, flush_requests_app, appended_data_log,
    flush_requests_data_log.
  split; reflexivity.
Qed.

(** *** The filter policy at [Finish] *)




(** *** A build that succeeds *)

Lemma File_call_accepts (c : FileCall) (f : WritableFile) :
  file_script f = [] ->
  File_call c f
  = ({| file_log := file_log f ++ [(c, Status_OK)]; file_script := [] |},
     Status_OK).
Proof. intros H. unfold File_call. rewrite H. reflexivity. Qed.

Lemma raw_write_accepts (r r1 : Rep) (c : string) (t : CompressionType) :
  raw_write r c t r1 -> file_script (file r) = [] ->
  ok r1 = true /\ file_script (file r1) = [].
Proof.
  intros Hraw Hs.
  inversion Hraw as [f st Ha Hst Heq | f1 f2 st Ha1 Ha2 Hst Heq | f1 f2 Ha1 Ha2 Heq];
    unfold File_Append in *.
  - rewrite (File_call_accepts _ _ Hs) in Ha. injection Ha as _ <-.
    discriminate.
  - rewrite (File_call_accepts _ _ Hs) in Ha1. injection Ha1 as <-.
    rewrite File_call_accepts in Ha2 by reflexivity. injection Ha2 as _ <-.
    discriminate.
  - rewrite (File_call_accepts _ _ Hs) in Ha1. injection Ha1 as <-.
    rewrite File_call_accepts in Ha2 by reflexivity. injection Ha2 as <-.
    split; reflexivity.
Qed.

Lemma WriteBlock_accepts (r : Rep) (b : BlockBuilder) :
  ok r = true -> file_script (file r) = [] ->
  exists r' b' h,
    WriteBlock r b = Some (r', b', h) /\
    ok r' = true /\ file_script (file r') = [].
Proof.
  intros Hok Hs. destruct (WriteBlock_cases r b Hok) as (r1 & Hraw & Heq).
  destruct (raw_write_accepts _ _ _ _ Hraw Hs) as [Hok1 Hs1].
  eexists. eexists. eexists. split; [exact Heq|]. split; assumption.
Qed.

Lemma filter_view_kept (r r' : Rep) :
  filter_view r' = filter_view r ->
  forall opt,
    (filter_view r <> None -> filter_policy opt <> nullptr) ->
    filter_view r' <> None -> filter_policy opt <> nullptr.
Proof. intros -> opt H. exact H. Qed.

Lemma Flush_accepts (opt : Options) (r : Rep) :
  healthy opt r ->
  exists r',
    Flush r = Some r' /\ healthy opt r' /\
    last_key r' = last_key r /\ num_entries r' = num_entries r.
Proof.
  intros (Hcore & Hopt & Hop & Hok & Hs & Hpol).
  destruct (Flush_total _ r Hcore Hop) as [r' Hrun].
  exists r'. split; [exact Hrun|].
  pose proof (core_inv_Flush _ r r' Hcore Hrun) as Hcore'.
  destruct (Flush_kept r r' Hrun) as [(Hn & Hv & Ho & _) Hcl].
  destruct (Flush_Some_cases r r' Hrun)
    as [_ [[-> _] | (_ & Hne & _ & r1 & Hraw & Heq)]].
  - split; [|split; reflexivity].
    exact (conj Hcore (conj Hopt (conj Hop (conj Hok (conj Hs Hpol))))).
  - destruct (raw_write_accepts _ _ _ _ Hraw Hs) as [Hok1 Hs1].
    assert (Hok' : ok r' = true /\ file_script (file r') = []).
    { rewrite Heq.
      match goal with |- ok (Flush_tail ?x) = true /\ _ =>
        assert (Hokx : ok x = true) by exact Hok1;
        destruct (Flush_tail_ok x Hokx) as [_ Hcall];
        change (file x) with (file r1) in Hcall end.
      unfold File_Flush in Hcall.
      rewrite (File_call_accepts _ _ Hs1) in Hcall.
      injection Hcall as Hf Hst. unfold ok. rewrite Hf, Hst.
      split; reflexivity. }
    destruct Hok' as [Hok' Hs'].
    destruct (Flush_written r r' Hrun Hok Hok' Hne)
      as (_ & _ & _ & _ & _ & _ & _ & Hlk & _).
    split; [|split; assumption].
    split; [exact Hcore'|]. split; [congruence|]. split; [congruence|].
    split; [exact Hok'|]. split; [exact Hs'|].
    exact (filter_view_kept r r' Hv opt Hpol).
Qed.

Lemma Add_accepts (opt : Options) (r : Rep) (key value : string) :
  healthy opt r ->
  (0 < num_entries r ->
   0 < Compare (comparator_at (comparator opt)) key (last_key r)) ->
  num_entries r < INT64_MAX ->
  exists r',
    Add r key value = Some r' /\ healthy opt r' /\
    last_key r' = key /\ num_entries r' = num_entries r + 1.
Proof.
  intros (Hcore & Hopt & Hop & Hok & Hs & Hpol) Hord Hmax.
  unfold Add. rewrite Hop, Hok. cbn [negb assert].
  assert (Hcheck : (if 0 <? num_entries r
                    then 0 <? Compare (comparator_at (comparator (options r)))
                                key (last_key r)
                    else true) = true).
  { destruct (0 <? num_entries r) eqn:Hpos; [|reflexivity].
    apply Z.ltb_lt in Hpos. apply Z.ltb_lt. rewrite Hopt. exact (Hord Hpos). }
  rewrite Hcheck. cbn [assert].
  assert (Hemit : exists r1, emit_pending_index_entry r key = Some r1).
  { unfold emit_pending_index_entry.
    destruct (pending_index_entry r) eqn:Hpend; [|eexists; reflexivity].
    destruct (BlockBuilder_empty (data_block r)) eqn:Hempty;
      [eexists; reflexivity|].
    destruct (inv_nonempty _ r Hcore Hempty). congruence. }
  destruct Hemit as [r1 Hemit]. rewrite Hemit.
  destruct (core_inv_emit _ r r1 key Hcore Hemit) as (Hcore1 & Hpe1 & Hn1 & _).
  destruct (emit_kept r r1 key Hemit) as ((_ & Hv1 & Ho1 & _) & Hcl1 & Hst1).
  destruct (emit_fields r r1 key Hemit) as (Hf1 & _).
  assert (Happ : exists r2, append_record r1 key value = Some r2).
  { unfold append_record.
    assert (Hlt : (num_entries r1 <? INT64_MAX) = true)
      by (apply Z.ltb_lt; lia).
    destruct (filter_block r1); fields; rewrite Hlt; eexists; reflexivity. }
  destruct Happ as [r2 Happ]. rewrite Happ.
  destruct (core_inv_append _ r1 r2 key value Hcore1 Hpe1 Happ)
    as (Hcore2 & _ & Hn2 & _).
  destruct (append_record_effect r1 r2 key value Happ)
    as (_ & _ & Hv2 & Ho2 & _ & Hcl2).
  destruct (append_fields r1 r2 key value Happ)
    as (Hf2 & _ & Hst2 & _ & _ & _ & Hlk2 & _).
  assert (H2 : healthy opt r2).
  { split; [exact Hcore2|]. split; [congruence|]. split; [congruence|].
    split; [unfold ok in *; congruence|]. split; [congruence|].
    intros Hsome. apply Hpol. intros Hnone. apply Hsome.
    rewrite Hv2, Hv1, Hnone. reflexivity. }
  cbn beta iota.
  destruct (_ <=? _).
  - destruct (Flush_accepts opt r2 H2) as (r' & Hrun & H' & Hlk & Hn).
    exists r'. split; [exact Hrun|]. split; [exact H'|].
    split; congruence.
  - exists r2. split; [reflexivity|]. split; [exact H2|].
    split; [exact Hlk2 | congruence].
Qed.

Lemma run_adds_accepts (opt : Options) (records : list (string * string)) :
  forall r,
    healthy opt r ->
    match records with
    | [] => True
    | kv :: _ =>
        0 < num_entries r ->
        0 < Compare (comparator_at (comparator opt)) (fst kv) (last_key r)
    end ->
    increasing (comparator_at (comparator opt)) (List.map fst records) ->
    num_entries r + Z.of_nat (List.length records) <= INT64_MAX ->
    exists r',
      run r (adds records) = Some r' /\ healthy opt r' /\
      num_entries r' = num_entries r + Z.of_nat (List.length records).
Proof.
  induction records as [|[k v] records IH]; intros r Hr Hfirst Hinc Hmax.
  - exists r. simpl. split; [reflexivity|]. split; [exact Hr | lia].
  - cbn [List.length] in Hmax. rewrite Nat2Z.inj_succ in Hmax.
    destruct (Add_accepts opt r k v Hr Hfirst ltac:(lia))
      as (r1 & Hadd & H1 & Hlk & Hn).
    destruct Hinc as [Hnext Hinc].
    destruct (IH r1 H1) as (r' & Hrun & H' & Hn'); [| exact Hinc | lia |].
    + destruct records as [|[k2 v2] records]; [exact I|].
      intros _. rewrite Hlk. exact Hnext.
    + exists r'.
      change (run r (adds ((k, v) :: records)))
        with (x <- Add r k v ;; run x (adds records)).
      rewrite Hadd.
      split; [exact Hrun|]. split; [exact H'|].
      cbn [List.length]. rewrite Nat2Z.inj_succ. lia.
Qed.

Lemma write_filter_block_accepts (r : Rep) :
  ok r = true -> file_script (file r) = [] ->
  ok (fst (write_filter_block r)) = true /\
  file_script (file (fst (write_filter_block r))) = [].
Proof.
  intros Hok Hs. unfold write_filter_block.
  destruct (filter_block r) as [fb|]; [|split; assumption].
  rewrite Hok.
  match goal with |- context [WriteRawBlock ?x ?c ?t] =>
    destruct (WriteRawBlock_cases x c t) as [Hraw _];
    exact (raw_write_accepts x _ c t Hraw Hs) end.
Qed.

Lemma write_metaindex_block_accepts (r : Rep) (fh : BlockHandle) :
  ok r = true -> file_script (file r) = [] ->
  (filter_view r <> None -> filter_policy (options r) <> nullptr) ->
  exists r' h,
    write_metaindex_block r fh = Some (r', h) /\
    ok r' = true /\ file_script (file r') = [].
Proof.
  intros Hok Hs Hpol. unfold write_metaindex_block, filter_view in *.
  rewrite Hok.
  destruct (filter_block r) as [fb|].
  - assert (Hnull : (filter_policy (options r) =? nullptr) = false)
      by (apply Z.eqb_neq, Hpol; discriminate).
    rewrite Hnull. cbn [negb assert].
    match goal with |- context [WriteBlock r ?b] =>
      destruct (WriteBlock_accepts r b Hok Hs) as (r' & b' & h & Hwb & Hok' & Hs') end.
    cbn beta iota. rewrite Hwb. eexists. eexists.
    split; [reflexivity|]. split; assumption.
  - match goal with |- context [WriteBlock r ?b] =>
      destruct (WriteBlock_accepts r b Hok Hs) as (r' & b' & h & Hwb & Hok' & Hs') end.
    cbn beta iota. rewrite Hwb. eexists. eexists.
    split; [reflexivity|]. split; assumption.
Qed.

Lemma write_index_block_accepts (r : Rep) :
  ok r = true -> file_script (file r) = [] ->
  exists r' h,
    write_index_block r = Some (r', h) /\
    ok r' = true /\ file_script (file r') = [].
Proof.
  intros Hok Hs. unfold write_index_block. rewrite Hok.
  match goal with |- context [WriteBlock ?x ?b] =>
    assert (Hokx : ok x = true)
      by (destruct (pending_index_entry r); exact Hok);
    assert (Hsx : file_script (file x) = [])
      by (destruct (pending_index_entry r); exact Hs);
    destruct (WriteBlock_accepts x b Hokx Hsx) as (r' & b' & h & Hwb & Hok' & Hs')
  end.
  rewrite Hwb. eexists. eexists. split; [reflexivity|]. split; assumption.
Qed.

Lemma write_footer_accepts (r : Rep) (mh ih : BlockHandle) :
  ok r = true -> file_script (file r) = [] ->
  status (write_footer r mh ih) = Status_OK.
Proof.
  intros Hok Hs. unfold write_footer. rewrite Hok. unfold File_Append.
  rewrite (File_call_accepts _ _ Hs). reflexivity.
Qed.

Lemma Finish_accepts (opt : Options) (r : Rep) :
  healthy opt r -> exists r', Finish r = Some (r', Status_OK).
Proof.
  intros Hr.
  destruct (Flush_accepts opt r Hr)
    as (r1 & Hflush & (Hcore1 & Hopt1 & Hop1 & Hok1 & Hs1 & Hpol1) & _).
  unfold Finish. rewrite Hflush. cbn beta iota. rewrite Hop1.
  cbn [negb assert].
  destruct (write_filter_block_accepts (set_closed true r1) Hok1 Hs1)
    as [Hok2 Hs2].
  destruct (write_filter_block_kept (set_closed true r1))
    as [(_ & Hv2 & Ho2 & _) _].
  destruct (write_filter_block (set_closed true r1)) as [r2 fh].
  cbn [fst] in *.
  destruct (write_metaindex_block_accepts r2 fh Hok2 Hs2)
    as (r3 & mh & Hmeta & Hok3 & Hs3).
  { rewrite Ho2. cbn [options set_closed]. rewrite Hopt1.
    intros Hsome. apply Hpol1. rewrite Hv2 in Hsome. exact Hsome. }
  rewrite Hmeta. cbn beta iota.
  destruct (write_index_block_accepts r3 Hok3 Hs3)
    as (r4 & ih & Hindex & Hok4 & Hs4).
  rewrite Hindex. cbn beta iota.
  rewrite (write_footer_accepts r4 mh ih Hok4 Hs4).
  eexists. reflexivity.
Qed.

Lemma healthy_new (opt : Options) (f : WritableFile) :
  file_script f = [] -> healthy opt (TableBuilder_new opt f).
Proof.
  intros Hs. split; [apply core_inv_new|].
  unfold TableBuilder_new, Rep_new, filter_view.
  destruct (filter_policy opt =? nullptr) eqn:Hnull; fields;
    repeat split; try assumption.
  - intros H. contradiction H. reflexivity.
  - intros _. apply Z.eqb_neq. exact Hnull.
Qed.

(** X22.  A build that cannot fail: on a sink that accepts everything,
    adding records whose keys increase strictly under the comparator (fewer
    than [2^63] of them) trips no assertion and leaves the status ok, and
    [Finish] then returns ok, with [NumEntries()] the number of records. *)
Theorem build_succeeds (opt : Options) (f : WritableFile)
    (records : list (string * string)) :
  file_script f = [] ->
  increasing (comparator_at (comparator opt)) (List.map fst records) ->
  Z.of_nat (List.length records) <= INT64_MAX ->
  exists r r',
    run (TableBuilder_new opt f) (adds records) = Some r /\
    ok r = true /\ closed r = false /\
    Finish r = Some (r', Status_OK) /\
    NumEntries r' = Z.of_nat (List.length records).
Proof.
  intros Hs Hinc Hmax.
  pose proof (healthy_new opt f Hs) as Hnew.
  assert (H0 : num_entries (TableBuilder_new opt f) = 0).
  { unfold TableBuilder_new, Rep_new. fields.
    destruct (filter_policy opt =? nullptr); reflexivity. }
  destruct (run_adds_accepts opt records _ Hnew) as (r & Hrun & Hr & Hn);
    [|exact Hinc | rewrite H0; lia |].
  { destruct records; [exact I|]. rewrite H0. lia. }
  destruct (Finish_accepts opt r Hr) as [r' Hfin].
  destruct (Finish_kept r r' _ Hfin) as ((Hn' & _) & _).
  destruct Hr as (_ & _ & Hop & Hok & _).
  exists r, r'. split; [exact Hrun|]. split; [exact Hok|].
  split; [exact Hop|]. split; [exact Hfin|].
  unfold NumEntries, wrap64. rewrite Hn', Hn, H0.
  apply Z.mod_small. unfold INT64_MAX in Hmax. lia.
Qed.

End More.

End TableBuilderMore.

(** ** Further concrete runs *)

Module MoreRuns.

Import TableBuilder Invariants Reference TableBuilderProofs TableBuilderMore.

Local Open Scope string_scope.

#[local] Existing Instance no_snappy.

(** After a refused [Append], a whole sequence of calls leaves the sink
    alone. *)
Lemma failed_builder_stays_silent_witness :
  exists r r',
    run (TableBuilder_new plain_options (scripted [Status_IOError "disk full"]))
      [OpAdd "a" "1"; OpFlush] = Some r /\
    run r [OpAdd "b" "2"; OpFlush; OpChangeOptions small_block_options;
           OpFinish] = Some r' /\
    file r' = file r.
Proof.
  destruct (run (TableBuilder_new plain_options
                   (scripted [Status_IOError "disk full"]))
              [OpAdd "a" "1"; OpFlush]) as [r|] eqn:Hrun;
    [|vm_compute in Hrun; discriminate].
  pose proof Hrun as Hval. vm_compute in Hval. injection Hval as Hval.
  assert (Hok : ok r = false) by (rewrite <- Hval; reflexivity).
  destruct (run r [OpAdd "b" "2"; OpFlush; OpChangeOptions small_block_options;
                   OpFinish]) as [r'|] eqn:Hrun';
    [|rewrite <- Hval in Hrun'; vm_compute in Hrun'; discriminate].
  exists r, r'. split; [reflexivity|]. split; [exact Hrun'|].
  exact (proj1 (proj2 (failed_builder_stays_silent r r' _ Hok Hrun'))).
Defined.

Lemma NumEntries_counts_Adds_witness :
  exists r,
    run (TableBuilder_new plain_options (scripted []))
      [OpAdd "a" "1"; OpFlush; OpAdd "b" "2"] = Some r /\
    NumEntries r = 2.
Proof.
  destruct (run (TableBuilder_new plain_options (scripted []))
              [OpAdd "a" "1"; OpFlush; OpAdd "b" "2"]) as [r|] eqn:Hrun;
    [|vm_compute in Hrun; discriminate].
  pose proof Hrun as Hval. vm_compute in Hval. injection Hval as Hval.
  assert (Hok : ok r = true) by (rewrite <- Hval; reflexivity).
  destruct (NumEntries_counts_Adds plain_options (scripted []) _ r Hrun)
    as (_ & _ & _ & Hexact).
  exists r. split; [reflexivity | exact (Hexact Hok)].
Defined.

Lemma filter_receives_added_keys_witness :
  exists r fb,
    run (TableBuilder_new filter_options (scripted []))
      [OpAdd "a" "1"; OpFlush; OpAdd "b" "2"] = Some r /\
    filter_block r = Some fb /\
    delivered_keys (filter_calls fb) = ["a"; "b"].
Proof.
  destruct (run (TableBuilder_new filter_options (scripted []))
              [OpAdd "a" "1"; OpFlush; OpAdd "b" "2"]) as [r|] eqn:Hrun;
    [|vm_compute in Hrun; discriminate].
  pose proof Hrun as Hval. vm_compute in Hval. injection Hval as Hval.
  assert (Hok : ok r = true) by (rewrite <- Hval; reflexivity).
  destruct (filter_receives_added_keys filter_options (scripted []) _ r Hrun)
    as [_ Hsome].
  destruct (Hsome ltac:(discriminate)) as (fb & Hfb & _ & Hkeys).
  exists r, fb. split; [reflexivity|]. split; [exact Hfb | exact (Hkeys Hok)].
Defined.

Lemma closes_once_witness :
  exists r,
    run (TableBuilder_new plain_options (scripted []))
      [OpAdd "a" "1"; OpFinish; OpChangeOptions small_block_options] = Some r /\
    closed r = true /\
    TableBuilder_delete r = Some tt.
Proof.
  destruct (run (TableBuilder_new plain_options (scripted []))
              [OpAdd "a" "1"; OpFinish; OpChangeOptions small_block_options])
    as [r|] eqn:Hrun; [|vm_compute in Hrun; discriminate].
  destruct (closes_once plain_options (scripted []) _ r Hrun)
    as (Hcl & Hdel & _).
  exists r. split; [reflexivity|]. split; [exact Hcl|].
  apply Hdel. reflexivity.
Defined.

Lemma Flush_twice_witness :
  exists r r1,
    run (TableBuilder_new plain_options (scripted [])) [OpAdd "a" "1"] = Some r /\
    Flush r = Some r1 /\
    Flush r1 = Some r1.
Proof.
  destruct (run (TableBuilder_new plain_options (scripted [])) [OpAdd "a" "1"])
    as [r|] eqn:Hrun; [|vm_compute in Hrun; discriminate].
  pose proof Hrun as Hval. vm_compute in Hval. injection Hval as Hval.
  destruct (Flush r) as [r1|] eqn:Hflush;
    [|rewrite <- Hval in Hflush; vm_compute in Hflush; discriminate].
  exists r, r1. split; [reflexivity|]. split; [exact Hflush|].
  exact (proj1 (Flush_twice r r1 Hflush)).
Defined.

Lemma added_keys_increase_witness :
  exists r,
    run (TableBuilder_new plain_options (scripted []))
      [OpAdd "a" "1"; OpFlush; OpAdd "b" "2"] = Some r /\
    increasing (comparator_at (comparator plain_options)) ["a"; "b"] /\
    last_key r = "b".
Proof.
  destruct (run (TableBuilder_new plain_options (scripted []))
              [OpAdd "a" "1"; OpFlush; OpAdd "b" "2"]) as [r|] eqn:Hrun;
    [|vm_compute in Hrun; discriminate].
  pose proof Hrun as Hval. vm_compute in Hval. injection Hval as Hval.
  assert (Hok : ok r = true) by (rewrite <- Hval; reflexivity).
  assert (Hop : closed r = false) by (rewrite <- Hval; reflexivity).
  destruct (added_keys_increase plain_options (scripted []) _ r Hrun Hok)
    as [Hinc Hlast].
  exists r. split; [reflexivity|]. split; [exact Hinc | exact (Hlast Hop)].
Defined.

(** Three records added while every entry is a restart anchor, a fourth
    after the options changed: the block that the fourth [Add] flushes holds
    the four entries, each with the options it was added under. *)
Lemma records_fill_data_blocks_witness :
  exists r blocks groups,
    run (TableBuilder_new anchored_options (scripted []))
      [OpAdd "key0001" "1"; OpAdd "key0002" "2"; OpAdd "key0003" "3";
       OpChangeOptions shared_options; OpAdd "key0004" "4"] = Some r /\
    appended (file_log (file r)) = pieces_of blocks /\
    List.map size (appended (file_log (file r))) = [54; 5] /\
    Forall2 (holds [anchored_options; shared_options]) groups blocks /\
    List.concat groups
    = [(anchored_options, ("key0001", "1"));
       (anchored_options, ("key0002", "2"));
       (anchored_options, ("key0003", "3"));
       (shared_options, ("key0004", "4"))].
Proof.
  destruct (run (TableBuilder_new anchored_options (scripted []))
              [OpAdd "key0001" "1"; OpAdd "key0002" "2"; OpAdd "key0003" "3";
               OpChangeOptions shared_options; OpAdd "key0004" "4"])
    as [r|] eqn:Hrun; [|vm_compute in Hrun; discriminate].
  pose proof Hrun as Hval. vm_compute in Hval. injection Hval as Hval.
  assert (Hok : ok r = true) by (rewrite <- Hval; reflexivity).
  assert (Hop : closed r = false) by (rewrite <- Hval; reflexivity).
  assert (Hnil : added (data_block r) = []) by (rewrite <- Hval; reflexivity).
  assert (Hsizes : List.map size (appended (file_log (file r))) = [54; 5])
    by (rewrite <- Hval; reflexivity).
  destruct (records_fill_data_blocks anchored_options (scripted []) _ r
              Hrun Hok Hop) as (blocks & groups & Hp & Hh & Hrecs & _).
  exists r, blocks, groups.
  rewrite Hnil, app_nil_r in Hrecs.
  split; [reflexivity|]. split; [exact Hp|]. split; [exact Hsizes|].
  split; [exact Hh | exact Hrecs].
Defined.

Lemma index_entries_locate_data_blocks_witness :
  exists r blocks,
    run (TableBuilder_new plain_options (scripted []))
      [OpAdd "a" "1"; OpFlush; OpAdd "b" "2"; OpFlush] = Some r /\
    appended (file_log (file r)) = pieces_of blocks /\
    (List.map snd (entries (index_block r)) ++ pending_part r)%list
    = List.map BlockHandle_EncodeTo (block_handles 0 blocks).
Proof.
  destruct (run (TableBuilder_new plain_options (scripted []))
              [OpAdd "a" "1"; OpFlush; OpAdd "b" "2"; OpFlush]) as [r|] eqn:Hrun;
    [|vm_compute in Hrun; discriminate].
  pose proof Hrun as Hval. vm_compute in Hval. injection Hval as Hval.
  assert (Hok : ok r = true) by (rewrite <- Hval; reflexivity).
  assert (Hop : closed r = false) by (rewrite <- Hval; reflexivity).
  destruct (index_entries_locate_data_blocks plain_options (scripted []) _ r
              Hrun Hok Hop) as (blocks & Hp & Hidx & _).
  exists r, blocks.
  split; [reflexivity|]. split; [exact Hp | exact Hidx].
Defined.

Lemma filter_calls_follow_blocks_witness :
  exists r blocks groups fb,
    run (TableBuilder_new filter_options (scripted []))
      [OpAdd "a" "1"; OpFlush; OpAdd "b" "2"] = Some r /\
    filter_block r = Some fb /\
    filter_calls fb
    = (CallStartBlock 0
       :: filter_trace 0 (records_of groups) blocks
          ++ List.map CallAddKey (List.map fst (entries (data_block r))))%list.
Proof.
  destruct (run (TableBuilder_new filter_options (scripted []))
              [OpAdd "a" "1"; OpFlush; OpAdd "b" "2"]) as [r|] eqn:Hrun;
    [|vm_compute in Hrun; discriminate].
  pose proof Hrun as Hval. vm_compute in Hval. injection Hval as Hval.
  assert (Hok : ok r = true) by (rewrite <- Hval; reflexivity).
  assert (Hop : closed r = false) by (rewrite <- Hval; reflexivity).
  destruct (filter_calls_follow_blocks filter_options (scripted []) _ r
              Hrun Hok Hop) as (blocks & groups & _ & _ & _ & Hcalls).
  destruct (filter_block r) as [fb|] eqn:Hfb;
    [|rewrite <- Hval in Hfb; discriminate].
  exists r, blocks, groups, fb.
  split; [reflexivity|]. split; [exact Hfb | exact (Hcalls fb eq_refl)].
Defined.

Lemma Finish_writes_the_table_witness :
  exists r r' r1 blocks groups,
    run (TableBuilder_new filter_options (scripted []))
      [OpAdd "a" "1"; OpFlush; OpAdd "b" "2"] = Some r /\
    Finish r = Some (r', Status_OK) /\
    Flush r = Some r1 /\
    appended (file_log (file r')) = (pieces_of blocks ++ closing_pieces r1)%list /\
    List.concat (records_of groups) = [("a", "1"); ("b", "2")].
Proof.
  destruct (run (TableBuilder_new filter_options (scripted []))
              [OpAdd "a" "1"; OpFlush; OpAdd "b" "2"]) as [r|] eqn:Hrun;
    [|vm_compute in Hrun; discriminate].
  pose proof Hrun as Hval. vm_compute in Hval. injection Hval as Hval.
  destruct (Finish r) as [[r' st]|] eqn:Hfin;
    [|rewrite <- Hval in Hfin; vm_compute in Hfin; discriminate].
  assert (Hst : st = Status_OK).
  { pose proof Hfin as Hv. rewrite <- Hval in Hv. vm_compute in Hv.
    injection Hv as _ <-. reflexivity. }
  subst st.
  destruct (Finish_writes_the_table filter_options (scripted []) _ r r'
              Hrun Hfin)
    as (r1 & blocks & groups & Hflush & Hp & _ & _ & Hrecs & _).
  exists r, r', r1, blocks, groups.
  split; [reflexivity|]. split; [exact Hfin|]. split; [exact Hflush|].
  split; [exact Hp | exact Hrecs].
Defined.

Lemma Finish_handles_read_back_witness :
  exists r r' r1 blocks,
    run (TableBuilder_new filter_options (scripted []))
      [OpAdd "a" "1"; OpFlush; OpAdd "b" "2"] = Some r /\
    Finish r = Some (r', Status_OK) /\
    Flush r = Some r1 /\
    let data := contents (pieces_of blocks ++ closing_pieces r1)%list in
    read_at data (metaindex_block_handle_of r1) = fst (metaindex_payload r1) /\
    read_at data (index_block_handle_of r1) = fst (index_payload r1).
Proof.
  destruct (run (TableBuilder_new filter_options (scripted []))
              [OpAdd "a" "1"; OpFlush; OpAdd "b" "2"]) as [r|] eqn:Hrun;
    [|vm_compute in Hrun; discriminate].
  pose proof Hrun as Hval. vm_compute in Hval. injection Hval as Hval.
  destruct (Finish r) as [[r' st]|] eqn:Hfin;
    [|rewrite <- Hval in Hfin; vm_compute in Hfin; discriminate].
  pose proof Hfin as Hv. rewrite <- Hval in Hv. vm_compute in Hv.
  injection Hv as Hr' Hst. subst st.
  destruct (Finish_handles_read_back filter_options (scripted []) _ r r'
              Hrun Hfin) as (r1 & blocks & Hflush & Hp & _ & Hread).
  exists r, r', r1, blocks.
  split; [reflexivity|]. split; [exact Hfin|]. split; [exact Hflush|].
  cbv zeta in Hread |- *.
  assert (Hsmall : size (contents (pieces_of blocks ++ closing_pieces r1)%list)
                   < 2 ^ 64).
  { change (appended (file_log (scripted [])) ++ pieces_of blocks
            ++ closing_pieces r1)%list
      with (pieces_of blocks ++ closing_pieces r1)%list in Hp.
    rewrite <- Hp, <- Hr'. reflexivity. }
  destruct (Hread Hsmall) as (_ & _ & Hmeta & Hindex & _).
  split; [exact Hmeta | exact Hindex].
Defined.

(** A sink that accepts a payload and refuses its trailer. *)
Lemma status_is_first_sink_error_witness :
  exists r earlier c,
    run (TableBuilder_new plain_options
           (scripted [Status_OK; Status_IOError "disk full"]))
      [OpAdd "a" "1"; OpFlush; OpAdd "b" "2"; OpFinish] = Some r /\
    file_log (file r) = (earlier ++ [(c, Status_IOError "disk full")])%list /\
    all_ok earlier.
Proof.
  destruct (run (TableBuilder_new plain_options
                   (scripted [Status_OK; Status_IOError "disk full"]))
              [OpAdd "a" "1"; OpFlush; OpAdd "b" "2"; OpFinish])
    as [r|] eqn:Hrun; [|vm_compute in Hrun; discriminate].
  pose proof Hrun as Hval. vm_compute in Hval. injection Hval as Hval.
  assert (Hbad : ok r = false) by (rewrite <- Hval; reflexivity).
  assert (Hst : status_of r = Status_IOError "disk full")
    by (rewrite <- Hval; reflexivity).
  destruct (status_is_first_sink_error plain_options _ _ r Hrun)
    as (log & Hlog & _ & Hfail).
  destruct (Hfail Hbad) as (earlier & c & Hsplit & Hall).
  exists r, earlier, c. split; [reflexivity|]. split; [|exact Hall].
  rewrite Hlog, Hsplit, Hst. reflexivity.
Defined.

Lemma sink_log_of_data_blocks_witness :
  exists r blocks,
    run (TableBuilder_new plain_options (scripted []))
      [OpAdd "a" "1"; OpFlush; OpAdd "b" "2"; OpFlush] = Some r /\
    file_log (file r) = data_log blocks /\
    flush_requests (file_log (file r)) = List.length blocks.
Proof.
  destruct (run (TableBuilder_new plain_options (scripted []))
              [OpAdd "a" "1"; OpFlush; OpAdd "b" "2"; OpFlush]) as [r|] eqn:Hrun;
    [|vm_compute in Hrun; discriminate].
  pose proof Hrun as Hval. vm_compute in Hval. injection Hval as Hval.
  assert (Hok : ok r = true) by (rewrite <- Hval; reflexivity).
  assert (Hop : closed r = false) by (rewrite <- Hval; reflexivity).
  destruct (sink_log_of_data_blocks plain_options (scripted []) _ r
              Hrun Hok Hop) as (blocks & Hlog & _ & Hflush).
  exists r, blocks.
  split; [reflexivity|]. split; [exact Hlog | exact Hflush].
Defined.

(** The block boundary of the format's example: the entry of the first
    block is emitted when ["the who"] arrives. *)
Lemma index_keys_separate_blocks_witness :
  exists r blocks groups,
    run (TableBuilder_new plain_options (scripted []))
      [OpAdd "the quick brown fox" "1"; OpFlush; OpAdd "the who" "2"] = Some r /\
    appended (file_log (file r)) = pieces_of blocks /\
    separates (comparator_at (comparator plain_options))
      (List.map fst (entries (index_block r))) (records_of groups)
      (entries (data_block r)).
Proof.
  destruct (run (TableBuilder_new plain_options (scripted []))
              [OpAdd "the quick brown fox" "1"; OpFlush; OpAdd "the who" "2"])
    as [r|] eqn:Hrun; [|vm_compute in Hrun; discriminate].
  pose proof Hrun as Hval. vm_compute in Hval. injection Hval as Hval.
  assert (Hok : ok r = true) by (rewrite <- Hval; reflexivity).
  assert (Hop : closed r = false) by (rewrite <- Hval; reflexivity).
  destruct (index_keys_separate_blocks plain_options (scripted []) _ r
              Hrun Hok Hop ReferenceProofs.bytewise_separator_contract)
    as (blocks & groups & Hp & _ & _ & _ & Hsep).
  exists r, blocks, groups.
  split; [reflexivity|]. split; [exact Hp | exact Hsep].
Defined.

Lemma final_index_keys_separate_blocks_witness :
  exists r r' r1 blocks groups before index_entries index type,
    run (TableBuilder_new plain_options (scripted []))
      [OpAdd "the quick brown fox" "1"; OpFlush; OpAdd "the who" "2"] = Some r /\
    Finish r = Some (r', Status_OK) /\
    Flush r = Some r1 /\
    appended (file_log (file r'))
    = (pieces_of blocks ++ before
       ++ [index; trailer_of index type; footer_of r1])%list /\
    block_payload plain_options index_entries = (index, type) /\
    List.length index_entries = List.length groups /\
    separates (comparator_at (comparator plain_options))
      (List.map fst (List.map snd index_entries)) (records_of groups) [].
Proof.
  destruct (run (TableBuilder_new plain_options (scripted []))
              [OpAdd "the quick brown fox" "1"; OpFlush; OpAdd "the who" "2"])
    as [r|] eqn:Hrun; [|vm_compute in Hrun; discriminate].
  pose proof Hrun as Hval. vm_compute in Hval. injection Hval as Hval.
  destruct (Finish r) as [[r' st]|] eqn:Hfin;
    [|rewrite <- Hval in Hfin; vm_compute in Hfin; discriminate].
  assert (Hst : st = Status_OK).
  { pose proof Hfin as Hv. rewrite <- Hval in Hv. vm_compute in Hv.
    injection Hv as _ <-. reflexivity. }
  subst st.
  destruct (final_index_keys_separate_blocks plain_options (scripted []) _ r r'
              Hrun Hfin ReferenceProofs.bytewise_separator_contract
              ReferenceProofs.bytewise_successor_contract)
    as (r1 & blocks & groups & before & index_entries & index & type & Hflush
        & Hp & Hpay & _ & _ & _ & _ & Hlen & _ & Hsep).
  exists r, r', r1, blocks, groups, before, index_entries, index, type.
  split; [reflexivity|]. split; [exact Hfin|]. split; [exact Hflush|].
  assert (Hopt : options r = plain_options) by (rewrite <- Hval; reflexivity).
  rewrite Hopt in Hpay.
  split; [exact Hp|]. split; [exact Hpay|]. split; [exact Hlen | exact Hsep].
Defined.


(** A builder constructed with a filter policy and then given options
    without one: [Finish] runs into the null pointer. *)
Example Finish_after_dropping_the_filter_policy :
  exists r,
    run (TableBuilder_new filter_options (scripted []))
      [OpAdd "a" "1"; OpChangeOptions plain_options] = Some r /\
    filter_block r <> None /\
    filter_policy (options r) = nullptr /\
    Finish r = None.
Proof.
  eexists. split; [vm_compute; reflexivity|].
  split; [discriminate|]. split; [reflexivity | vm_compute; reflexivity].
Qed.

Lemma build_succeeds_witness :
  exists r r',
    run (TableBuilder_new filter_options (scripted []))
      (adds [("a", "1"); ("b", "2")]) = Some r /\
    Finish r = Some (r', Status_OK) /\
    NumEntries r' = 2.
Proof.
  destruct (build_succeeds filter_options (scripted [])
              [("a", "1"); ("b", "2")])
    as (r & r' & Hrun & _ & _ & Hfin & Hn).
  - reflexivity.
  - vm_compute. repeat split.
  - discriminate.
  - exists r, r'. split; [exact Hrun|]. split; [exact Hfin | exact Hn].
Defined.

End MoreRuns.
